(** * The function index of the description.ext module (server/src/modules/ext.ts)

    A shallow embedding of [ExtModule]: the walk over the parsed
    [CfgFunctions] tree, the resolution of function files, the diagnostics
    for missing files, the docstring lookup and the query operations
    (completion, hover, go to definition), followed by the properties of the
    index that the specification states.

    Conventions of the embedding.
    - The names, paths, URIs and messages that the module compares, joins and
      lower-cases are [string]s: sequences of the code units U+0000 to U+00FF.
      The text of a function file, which the regular expression of
      [tryToLoadDocs] reads unit by unit, is a [JsText.t]: a sequence of
      16-bit code units.
    - A JavaScript object used as a dictionary is an association list of its
      own properties, kept in the order in which [for ... in] visits them.  A
      read [o[k]] with a key that the caller chooses also finds what the
      object inherits from [Object.prototype]: [JsObject.lookup].
    - Node's [path] and [fs] modules, [Uri.file], the [Hpp] parser, the
      [Docstring] parser and [glob] are not code of this file: the definitions
      take them as section variables.  [fs.readFileSync] and [Docstring.parse]
      can throw, and the parser calls the hooks that [onInitialize] gave it.
      Concrete models of [path.posix] (and of [path.win32.isAbsolute]) are
      given for the statements that speak about concrete paths.
    - [fs.readFile] and [glob] complete on a later turn of the event loop:
      their callbacks are queued as tasks and run by [run_task], in any
      order. *)

From Stdlib Require Import String Ascii List Bool Arith NArith Lia Permutation.
From Stdlib Require Import DecimalString.
Import ListNotations.
Open Scope list_scope.
Open Scope string_scope.

(* ------------------------------------------------------------------ *)
(** ** JavaScript strings *)

Module JsString.

(** The lower-case form of a unit below U+0100: the letters A-Z and the
    letters U+00C0 to U+00DE, the multiplication sign U+00D7 apart, are 32
    units below their lower-case forms; every other unit is its own. *)
Definition lower_unit (c : ascii) : ascii :=
  let n := nat_of_ascii c in
  if ((65 <=? n) && (n <=? 90))%nat
     || ((192 <=? n) && (n <=? 222) && negb (n =? 215))%nat
  then ascii_of_nat (n + 32) else c.

(** [s.toLowerCase()] *)
Fixpoint toLowerCase (s : string) : string :=
  match s with
  | EmptyString => EmptyString
  | String c s' => String (lower_unit c) (toLowerCase s')
  end.

(** [s.startsWith(p)] *)
Fixpoint startsWith (s p : string) {struct p} : bool :=
  match p with
  | EmptyString => true
  | String b p' =>
      match s with
      | EmptyString => false
      | String a s' => Ascii.eqb a b && startsWith s' p'
      end
  end.

(** [s.slice(n)] for [0 <= n] *)
Fixpoint slice (s : string) (n : nat) {struct n} : string :=
  match n with
  | 0 => s
  | S n' => match s with
            | EmptyString => EmptyString
            | String _ s' => slice s' n'
            end
  end.

(** [s.substr(0, n)] *)
Fixpoint substr0 (s : string) (n : nat) {struct n} : string :=
  match n with
  | 0 => EmptyString
  | S n' => match s with
            | EmptyString => EmptyString
            | String a s' => String a (substr0 s' n')
            end
  end.

(** The truth value JavaScript gives a string. *)
Definition truthy (s : string) : bool := negb (String.eqb s "").

(** [v || d] where [v] is a string or [undefined]. *)
Definition or_else (v : option string) (d : string) : string :=
  match v with
  | Some s => if truthy s then s else d
  | None => d
  end.

(** [v] when it is a string that counts as true, for the tests [if (v)]. *)
Definition defined (v : option string) : option string :=
  match v with
  | Some s => if truthy s then Some s else None
  | None => None
  end.

(** The characters that have no place inside a literal here. *)
Definition quote : string := String (ascii_of_nat 34) EmptyString.
Definition LF : string := String (ascii_of_nat 10) EmptyString.
Definition CRLF : string := String (ascii_of_nat 13) LF.

(** [xs.map((x, index) => f(x, index))] *)
Fixpoint mapi_from {A B : Type} (i : nat) (f : A -> nat -> B) (xs : list A)
  : list B :=
  match xs with
  | [] => []
  | x :: xs' => f x i :: mapi_from (S i) f xs'
  end.

Definition mapi {A B : Type} (f : A -> nat -> B) (xs : list A) : list B :=
  mapi_from 0 f xs.

(** The decimal rendering of a number inside a template literal. *)
Definition of_nat (n : nat) : string := NilZero.string_of_uint (Nat.to_uint n).

End JsString.

(* ------------------------------------------------------------------ *)
(** ** The text of a file

    [fs.readFileSync(f).toString()] is a string of 16-bit code units; a unit
    is written as its number. *)

Module JsText.

Definition t : Type := list N.

(** The text with the units of [s]. *)
Definition of_string (s : string) : t :=
  map N_of_ascii (list_ascii_of_string s).

(** [s.startsWith(p)] *)
Fixpoint startsWith (s p : t) {struct p} : bool :=
  match p with
  | [] => true
  | b :: p' =>
      match s with
      | [] => false
      | a :: s' => N.eqb a b && startsWith s' p'
      end
  end.

(** [s.slice(n)] for [0 <= n] *)
Definition slice (s : t) (n : nat) : t := skipn n s.

End JsText.

(* ------------------------------------------------------------------ *)
(** ** Calls that can throw *)

Inductive Result (A : Type) : Type :=
| Returns (a : A)
| Throws (error : string).

Arguments Returns {A} a.
Arguments Throws {A} error.

(* ------------------------------------------------------------------ *)
(** ** JavaScript objects used as dictionaries *)

Module JsObject.

(** The own properties of an object, in [for ... in] order. *)
Definition t (V : Type) : Type := list (string * V).

Definition empty {V : Type} : t V := [].

(** The own property [k] of [o]; [None] when [o] has none.  This is [o[k]]
    for the keys that the module itself chooses ([cfgfunctions], [tag],
    [file], [ext], a URI, the key of a property just written), none of which
    [Object.prototype] has. *)
Fixpoint get {V : Type} (o : t V) (k : string) : option V :=
  match o with
  | [] => None
  | (k', v) :: o' => if String.eqb k' k then Some v else get o' k
  end.

(** [o[k] = v]: an existing property keeps its place, a new one goes last.
    (A key that is a canonical array index would be visited before the
    others, and the key [__proto__] would replace the prototype; the keys
    that the module writes - lower-cased names with [_fnc_] in them, file
    paths, URIs - are neither.) *)
Fixpoint set {V : Type} (o : t V) (k : string) (v : V) : t V :=
  match o with
  | [] => [(k, v)]
  | (k', v') :: o' =>
      if String.eqb k' k then (k', v) :: o' else (k', v') :: set o' k v
  end.

Definition keys {V : Type} (o : t V) : list string := map fst o.

(** What an object literal inherits from [Object.prototype]: the keys, each
    with what the [name] property of its value reads as inside a template
    literal.  The values are functions, which carry their names, but for
    [__proto__], whose value is [Object.prototype] itself and has no [name].
    Every one of them counts as true and has no [info], [filename],
    [description] or [link]. *)
Definition prototype : t string :=
  [ ("constructor", "Object");
    ("__defineGetter__", "__defineGetter__");
    ("__defineSetter__", "__defineSetter__");
    ("hasOwnProperty", "hasOwnProperty");
    ("__lookupGetter__", "__lookupGetter__");
    ("__lookupSetter__", "__lookupSetter__");
    ("isPrototypeOf", "isPrototypeOf");
    ("propertyIsEnumerable", "propertyIsEnumerable");
    ("toString", "toString");
    ("valueOf", "valueOf");
    ("__proto__", "undefined");
    ("toLocaleString", "toLocaleString") ].

(** [k] is a key of [Object.prototype]. *)
Definition inherited (k : string) : bool :=
  match get prototype k with Some _ => true | None => false end.

(** What a read finds: a value that the module stored, or a member of
    [Object.prototype], known by its key. *)
Inductive Property (V : Type) : Type :=
| Own (v : V)
| Inherited (key : string).

Arguments Own {V} v.
Arguments Inherited {V} key.

(** [o[k]] for any key: an own property hides an inherited one; [None]
    stands for [undefined]. *)
Definition lookup {V : Type} (o : t V) (k : string) : option (Property V) :=
  match get o k with
  | Some v => Some (Own v)
  | None => if inherited k then Some (Inherited k) else None
  end.

(** [value.name] inside a template literal, for an inherited value. *)
Definition nameOf (key : string) : string :=
  match get prototype key with
  | Some name => name
  | None => "undefined"
  end.

End JsObject.

(* ------------------------------------------------------------------ *)
(** ** Node's [path] module

    [path] is a library of the runtime.  [Posix] follows lib/path.js of Node
    function by function; [normalizeString] is written over the segments
    between separators instead of over character indices. *)

Module Posix.

Definition is_sep (c : ascii) : bool := Ascii.eqb c "/".

(** The segments of [s] between the separators; never empty. *)
Fixpoint split (s : string) : list string :=
  match s with
  | EmptyString => [EmptyString]
  | String c s' =>
      if is_sep c then EmptyString :: split s'
      else match split s' with
           | [] => [String c EmptyString]
           | seg :: segs => String c seg :: segs
           end
  end.

(** One segment of [normalizeString]; [res] holds the kept segments, the
    last one first. *)
Definition push_segment (allowAboveRoot : bool) (res : list string)
  (seg : string) : list string :=
  if String.eqb seg "" || String.eqb seg "." then res
  else if String.eqb seg ".." then
    match res with
    | [] => if allowAboveRoot then [".."] else []
    | last :: res' =>
        if String.eqb last ".." then
          (if allowAboveRoot then ".." :: res else res)
        else res'
    end
  else seg :: res.

Definition normalizeString (path : string) (allowAboveRoot : bool) : string :=
  String.concat "/" (rev (fold_left (push_segment allowAboveRoot) (split path) [])).

Definition first_is_sep (s : string) : bool :=
  match s with
  | String c _ => is_sep c
  | EmptyString => false
  end.

Fixpoint last_is_sep (s : string) : bool :=
  match s with
  | EmptyString => false
  | String c EmptyString => is_sep c
  | String _ s' => last_is_sep s'
  end.

(** [path.posix.isAbsolute] *)
Definition isAbsolute (path : string) : bool := first_is_sep path.

(** [path.posix.normalize] *)
Definition normalize (path : string) : string :=
  if String.eqb path "" then "."
  else
    let isAbs := first_is_sep path in
    let trailingSeparator := last_is_sep path in
    let p := normalizeString path (negb isAbs) in
    if String.eqb p "" then
      (if isAbs then "/" else if trailingSeparator then "./" else ".")
    else
      let p := if trailingSeparator then p ++ "/" else p in
      if isAbs then "/" ++ p else p.

(** [path.posix.join(...args)] *)
Definition join_all (args : list string) : string :=
  match filter JsString.truthy args with
  | [] => "."
  | parts => normalize (String.concat "/" parts)
  end.

(** [path.posix.join(a, b)] *)
Definition join (a b : string) : string := join_all [a; b].

(** The loop of [dirname]: [i] runs from [path.length - 1] down to 1. *)
Fixpoint dirname_scan (path : string) (i : nat) (matchedSlash : bool)
  : option nat :=
  match i with
  | 0 => None
  | S i' =>
      match String.get i path with
      | Some c =>
          if is_sep c then
            (if matchedSlash then dirname_scan path i' true else Some i)
          else dirname_scan path i' false
      | None => dirname_scan path i' matchedSlash
      end
  end.

(** [path.posix.dirname] *)
Definition dirname (path : string) : string :=
  if String.eqb path "" then "."
  else
    let hasRoot := first_is_sep path in
    match dirname_scan path (String.length path - 1) true with
    | None => if hasRoot then "/" else "."
    | Some e => if hasRoot && (e =? 1)%nat then "//" else JsString.substr0 path e
    end.

(** The loop of [basename]: [n] is [i + 1], [i] running down to 0.  The
    result is [(start, end)]. *)
Fixpoint basename_scan (path : string) (n : nat) (end_ : option nat)
  (matchedSlash : bool) : nat * option nat :=
  match n with
  | 0 => (0, end_)
  | S i =>
      match String.get i path with
      | Some c =>
          if is_sep c then
            (if matchedSlash then basename_scan path i end_ matchedSlash
             else (S i, end_))
          else
            match end_ with
            | None => basename_scan path i (Some (S i)) false
            | Some _ => basename_scan path i end_ matchedSlash
            end
      | None => basename_scan path i end_ matchedSlash
      end
  end.

(** [path.posix.basename(path)] *)
Definition basename (path : string) : string :=
  match basename_scan path (String.length path) None true with
  | (_, None) => ""
  | (start, Some e) => String.substring start (e - start) path
  end.

(** The state of the loop of [extname]. *)
Record ExtScan := {
  startDot : option nat;
  startPart : nat;
  scanEnd : option nat;
  preDotState : option bool  (* [None] is 0, [Some true] is 1, [Some false] is -1 *)
}.

Fixpoint extname_scan (path : string) (n : nat) (st : ExtScan)
  (matchedSlash : bool) : ExtScan :=
  match n with
  | 0 => st
  | S i =>
      match String.get i path with
      | Some c =>
          if is_sep c then
            (if matchedSlash then extname_scan path i st matchedSlash
             else {| startDot := startDot st; startPart := S i;
                     scanEnd := scanEnd st; preDotState := preDotState st |})
          else
            let '(e, ms) :=
              match scanEnd st with
              | None => (Some (S i), false)
              | Some e => (Some e, matchedSlash)
              end in
            let st1 :=
              if Ascii.eqb c "." then
                match startDot st with
                | None => {| startDot := Some i; startPart := startPart st;
                             scanEnd := e; preDotState := preDotState st |}
                | Some _ => {| startDot := startDot st; startPart := startPart st;
                               scanEnd := e; preDotState := Some true |}
                end
              else
                match startDot st with
                | None => {| startDot := None; startPart := startPart st;
                             scanEnd := e; preDotState := preDotState st |}
                | Some _ => {| startDot := startDot st; startPart := startPart st;
                               scanEnd := e; preDotState := Some false |}
                end in
            extname_scan path i st1 ms
      | None => extname_scan path i st matchedSlash
      end
  end.

(** [path.posix.extname] *)
Definition extname (path : string) : string :=
  let st := extname_scan path (String.length path)
              {| startDot := None; startPart := 0; scanEnd := None;
                 preDotState := None |} true in
  match startDot st, scanEnd st with
  | Some d, Some e =>
      match preDotState st with
      | None => ""
      | Some pre =>
          if pre && (d =? e - 1)%nat && (d =? startPart st + 1)%nat then ""
          else String.substring d (e - d) path
      end
  | _, _ => ""
  end.

End Posix.

Module Win32.

Definition isPathSeparator (c : ascii) : bool :=
  Ascii.eqb c "/" || Ascii.eqb c "\".

Definition isWindowsDeviceRoot (c : ascii) : bool :=
  let n := nat_of_ascii c in
  (((65 <=? n) && (n <=? 90)) || ((97 <=? n) && (n <=? 122)))%nat.

(** [path.win32.isAbsolute] *)
Definition isAbsolute (path : string) : bool :=
  match path with
  | EmptyString => false
  | String c0 rest =>
      isPathSeparator c0 ||
      match rest with
      | String c1 (String c2 _) =>
          isWindowsDeviceRoot c0 && Ascii.eqb c1 ":" && isPathSeparator c2
      | _ => false
      end
  end.

End Win32.

(** Names that are one clean segment of a POSIX path: class names are
    identifiers, so they are. *)
Module PosixSegment.

Fixpoint no_sep (s : string) : bool :=
  match s with
  | EmptyString => true
  | String c s' => negb (Posix.is_sep c) && no_sep s'
  end.

Definition plain (s : string) : bool :=
  no_sep s
  && negb (String.eqb s "" || String.eqb s "." || String.eqb s "..").

End PosixSegment.

(* ------------------------------------------------------------------ *)
(** ** The types of the language server protocol that the module uses *)

Module Lsp.

Record Position := { line : nat; character : nat }.

Record Range := { start : Position; end_ : Position }.

Inductive DiagnosticSeverity := Error | Warning | Information | Hint.

Record Diagnostic := {
  severity : DiagnosticSeverity;
  range : Range;
  message : string;
  source : string
}.

Record PublishDiagnosticsParams := {
  uri : string;
  diagnostics : list Diagnostic
}.

Module CompletionItemKind.
Inductive t := Function | Property.
End CompletionItemKind.

Record CompletionItem := {
  label : string;
  data : string;
  filterText : string;
  insertText : string;
  kind : CompletionItemKind.t;
  documentation : option string
}.

Record Hover := { contents : string }.

Record Location := { loc_uri : string; loc_range : Range }.

End Lsp.

(* ------------------------------------------------------------------ *)
(** ** The output of the configuration parser ([Hpp]) *)

Module Hpp.

Record FileLocation := {
  filename : option string;
  range : Lsp.Range
}.

(** A class holds its name as written, its child classes and its variables,
    both keyed by lower-cased name.  The values of the variables that the
    module reads ([tag], [file], [ext]) are strings. *)
Inductive Class := mkClass {
  name : string;
  body : ClassBody;
  fileLocation : FileLocation
}
with ClassBody := mkClassBody {
  classes : list (string * Class);
  variables : list (string * string)
}.

Record ParseError := {
  error_filename : option string;
  error_range : Lsp.Range;
  error_message : string
}.

(** How [Hpp.parse(filename)] ends: it returns the tree or throws. *)
Inductive Outcome :=
| Parsed (context : ClassBody)
| ThrowsParseError (error : ParseError)
| ThrowsOther (error : string).

(** A call that the parser makes, while it runs, to a hook that
    [onInitialize] gave it (lines 44-60): [Hpp.onFilename(filename)] for a
    file that it touches, or [Hpp.log(contents)].  The third hook,
    [Hpp.tryToLoad], reads the open documents and changes nothing. *)
Inductive Hook :=
| OnFilename (filename : string)
| Log (contents : string).

End Hpp.

(* ------------------------------------------------------------------ *)
(** ** The output of the docstring parser, as far as [onHover] reads it *)

Module Docstring.

Record ParameterInfo := {
  name : option string;
  type : string;
  description : string;
  optional : bool;
  default : option string
}.

Record Info := {
  description_short : option string;
  parameters : list ParameterInfo;
  parameter : option ParameterInfo;
  returns_type : option string
}.

End Docstring.

(* ------------------------------------------------------------------ *)
(** ** The regular expression of [tryToLoadDocs]

    The expression  \s* \/\* ( (?:.|\n|\r)* ) \*\/  (written here with blanks
    between its pieces) run by [RegExp.prototype.exec]: a
    backtracking matcher, each piece taking the rest of the pattern as its
    continuation.  The expression has no [^] and no flags. *)

Module CommentRegex.

(** [\s]: the white space and the line terminators of the language. *)
Definition is_space (u : N) : bool :=
  existsb (N.eqb u)
    [9; 10; 11; 12; 13; 32; 160; 5760; 8232; 8233; 8239; 8287; 12288; 65279]%N
  || ((8192 <=? u) && (u <=? 8202))%N.

(** The line terminators: [\n], [\r], U+2028 and U+2029. *)
Definition is_line_terminator (u : N) : bool :=
  existsb (N.eqb u) [10; 13; 8232; 8233]%N.

(** [.]: everything but the line terminators (the expression has no [s]
    flag). *)
Definition dot (u : N) : bool := negb (is_line_terminator u).

(** The alternation of [.], [\n] and [\r]. *)
Definition any_char (u : N) : bool :=
  dot u || N.eqb u 10 || N.eqb u 13.

(** The two literals. *)
Definition opener : JsText.t := JsText.of_string "/*".
Definition closer : JsText.t := JsText.of_string "*/".

(** A literal. *)
Definition lit {R : Type} (l : JsText.t) (s : JsText.t)
  (k : JsText.t -> option R) : option R :=
  if JsText.startsWith s l then k (JsText.slice s (List.length l))
  else None.

(** A starred class, greedy: the longest run first, then shorter ones. *)
Fixpoint star {R : Type} (p : N -> bool) (s : JsText.t)
  (k : JsText.t -> option R) : option R :=
  match s with
  | c :: s' =>
      if p c then
        match star p s' k with
        | Some r => Some r
        | None => k s
        end
      else k s
  | [] => k s
  end.

(** A starred class inside a capturing group, greedy; the captured text goes
    to the continuation. *)
Fixpoint star_capture {R : Type} (p : N -> bool) (s : JsText.t)
  (captured : JsText.t) (k : JsText.t -> JsText.t -> option R) : option R :=
  match s with
  | c :: s' =>
      if p c then
        match star_capture p s' (captured ++ [c])%list k with
        | Some r => Some r
        | None => k captured s
        end
      else k captured s
  | [] => k captured s
  end.

(** The whole expression tried at the start of [s]; the result is group 1. *)
Definition match_here (s : JsText.t) : option JsText.t :=
  star is_space s (fun s1 =>
  lit opener s1 (fun s2 =>
  star_capture any_char s2 [] (fun group1 s3 =>
  lit closer s3 (fun _ => Some group1)))).

(** [commentRegex.exec(contents)]: the leftmost start that matches.  The
    result is [match[1]]; [None] stands for [null]. *)
Fixpoint exec (contents : JsText.t) : option JsText.t :=
  match match_here contents with
  | Some group1 => Some group1
  | None =>
      match contents with
      | _ :: rest => exec rest
      | [] => None
      end
  end.

End CommentRegex.

(* ------------------------------------------------------------------ *)
(** ** The module state and what it emits *)

(** [export interface Function] *)
Record Function := {
  name : string;
  filename : string;
  info : option Docstring.Info
}.

(** [interface Documentation] *)
Record Documentation := {
  doc_name : string;
  doc_type : string;
  doc_description : string;
  doc_link : string
}.

(** The settings that the module reads. *)
Record Settings := {
  includePrefixes : option (JsObject.t string);
  descriptionFiles : list string;
  discoverDescriptionFiles : bool;
  exclude : list string
}.

Inductive PromiseId :=
| IndexWorkspacePromise (root : string)
| ParseFilePromise (filename : string).

(** What the module does to the outside, in the order in which it does it. *)
Inductive Event :=
| LoggerDebug (msg : string)
| LoggerInfo (msg : string)
| LoggerError (msg : string)
| SendDiagnostics (params : Lsp.PublishDiagnosticsParams)
| ConsoleError (error : string)
| Resolve (promise : PromiseId).

(** A callback waiting for its turn of the event loop. *)
Inductive Task :=
| GlobCallback (root : string) (files : list string)
| ReadFileCallback (filename : string).

(** The fields of [ExtModule], the events emitted so far and the callbacks
    not yet run. *)
Record State := {
  functions : JsObject.t (JsObject.t Function);
  documentation : JsObject.t Documentation;
  files : list string;
  trace : list Event;
  pending : list Task
}.

Definition initial (docs : JsObject.t Documentation) : State :=
  {| functions := []; documentation := docs; files := []; trace := [];
     pending := [] |}.

Definition set_functions (f : JsObject.t (JsObject.t Function)) (st : State)
  : State :=
  {| functions := f; documentation := documentation st; files := files st;
     trace := trace st; pending := pending st |}.

Definition set_files (fs : list string) (st : State) : State :=
  {| functions := functions st; documentation := documentation st;
     files := fs; trace := trace st; pending := pending st |}.

Definition emit (es : list Event) (st : State) : State :=
  {| functions := functions st; documentation := documentation st;
     files := files st; trace := (trace st ++ es)%list; pending := pending st |}.

Definition enqueue (t : Task) (st : State) : State :=
  {| functions := functions st; documentation := documentation st;
     files := files st; trace := trace st;
     pending := (pending st ++ [t])%list |}.

(** The local variables of [processCfgFunctions] that its loops update. *)
Record Loop := {
  fns : JsObject.t Function;
  diags : JsObject.t (list Lsp.Diagnostic);
  functionsCount : nat;
  logged : list Event
}.

(* ------------------------------------------------------------------ *)
(** ** A mission used in the examples

    [/mission/description.ext] declares, under the tag class [MyTag] with
    [tag = "MYTAG"], the category [utils] with the functions [doThing] and
    [gone], and the category [Renamed] with [tag = "OTHER"] and the function
    [helper].  The file of [gone] is not on the disk. *)

Module Sample.

Definition at_line (n : nat) : Lsp.Range :=
  {| Lsp.start := {| Lsp.line := n; Lsp.character := 0 |};
     Lsp.end_ := {| Lsp.line := n; Lsp.character := 5 |} |}.

Definition leaf (name : string) (line : nat) : Hpp.Class :=
  {| Hpp.name := name;
     Hpp.body := {| Hpp.classes := []; Hpp.variables := [] |};
     Hpp.fileLocation :=
       {| Hpp.filename := Some "/mission/description.ext";
          Hpp.range := at_line line |} |}.

Definition group (name : string) (line : nat) (vars : list (string * string))
  (children : list (string * Hpp.Class)) : Hpp.Class :=
  {| Hpp.name := name;
     Hpp.body := {| Hpp.classes := children; Hpp.variables := vars |};
     Hpp.fileLocation :=
       {| Hpp.filename := Some "/mission/description.ext";
          Hpp.range := at_line line |} |}.

Definition doThing : Hpp.Class := leaf "doThing" 4.
Definition gone : Hpp.Class := leaf "gone" 5.
Definition helper : Hpp.Class := leaf "helper" 9.

Definition utils : Hpp.Class :=
  group "utils" 3 [] [("dothing", doThing); ("gone", gone)].

Definition Renamed : Hpp.Class :=
  group "Renamed" 7 [("tag", "OTHER")] [("helper", helper)].

(** A category whose [tag] is the empty string. *)
Definition Untagged : Hpp.Class :=
  group "Untagged" 7 [("tag", "")] [("helper", helper)].

Definition MyTag : Hpp.Class :=
  group "MyTag" 1 [("tag", "MYTAG")] [("utils", utils); ("renamed", Renamed)].

Definition CfgFunctions : Hpp.Class := group "CfgFunctions" 0 [] [("mytag", MyTag)].

(** The parsed description.ext, and one without [CfgFunctions]. *)
Definition context : Hpp.ClassBody :=
  {| Hpp.classes := [("cfgfunctions", CfgFunctions)]; Hpp.variables := [] |}.

Definition context_without_registry : Hpp.ClassBody :=
  {| Hpp.classes := []; Hpp.variables := [("author", "me")] |}.

Definition settings : Settings :=
  {| includePrefixes := Some []; descriptionFiles := [];
     discoverDescriptionFiles := false; exclude := [] |}.

(** What a path of the disk leads to. *)
Inductive Entry :=
| File (contents : JsText.t)
| Directory.

Definition disk : list (string * Entry) :=
  [ ("/mission", Directory);
    ("/mission/description.ext",
     File (JsText.of_string "class CfgFunctions {};"));
    ("/mission/functions", Directory);
    ("/mission/functions/utils", Directory);
    ("/mission/functions/utils/fn_doThing.sqf",
     File (JsText.of_string "/* Does a thing */ hint str _this;"));
    ("/mission/functions/Renamed", Directory);
    ("/mission/functions/Renamed/fn_helper.sqf",
     File (JsText.of_string "private _x = 1; /* late */")) ].

Definition existsSync (f : string) : bool :=
  match JsObject.get disk f with Some _ => true | None => false end.

Definition readFileSync (f : string) : Result JsText.t :=
  match JsObject.get disk f with
  | Some (File contents) => Returns contents
  | Some Directory => Throws "EISDIR: illegal operation on a directory, read"
  | None => Throws "ENOENT: no such file or directory"
  end.

Definition Uri_file (f : string) : string := "file://" ++ f.

(** [Uri.file(undefined)]: there is no path to read. *)
Definition Uri_file_undefined : Result string :=
  Throws "TypeError: Cannot read properties of undefined".

(** A docstring parser that takes the whole comment for the description; the
    units of the samples are below U+0100. *)
Definition Docstring_parse (comment : JsText.t) : Result Docstring.Info :=
  Returns
    {| Docstring.description_short :=
         Some (string_of_list_ascii (map ascii_of_N comment));
       Docstring.parameters := [];
       Docstring.parameter := None; Docstring.returns_type := None |}.

(** The parser touches the file it is given. *)
Definition Hpp_parse (f : string) : list Hpp.Hook * Hpp.Outcome :=
  if String.eqb f "/mission/description.ext" then
    ([Hpp.OnFilename f], Hpp.Parsed context)
  else ([Hpp.OnFilename f], Hpp.ThrowsOther "ENOENT").

(** The same file after [CfgFunctions] was deleted from it. *)
Definition Hpp_parse_later (f : string) : list Hpp.Hook * Hpp.Outcome :=
  if String.eqb f "/mission/description.ext" then
    ([Hpp.OnFilename f], Hpp.Parsed context_without_registry)
  else ([Hpp.OnFilename f], Hpp.ThrowsOther "ENOENT").

Definition glob (root : string) (ignore : list string)
  : option string * list string := (None, []).

(** The table of the mission once it is indexed. *)
Definition indexed : State :=
  {| functions :=
       [ ("/mission/description.ext",
          [ ("mytag_fnc_dothing",
             {| name := "MYTAG_fnc_doThing";
                filename := "/mission/functions/utils/fn_doThing.sqf";
                info :=
                  Some {| Docstring.description_short := Some " Does a thing ";
                          Docstring.parameters := [];
                          Docstring.parameter := None;
                          Docstring.returns_type := None |} |});
            ("mytag_fnc_gone",
             {| name := "MYTAG_fnc_gone";
                filename := "/mission/functions/utils/fn_gone.sqf";
                info := None |});
            ("other_fnc_helper",
             {| name := "OTHER_fnc_helper";
                filename := "/mission/functions/Renamed/fn_helper.sqf";
                info :=
                  Some {| Docstring.description_short := Some " late ";
                          Docstring.parameters := [];
                          Docstring.parameter := None;
                          Docstring.returns_type := None |} |}) ]) ];
     documentation := []; files := ["/mission/description.ext"];
     trace := []; pending := [] |}.

End Sample.

(* ------------------------------------------------------------------ *)
(** ** [class ExtModule] *)

Section ExtModule.

(** [path.join], [path.dirname], [path.isAbsolute], [path.extname] and
    [path.basename] of the platform. *)
Variable path_join : string -> string -> string.
Variable path_dirname : string -> string.
Variable path_isAbsolute : string -> bool.
Variable path_extname : string -> string.
Variable path_basename : string -> string.

(** [fs.existsSync] and [fs.readFileSync(f).toString()]: the disk.  A path
    that exists need not be readable: it can be a directory. *)
Variable fs_existsSync : string -> bool.
Variable fs_readFileSync : string -> Result JsText.t.

(** [Uri.file(f).toString()] for a string [f], and what becomes of
    [Uri.file(undefined).toString()]. *)
Variable Uri_file : string -> string.
Variable Uri_file_undefined : Result string.

(** [Docstring.parse], and [Hpp.setPaths] followed by [Hpp.parse], which
    stand together inside the [try] of [parseFile]: the calls that the parser
    makes to the hooks, in order, and how it ends. *)
Variable Docstring_parse : JsText.t -> Result Docstring.Info.
Variable Hpp_parse : string -> list Hpp.Hook * Hpp.Outcome.

(** What [glob] hands to its callback for a root and a list of ignored
    patterns: an optional error message and the files found. *)
Variable glob : string -> list string -> option string * list string.

(** [this.getSettings()] *)
Variable settings : Settings.

(** *** [processCfgFunctions], lines 342-452 *)

(** [tagClass.body.variables.tag || tagClass.name] *)
Definition tagOf (tagClass : Hpp.Class) : string :=
  JsString.or_else (JsObject.get (Hpp.variables (Hpp.body tagClass)) "tag")
    (Hpp.name tagClass).

(** [categoryTag]: the category's own [tag], or the tag of the group. *)
Definition categoryTagOf (tag : string) (categoryClass : Hpp.Class) : string :=
  JsString.or_else
    (JsObject.get (Hpp.variables (Hpp.body categoryClass)) "tag") tag.

(** [categoryPath]: the default path, or the category's [file]. *)
Definition categoryPathOf (categoryClass : Hpp.Class) : string :=
  let category := Hpp.name categoryClass in
  let categoryPath := path_join "functions" category in
  JsString.or_else
    (JsObject.get (Hpp.variables (Hpp.body categoryClass)) "file") categoryPath.

(** [fullFunctionName] *)
Definition fullFunctionNameOf (categoryTag : string) (functionClass : Hpp.Class)
  : string :=
  categoryTag ++ "_fnc_" ++ Hpp.name functionClass.

(** [filename] before the include prefixes and the root are applied: the
    default file name, or the function's [file]. *)
Definition declaredFilename (categoryPath : string) (functionClass : Hpp.Class)
  : string :=
  let functionName := Hpp.name functionClass in
  let ext :=
    JsString.or_else
      (JsObject.get (Hpp.variables (Hpp.body functionClass)) "ext") ".sqf" in
  let filename := path_join categoryPath ("fn_" ++ functionName ++ ext) in
  JsString.or_else
    (JsObject.get (Hpp.variables (Hpp.body functionClass)) "file") filename.

(** The loop over [settings.includePrefixes] with its [break]: the result is
    [(foundPrefix, filename)]. *)
Fixpoint applyIncludePrefixes (root : string) (prefixes : JsObject.t string)
  (filename : string) : bool * string :=
  match prefixes with
  | [] => (false, filename)
  | (prefix, mapped) :: rest =>
      if JsString.startsWith filename prefix then
        (true,
         if path_isAbsolute mapped then
           mapped ++ JsString.slice filename (String.length prefix)
         else
           path_join root
             (mapped ++ JsString.slice filename (String.length prefix)))
      else applyIncludePrefixes root rest filename
  end.

(** Lines 393-409: the file name after the include prefixes and the root. *)
Definition resolveFilename (root : string) (filename : string) : string :=
  let '(foundPrefix, filename) :=
    match includePrefixes settings with
    | Some prefixes => applyIncludePrefixes root prefixes filename
    | None => (false, filename)
    end in
  if negb foundPrefix then path_join root filename else filename.

(** [if (!diagnostics[uri]) diagnostics[uri] = []; diagnostics[uri].push(d)];
    the key is a URI, which starts with its scheme and is no key of
    [Object.prototype]. *)
Definition pushDiagnostic (diagnostics : JsObject.t (list Lsp.Diagnostic))
  (uri : string) (d : Lsp.Diagnostic) : JsObject.t (list Lsp.Diagnostic) :=
  let diagnostics :=
    match JsObject.get diagnostics uri with
    | None => JsObject.set diagnostics uri []
    | Some _ => diagnostics
    end in
  match JsObject.get diagnostics uri with
  | Some ds => JsObject.set diagnostics uri (ds ++ [d])%list
  | None => diagnostics
  end.

(** The diagnostic of a function whose file is missing, lines 429-436. *)
Definition missingFile (functionClass : Hpp.Class)
  (filename fullFunctionName : string) : Lsp.Diagnostic :=
  {| Lsp.severity := Lsp.Error;
     Lsp.range := Hpp.range (Hpp.fileLocation functionClass);
     Lsp.message :=
       "Failed to find " ++ filename ++ " for function " ++ fullFunctionName
       ++ ".";
     Lsp.source := "sqflint" |}.

(** The body of the innermost loop, lines 376-437. *)
Definition processFunction (rootFilename root categoryTag categoryPath : string)
  (functionClass : Hpp.Class) (l : Loop) : Loop :=
  let fullFunctionName := fullFunctionNameOf categoryTag functionClass in
  let filename :=
    resolveFilename root (declaredFilename categoryPath functionClass) in
  let functions :=
    JsObject.set (fns l) (JsString.toLowerCase fullFunctionName)
      {| filename := filename; name := fullFunctionName; info := None |} in
  let diagnostics :=
    if negb (fs_existsSync filename) then
      let fname :=
        JsString.or_else (Hpp.filename (Hpp.fileLocation functionClass))
          rootFilename in
      pushDiagnostic (diags l) (Uri_file fname)
        (missingFile functionClass filename fullFunctionName)
    else diags l in
  {| fns := functions; diags := diagnostics;
     functionsCount := S (functionsCount l); logged := logged l |}.

(** The body of the loop over the categories of a tag, lines 358-438. *)
Definition processCategory (rootFilename root tag : string)
  (categoryClass : Hpp.Class) (l : Loop) : Loop :=
  let category := Hpp.name categoryClass in
  let l :=
    {| fns := fns l; diags := diags l; functionsCount := functionsCount l;
       logged := (logged l ++ [LoggerDebug ("Detected category: " ++ category)])%list |} in
  let categoryPath := categoryPathOf categoryClass in
  let categoryTag := categoryTagOf tag categoryClass in
  fold_left
    (fun l entry =>
       processFunction rootFilename root categoryTag categoryPath (snd entry) l)
    (Hpp.classes (Hpp.body categoryClass)) l.

(** The body of the loop over the tags, lines 352-439. *)
Definition processTag (rootFilename root : string) (tagClass : Hpp.Class)
  (l : Loop) : Loop :=
  let tag := tagOf tagClass in
  let l :=
    {| fns := fns l; diags := diags l; functionsCount := functionsCount l;
       logged := (logged l ++ [LoggerDebug ("Detected tag: " ++ tag)])%list |} in
  fold_left
    (fun l entry => processCategory rootFilename root tag (snd entry) l)
    (Hpp.classes (Hpp.body tagClass)) l.

(** The three loops, started with an empty table and no diagnostics. *)
Definition scanCfgFunctions (cfgFunctions : Hpp.Class) (rootFilename : string)
  : Loop :=
  let root := path_dirname rootFilename in
  fold_left
    (fun l entry => processTag rootFilename root (snd entry) l)
    (Hpp.classes (Hpp.body cfgFunctions))
    {| fns := JsObject.empty; diags := JsObject.empty; functionsCount := 0;
       logged := [] |}.

(** *** [tryToLoadDocs], lines 454-472 *)

(** The body of its loop: what becomes of one record, or the exception that
    leaves the loop.  Nothing here catches what [fs.readFileSync] or
    [Docstring.parse] throws. *)
Definition loadDocs (fnc : Function) : Result Function :=
  if fs_existsSync (filename fnc) then
    match fs_readFileSync (filename fnc) with
    | Returns contents =>
        match CommentRegex.exec contents with
        | Some group1 =>
            match Docstring_parse group1 with
            | Returns parsed =>
                Returns {| name := name fnc; filename := filename fnc;
                           info := Some parsed |}
            | Throws error => Throws error
            end
        | None => Returns fnc
        end
    | Throws error => Throws error
    end
  else Returns fnc.

(** The loop: the records are updated where they are, in the order of the
    table, until one throws; the second component is what was thrown. *)
Fixpoint loadEach (table : JsObject.t Function)
  : JsObject.t Function * option string :=
  match table with
  | [] => ([], None)
  | (f, fnc) :: rest =>
      match loadDocs fnc with
      | Returns loaded =>
          let '(rest', thrown) := loadEach rest in ((f, loaded) :: rest', thrown)
      | Throws error => (table, Some error)
      end
  end.

(** The state that [tryToLoadDocs] leaves and what it threw, if it did. *)
Definition tryToLoadDocs (descriptionFile : string) (st : State)
  : State * option string :=
  match JsObject.get (functions st) descriptionFile with
  | Some table =>
      let '(table', thrown) := loadEach table in
      (set_functions (JsObject.set (functions st) descriptionFile table') st,
       thrown)
  | None => (st, None)
  end.

(** [processCfgFunctions]: the table of the root is replaced by an empty
    one, the loops fill it through the local alias [functions], the
    diagnostics are sent one URI at a time and the docstrings are loaded.
    What [tryToLoadDocs] throws leaves [processCfgFunctions] too. *)
Definition processCfgFunctions (cfgFunctions : Hpp.Class)
  (rootFilename : string) (st : State) : State * option string :=
  let st :=
    set_functions (JsObject.set (functions st) rootFilename JsObject.empty) st in
  let l := scanCfgFunctions cfgFunctions rootFilename in
  let st := set_functions (JsObject.set (functions st) rootFilename (fns l)) st in
  let st := emit (logged l) st in
  let st :=
    emit [LoggerDebug ("Detected a total of " ++ JsString.of_nat (functionsCount l)
                       ++ " in " ++ rootFilename)] st in
  let st :=
    emit (map (fun entry =>
                 SendDiagnostics {| Lsp.uri := fst entry;
                                    Lsp.diagnostics := snd entry |})
              (diags l)) st in
  tryToLoadDocs rootFilename st.

(** *** [process], lines 331-337 *)

Definition process (context : Hpp.ClassBody) (filename : string) (st : State)
  : State * option string :=
  match JsObject.get (Hpp.classes context) "cfgfunctions" with
  | Some cfgFunctions =>
      let st := emit [LoggerDebug ("Scanning functions for: " ++ filename)] st in
      processCfgFunctions cfgFunctions filename st
  | None => (st, None)
  end.

(** *** [parseFile], lines 292-328 *)

(** What a call of the parser to a hook emits, lines 44-60. *)
Definition hookEvent (call : Hpp.Hook) : Event :=
  match call with
  | Hpp.OnFilename filename =>
      SendDiagnostics {| Lsp.uri := Uri_file filename; Lsp.diagnostics := [] |}
  | Hpp.Log contents => LoggerInfo contents
  end.

(** What the [catch] of [parseFile] does with a parse error: a batch for the
    file that the error names, or a line on the console. *)
Definition parseErrorEvent (error : Hpp.ParseError) : Event :=
  match Hpp.error_filename error with
  | Some error_filename =>
      if JsString.truthy error_filename then
        SendDiagnostics
          {| Lsp.uri := Uri_file error_filename;
             Lsp.diagnostics :=
               [ {| Lsp.severity := Lsp.Error;
                    Lsp.range := Hpp.error_range error;
                    Lsp.message := Hpp.error_message error;
                    Lsp.source := "sqflint" |} ] |}
      else ConsoleError (Hpp.error_message error)
  | None => ConsoleError (Hpp.error_message error)
  end.

(** The callback that [parseFile] gives to [fs.readFile].  The [try] holds
    the call of the parser, [process] and the clearing of the diagnostics;
    the promise is resolved after the [catch]. *)
Definition parseFileCallback (filename : string) (st : State) : State :=
  let st := emit [LoggerDebug ("Proccessing: " ++ filename)] st in
  let '(calls, outcome) := Hpp_parse filename in
  let st := emit (map hookEvent calls) st in
  let st :=
    match outcome with
    | Hpp.Parsed context =>
        match process context filename st with
        | (st, None) =>
            let st := emit [LoggerDebug ("Proccessed: " ++ filename)] st in
            emit [SendDiagnostics {| Lsp.uri := Uri_file filename;
                                     Lsp.diagnostics := [] |}] st
        | (st, Some error) => emit [ConsoleError error] st
        end
    | Hpp.ThrowsParseError error => emit [parseErrorEvent error] st
    | Hpp.ThrowsOther error => emit [ConsoleError error] st
    end in
  emit [Resolve (ParseFilePromise filename)] st.

(** [parseFile]: [fs.readFile] is started, its callback runs later. *)
Definition parseFile (filename : string) (st : State) : State :=
  enqueue (ReadFileCallback filename) st.

(** *** [parse], lines 279-287 *)

Definition parse (file : string) (st : State) : State :=
  if fs_existsSync file then parseFile file st else st.

(** *** [indexWorkspace], lines 77-119 *)

(** [this.files.forEach(item => ...)] *)
Definition parseEach (items : list string) (st : State) : State :=
  fold_left
    (fun st item =>
       let st := emit [LoggerDebug ("Parsing: " ++ item)] st in
       let st := parse item st in
       emit [LoggerDebug ("Parsed: " ++ item)] st)
    items st.

(** The callback that [indexWorkspace] gives to [glob]. *)
Definition globCallback (root : string) (files : list string) (st : State)
  : State :=
  let '(err, discovered) := glob root (exclude settings) in
  let st :=
    match err with
    | Some message =>
        emit [LoggerError "Issue when scanning for description.ext";
              LoggerError message] st
    | None => st
    end in
  let files :=
    (files ++ map (fun item => path_join root item) discovered)%list in
  let st := set_files files st in
  let st := parseEach files st in
  emit [Resolve (IndexWorkspacePromise root)] st.

Definition indexWorkspace (root : string) (st : State) : State :=
  let files :=
    map (fun file => if path_isAbsolute file then file else path_join root file)
      (descriptionFiles settings) in
  if discoverDescriptionFiles settings then
    enqueue (GlobCallback root files) st
  else
    let descPath := path_join root "description.ext" in
    let files :=
      if fs_existsSync descPath then (files ++ [descPath])%list else files in
    let st := set_files files st in
    let st := parseEach files st in
    emit [Resolve (IndexWorkspacePromise root)] st.

(** *** The event loop *)

Definition run_task (t : Task) (st : State) : State :=
  match t with
  | GlobCallback root files => globCallback root files st
  | ReadFileCallback filename => parseFileCallback filename st
  end.

(** One turn in which the oldest waiting callback runs to completion. *)
Definition turn (st : State) : option State :=
  match pending st with
  | [] => None
  | t :: rest =>
      Some (run_task t
              {| functions := functions st; documentation := documentation st;
                 files := files st; trace := trace st; pending := rest |})
  end.

(** The reads finish in any order: the callback that runs next can be any
    of those that wait, the one at place [k] here. *)
Definition turnOf (k : nat) (st : State) : option State :=
  match nth_error (pending st) k with
  | Some t =>
      Some (run_task t
              {| functions := functions st; documentation := documentation st;
                 files := files st; trace := trace st;
                 pending := (firstn k (pending st) ++ skipn (S k) (pending st))%list |})
  | None => None
  end.

(** Up to [n] turns. *)
Fixpoint run (n : nat) (st : State) : State :=
  match n with
  | 0 => st
  | S n' => match turn st with
            | Some st' => run n' st'
            | None => st
            end
  end.
(** *** [onCompletion], lines 139-187 *)

Definition functionItem (ident : string) (fnc : Function) : Lsp.CompletionItem :=
  {| Lsp.label := name fnc; Lsp.data := ident; Lsp.filterText := name fnc;
     Lsp.insertText := name fnc; Lsp.kind := Lsp.CompletionItemKind.Function;
     Lsp.documentation := None |}.

(** [ident.length >= name.length && ident.substr(0, name.length) == name] *)
Definition identMatches (ident name : string) : bool :=
  (String.length name <=? String.length ident)%nat
  && String.eqb (JsString.substr0 ident (String.length name)) name.

(** The two nested loops over [this.functions]. *)
Definition completeFunctions (name : string) (st : State)
  (items : list Lsp.CompletionItem) : list Lsp.CompletionItem :=
  fold_left
    (fun items fileEntry =>
       fold_left
         (fun items entry =>
            let ident := fst entry in
            let fnc := snd entry in
            if identMatches ident name then (items ++ [functionItem ident fnc])%list
            else items)
         (snd fileEntry) items)
    (functions st) items.

(** The replacement text of a description.ext property, by its type. *)
Definition replacementOf (value : Documentation) : string :=
  let type := JsString.toLowerCase (doc_type value) in
  if String.eqb type "string" then doc_name value ++ " = " ++ JsString.quote
  else if String.eqb type "array" || String.eqb type "array of strings" then
    doc_name value ++ "[] = {"
  else if String.eqb type "class" then
    "class " ++ doc_name value ++ JsString.LF ++ "{" ++ JsString.LF
  else doc_name value ++ " = ".

(** The loop over [this.documentation]. *)
Definition completeDocumentation (name : string) (st : State)
  (items : list Lsp.CompletionItem) : list Lsp.CompletionItem :=
  fold_left
    (fun items entry =>
       let ident := fst entry in
       let value := snd entry in
       if identMatches ident name then
         (items ++
          [ {| Lsp.label := doc_name value; Lsp.data := ident;
               Lsp.filterText := replacementOf value;
               Lsp.insertText := replacementOf value;
               Lsp.kind := Lsp.CompletionItemKind.Property;
               Lsp.documentation := Some (doc_description value) |} ])%list
       else items)
    (documentation st) items.

(** [onCompletion(params, name)], [uri] being [params.textDocument.uri]. *)
Definition onCompletion (uri : string) (name : string) (st : State)
  : list Lsp.CompletionItem :=
  let items := [] in
  let items :=
    if String.eqb (JsString.toLowerCase (path_extname uri)) ".sqf" then
      completeFunctions name st items
    else items in
  let items :=
    if String.eqb (JsString.toLowerCase (path_basename uri)) "description.ext"
    then completeDocumentation name st items
    else items in
  items.

(** *** [onHover], lines 189-251 *)

(** The loops of [onHover] and [getFunction]: what the table of the first
    root, in the order of [for ... in], answers to [this.functions[file][key]]
    with something that counts as true.  Every table is an object literal, so
    a key of [Object.prototype] is answered by the first table there is. *)
Fixpoint firstDefined (tables : JsObject.t (JsObject.t Function)) (key : string)
  : option (JsObject.Property Function) :=
  match tables with
  | [] => None
  | (_, table) :: rest =>
      match JsObject.lookup table key with
      | Some item => Some item
      | None => firstDefined rest key
      end
  end.

Definition parameterLine (param : Docstring.ParameterInfo) (index : nat) : string :=
  match JsString.defined (Docstring.name param) with
  | Some name =>
      JsString.of_nat index ++ ". `" ++ name ++ " (" ++ Docstring.type param
      ++ ")` - " ++ Docstring.description param
  | None =>
      JsString.of_nat index ++ ". `" ++ Docstring.type param ++ "` - "
      ++ Docstring.description param
  end.

Definition argumentOf (param : Docstring.ParameterInfo) (index : nat) : string :=
  let name :=
    JsString.or_else (Docstring.name param)
      ("_" ++ JsString.toLowerCase (Docstring.type param) ++ JsString.of_nat index) in
  match JsString.defined (Docstring.default param) with
  | Some default => if Docstring.optional param then name ++ "=" ++ default else name
  | None => name
  end.

(** The text shown for a function, lines 194-234. *)
Definition hoverContents (item : Function) : string :=
  let contents := "" in
  let contents :=
    match info item with
    | Some i =>
        match JsString.defined (Docstring.description_short i) with
        | Some short => contents ++ short ++ JsString.CRLF
        | None => contents
        end
    | None => contents
    end in
  let contents :=
    match info item with
    | Some i =>
        match Docstring.parameters i with
        | [] => contents
        | params =>
            contents ++ JsString.CRLF
            ++ String.concat JsString.CRLF (JsString.mapi parameterLine params)
            ++ JsString.CRLF ++ JsString.CRLF
        end
    | None => contents
    end in
  let contents := contents ++ "```sqf" ++ JsString.CRLF ++ "(function)" in
  let contents :=
    match info item with
    | Some i =>
        match JsString.defined (Docstring.returns_type i) with
        | Some type => contents ++ " " ++ type ++ " ="
        | None => contents
        end
    | None => contents
    end in
  let args :=
    match info item with
    | Some i =>
        match Docstring.parameter i with
        | Some p => Docstring.type p
        | None =>
            match Docstring.parameters i with
            | [] => "ANY"
            | params =>
                "[" ++ String.concat "," (JsString.mapi argumentOf params) ++ "]"
            end
        end
    | None => "ANY"
    end in
  contents ++ " " ++ args ++ " call " ++ name item ++ JsString.CRLF ++ "```".

(** The same lines run on what a table answers: an inherited value has no
    [info], and its [name] is what [JsObject.nameOf] says. *)
Definition hoverOf (item : JsObject.Property Function) : string :=
  match item with
  | JsObject.Own fnc => hoverContents fnc
  | JsObject.Inherited key =>
      "```sqf" ++ JsString.CRLF ++ "(function) ANY call " ++ JsObject.nameOf key
      ++ JsString.CRLF ++ "```"
  end.

(** Lines 245-246 on what [this.documentation] answers: an inherited value
    has neither [description] nor [link]. *)
Definition propertyHover (item : JsObject.Property Documentation) : string :=
  match item with
  | JsObject.Own value =>
      doc_description value ++ " _([more info](" ++ doc_link value ++ "))_"
  | JsObject.Inherited _ => "undefined _([more info](undefined))_"
  end.

(** [onHover(params, name)], [uri] being [params.textDocument.uri]; [None]
    stands for [null]. *)
Definition onHover (uri : string) (name : string) (st : State)
  : option Lsp.Hover :=
  let fromFunctions :=
    if String.eqb (JsString.toLowerCase (path_extname uri)) ".sqf" then
      match firstDefined (functions st) name with
      | Some item => Some {| Lsp.contents := hoverOf item |}
      | None => None
      end
    else None in
  match fromFunctions with
  | Some hover => Some hover
  | None =>
      if String.eqb (JsString.toLowerCase (path_basename uri)) "description.ext"
      then
        match JsObject.lookup (documentation st) name with
        | Some item => Some {| Lsp.contents := propertyHover item |}
        | None => None
        end
      else None
  end.

(** *** [getFunction] and [onDefinition], lines 253-274 *)

(** [None] stands for [null]. *)
Definition getFunction (name : string) (st : State)
  : option (JsObject.Property Function) :=
  firstDefined (functions st) (JsString.toLowerCase name).

Definition locationOf (uri : string) : Lsp.Location :=
  {| Lsp.loc_uri := uri;
     Lsp.loc_range :=
       {| Lsp.start := {| Lsp.line := 0; Lsp.character := 0 |};
          Lsp.end_ := {| Lsp.line := 0; Lsp.character := 1 |} |} |}.

(** An inherited value has no [filename]: [Uri.file] is then called on
    [undefined]. *)
Definition onDefinition (name : string) (st : State)
  : Result (list Lsp.Location) :=
  match getFunction name st with
  | None => Returns []
  | Some (JsObject.Own fun_) => Returns [locationOf (Uri_file (filename fun_))]
  | Some (JsObject.Inherited _) =>
      match Uri_file_undefined with
      | Returns uri => Returns [locationOf uri]
      | Throws error => Throws error
      end
  end.

(** *** The task of [parseDocument], lines 126-134

    What [parseDocument] hands to its [SingleRunner] for a document at
    [fsPath]; the runner, which delays and merges calls, is not modelled. *)

Definition parseDocumentTask (fsPath : string) (st : State) : State :=
  if String.eqb (path_basename fsPath) "description.ext" then
    parseFile fsPath st
  else if String.eqb (path_extname fsPath) ".hpp" then
    fold_left (fun st item => parse item st) (files st) st
  else st.

(** ** Vocabulary of the statements *)

(** What the editor can make the module do, one step at a time. *)
Inductive Action :=
| IndexWorkspace (root : string)
| ParseDocument (fsPath : string)
| Turn
| TurnOf (k : nat).

Definition act (st : State) (a : Action) : State :=
  match a with
  | IndexWorkspace root => indexWorkspace root st
  | ParseDocument fsPath => parseDocumentTask fsPath st
  | Turn => match turn st with Some st' => st' | None => st end
  | TurnOf k => match turnOf k st with Some st' => st' | None => st end
  end.

(** The state after a sequence of actions. *)
Definition after (actions : list Action) (st : State) : State :=
  fold_left act actions st.

(** A function class as the innermost loop meets it: the tag and the path of
    its category, and the class. *)
Definition Declaration : Type := string * string * Hpp.Class.

(** The function classes of a registry in the order in which the loops of
    [processCfgFunctions] reach them. *)
Definition declarations (cfgFunctions : Hpp.Class) : list Declaration :=
  flat_map
    (fun tagEntry =>
       flat_map
         (fun categoryEntry =>
            map (fun functionEntry =>
                   (categoryTagOf (tagOf (snd tagEntry)) (snd categoryEntry),
                    categoryPathOf (snd categoryEntry),
                    snd functionEntry))
              (Hpp.classes (Hpp.body (snd categoryEntry))))
         (Hpp.classes (Hpp.body (snd tagEntry))))
    (Hpp.classes (Hpp.body cfgFunctions)).

Definition qualifiedName (d : Declaration) : string :=
  fullFunctionNameOf (fst (fst d)) (snd d).

Definition resolvedFile (rootFilename : string) (d : Declaration) : string :=
  resolveFilename (path_dirname rootFilename)
    (declaredFilename (snd (fst d)) (snd d)).

Definition recordOf (rootFilename : string) (d : Declaration) : Function :=
  {| name := qualifiedName d; filename := resolvedFile rootFilename d;
     info := None |}.

(** The URI that a diagnostic about [d] goes to. *)
Definition declarationUri (rootFilename : string) (d : Declaration) : string :=
  Uri_file
    (JsString.or_else (Hpp.filename (Hpp.fileLocation (snd d))) rootFilename).

(** The diagnostics of an URI in a batch; none when the URI is not a key. *)
Definition diagnosticsFor (batch : JsObject.t (list Lsp.Diagnostic))
  (uri : string) : list Lsp.Diagnostic :=
  match JsObject.get batch uri with
  | Some ds => ds
  | None => []
  end.

(** [x] is the last element of [xs] whose key is [k]. *)
Definition lastWith {A : Type} (key : A -> string) (k : string) (xs : list A)
  (x : A) : Prop :=
  exists before after,
    xs = (before ++ x :: after)%list /\ key x = k /\ ~ In k (map key after).

(** What [processCfgFunctions] emits for a registry: the log lines of the
    loops, the total and one batch for each URI that has diagnostics. *)
Definition scanEvents (cfgFunctions : Hpp.Class) (rootFilename : string)
  : list Event :=
  let l := scanCfgFunctions cfgFunctions rootFilename in
  (logged l
   ++ [LoggerDebug ("Detected a total of " ++ JsString.of_nat (functionsCount l)
                    ++ " in " ++ rootFilename)]
   ++ map (fun entry =>
             SendDiagnostics {| Lsp.uri := fst entry;
                                Lsp.diagnostics := snd entry |})
        (diags l))%list.

(** What [process] emits for a parsed file, and what leaves it as an
    exception. *)
Definition processEvents (context : Hpp.ClassBody) (filename : string)
  : list Event :=
  match JsObject.get (Hpp.classes context) "cfgfunctions" with
  | Some cfgFunctions =>
      LoggerDebug ("Scanning functions for: " ++ filename)
      :: scanEvents cfgFunctions filename
  | None => []
  end.

Definition processThrown (context : Hpp.ClassBody) (filename : string)
  : option string :=
  match JsObject.get (Hpp.classes context) "cfgfunctions" with
  | Some cfgFunctions =>
      snd (loadEach (fns (scanCfgFunctions cfgFunctions filename)))
  | None => None
  end.

(** What the callback of [parseFile] emits for a file. *)
Definition passEvents (filename : string) : list Event :=
  (LoggerDebug ("Proccessing: " ++ filename)
   :: map hookEvent (fst (Hpp_parse filename))
   ++ match snd (Hpp_parse filename) with
      | Hpp.Parsed context =>
          processEvents context filename
          ++ match processThrown context filename with
             | None =>
                 [LoggerDebug ("Proccessed: " ++ filename);
                  SendDiagnostics {| Lsp.uri := Uri_file filename;
                                     Lsp.diagnostics := [] |}]
             | Some error => [ConsoleError error]
             end
      | Hpp.ThrowsParseError error => [parseErrorEvent error]
      | Hpp.ThrowsOther error => [ConsoleError error]
      end
   ++ [Resolve (ParseFilePromise filename)])%list.

(** The record of the first root, in the order of [for ... in], whose table
    has [key] as a property of its own. *)
Fixpoint firstOwn (tables : JsObject.t (JsObject.t Function)) (key : string)
  : option Function :=
  match tables with
  | [] => None
  | (_, table) :: rest =>
      match JsObject.get table key with
      | Some item => Some item
      | None => firstOwn rest key
      end
  end.

(** The keys of every table are the lower-cased names of their records. *)
Definition keys_lowercased (st : State) : Prop :=
  forall root table key fnc,
    In (root, table) (functions st) -> In (key, fnc) table ->
    key = JsString.toLowerCase (name fnc).

(** The prefixes in the order of [for ... in]; none when the setting is unset. *)
Definition configuredPrefixes : JsObject.t string :=
  match includePrefixes settings with
  | Some prefixes => prefixes
  | None => []
  end.

(** [l] occurs in [s]. *)
Definition occurs (l s : JsText.t) : Prop := exists a b, s = (a ++ l ++ b)%list.

(** The file starts with a block comment, white space apart: the reading of
    the specification. *)
Definition leading_block_comment (contents : JsText.t) : Prop :=
  exists ws body rest,
    contents
    = (ws ++ CommentRegex.opener ++ body ++ CommentRegex.closer ++ rest)%list
    /\ (forall c, In c ws -> CommentRegex.is_space c = true).

(** The text has neither U+2028 nor U+2029 in it. *)
Definition unbroken (s : JsText.t) : Prop :=
  forall u, In u s -> u <> 8232%N /\ u <> 8233%N.

(** [c] with its [tag] variable set to [v]. *)
Definition with_tag (c : Hpp.Class) (v : string) : Hpp.Class :=
  {| Hpp.name := Hpp.name c;
     Hpp.body :=
       {| Hpp.classes := Hpp.classes (Hpp.body c);
          Hpp.variables := JsObject.set (Hpp.variables (Hpp.body c)) "tag" v |};
     Hpp.fileLocation := Hpp.fileLocation c |}.

(** The declared functions whose resolved file is not on the disk. *)
Definition missingDeclarations (cfgFunctions : Hpp.Class)
  (rootFilename : string) : list Declaration :=
  filter (fun d => negb (fs_existsSync (resolvedFile rootFilename d)))
    (declarations cfgFunctions).

(** The reading of the comment expression that the statements use: the text
    after the first opener, the text before the last closer, a text without
    its leading white space, and the text up to the first unit that the group
    cannot hold. *)
Fixpoint afterFirstOpen (s : JsText.t) : option JsText.t :=
  if JsText.startsWith s CommentRegex.opener then Some (JsText.slice s 2)
  else match s with
       | [] => None
       | _ :: s' => afterFirstOpen s'
       end.

Fixpoint beforeLastClose (s : JsText.t) : option JsText.t :=
  match s with
  | [] => None
  | c :: s' =>
      match beforeLastClose s' with
      | Some body => Some (c :: body)
      | None => if JsText.startsWith s CommentRegex.closer then Some [] else None
      end
  end.

Fixpoint skipSpaces (s : JsText.t) : JsText.t :=
  match s with
  | [] => []
  | c :: s' => if CommentRegex.is_space c then skipSpaces s' else s
  end.

Fixpoint line (s : JsText.t) : JsText.t :=
  match s with
  | [] => []
  | c :: s' => if CommentRegex.any_char c then c :: line s' else []
  end.

(** The record that the loop of [tryToLoadDocs] leaves for [fnc] when it
    gets past it. *)
Definition docsOf (fnc : Function) : Function :=
  match loadDocs fnc with
  | Returns loaded => loaded
  | Throws _ => fnc
  end.

(** From the first opener to the last closer. *)
Definition commentSpan (s : JsText.t) : option JsText.t :=
  match afterFirstOpen s with
  | Some rest => beforeLastClose rest
  | None => None
  end.

(** From the first opener that has a closer before the next U+2028 or U+2029
    to the last such closer. *)
Fixpoint commentBetween (s : JsText.t) : option JsText.t :=
  match s with
  | [] => None
  | _ :: rest =>
      if JsText.startsWith s CommentRegex.opener then
        match beforeLastClose (line (JsText.slice s 2)) with
        | Some body => Some body
        | None => commentBetween rest
        end
      else commentBetween rest
  end.

(** *** [loadDocumentation], lines 64-75

    The callback that [loadDocumentation] gives to [fs.readFile].  [read] is
    the [properties] array of the parsed file; [None] stands for a read error
    or for text that [JSON.parse] refuses, on which the callback throws.  The
    names of the file are the identifiers of description.ext; a property
    called [__proto__], in any casing, would be no property of the table but
    its prototype, and the statements about the table leave it out. *)

Definition set_documentation (docs : JsObject.t Documentation) (st : State)
  : State :=
  {| functions := functions st; documentation := docs; files := files st;
     trace := trace st; pending := pending st |}.

Definition loadDocumentationCallback (read : option (list Documentation))
  (st : State) : option State :=
  match read with
  | None => None
  | Some items =>
      Some (set_documentation
              (fold_left
                 (fun docs item =>
                    JsObject.set docs (JsString.toLowerCase (doc_name item)) item)
                 items (documentation st))
              st)
  end.

(** ** More vocabulary *)

(** [l] stands somewhere in [s]. *)
Fixpoint hasInfix (l s : string) : bool :=
  JsString.startsWith s l
  || match s with
     | EmptyString => false
     | String _ s' => hasInfix l s'
     end.

(** The completion item of a property of description.ext, lines 174-181. *)
Definition propertyItem (ident : string) (value : Documentation)
  : Lsp.CompletionItem :=
  {| Lsp.label := doc_name value; Lsp.data := ident;
     Lsp.filterText := replacementOf value;
     Lsp.insertText := replacementOf value;
     Lsp.kind := Lsp.CompletionItemKind.Property;
     Lsp.documentation := Some (doc_description value) |}.

(** The files that [indexWorkspace] takes from the settings. *)
Definition configuredFiles (root : string) : list string :=
  map (fun file => if path_isAbsolute file then file else path_join root file)
    (descriptionFiles settings).

(** Some properties of description.ext and a workspace searched with [glob],
    for the examples. *)
Definition sampleProperties : list Documentation :=
  [ {| doc_name := "author"; doc_type := "String";
       doc_description := "Mission author"; doc_link := "https://wiki/author" |};
    {| doc_name := "respawnTemplates"; doc_type := "Array of strings";
       doc_description := "Respawn templates"; doc_link := "https://wiki/rt" |};
    {| doc_name := "CfgFunctions"; doc_type := "CLASS";
       doc_description := "Function library"; doc_link := "https://wiki/cfg" |};
    {| doc_name := "respawn"; doc_type := "Number";
       doc_description := "Respawn type"; doc_link := "https://wiki/respawn" |};
    {| doc_name := "Author"; doc_type := "string";
       doc_description := "Author, again"; doc_link := "https://wiki/Author" |} ].

Definition sampleDiscovery : Settings :=
  {| includePrefixes := None; descriptionFiles := ["extra/description.ext"];
     discoverDescriptionFiles := true; exclude := ["ignored/**"] |}.

Definition sampleGlob (root : string) (ignore : list string)
  : option string * list string :=
  (Some "EACCES", ["description.ext"; "missions/a/description.ext"]).


(* ------------------------------------------------------------------ *)
(** * Properties

    The section stays open: the statements below hold for every platform,
    disk, parser and configuration. *)

Set Default Proof Using "Type".

(** ** Strings *)

Lemma append_assoc (a b c : string) : (a ++ b) ++ c = a ++ (b ++ c).
Proof. induction a as [|x a IH]; simpl; [reflexivity | now rewrite IH]. Qed.

Lemma append_empty_r (a : string) : a ++ "" = a.
Proof. induction a as [|x a IH]; simpl; [reflexivity | now rewrite IH]. Qed.

Lemma length_append (a b : string) :
  String.length (a ++ b) = String.length a + String.length b.
Proof. induction a as [|x a IH]; simpl; [reflexivity | now rewrite IH]. Qed.

Lemma lower_unit_idempotent (c : ascii) :
  JsString.lower_unit (JsString.lower_unit c) = JsString.lower_unit c.
Proof. destruct c as [[] [] [] [] [] [] [] []]; reflexivity. Qed.

Lemma toLowerCase_idempotent (s : string) :
  JsString.toLowerCase (JsString.toLowerCase s) = JsString.toLowerCase s.
Proof.
  induction s as [|c s IH]; simpl; [reflexivity|].
  now rewrite lower_unit_idempotent, IH.
Qed.

Lemma startsWith_append (p r : string) : JsString.startsWith (p ++ r) p = true.
Proof.
  induction p as [|c p IH]; simpl; [reflexivity|].
  now rewrite Ascii.eqb_refl, IH.
Qed.

Lemma startsWith_inv (s p : string) :
  JsString.startsWith s p = true -> exists r, s = p ++ r.
Proof.
  revert s; induction p as [|b p IH]; intros s H; simpl in *.
  - now exists s.
  - destruct s as [|a s]; [discriminate|].
    apply andb_true_iff in H as [Hab Hs].
    apply Ascii.eqb_eq in Hab; subst b.
    destruct (IH _ Hs) as [r ->]. now exists r.
Qed.

Lemma startsWith_iff (s p : string) :
  JsString.startsWith s p = true <-> exists r, s = p ++ r.
Proof.
  split; [apply startsWith_inv|]. intros [r ->]. apply startsWith_append.
Qed.

Lemma slice_append (p r : string) : JsString.slice (p ++ r) (String.length p) = r.
Proof. induction p as [|c p IH]; simpl; [reflexivity | exact IH]. Qed.

Lemma substr0_append (p r : string) :
  JsString.substr0 (p ++ r) (String.length p) = p.
Proof. induction p as [|c p IH]; simpl; [reflexivity | now rewrite IH]. Qed.

Lemma substr0_slice (s : string) (n : nat) :
  JsString.substr0 s n ++ JsString.slice s n = s.
Proof.
  revert s; induction n as [|n IH]; intros s; simpl; [reflexivity|].
  destruct s as [|a s]; simpl; [reflexivity | now rewrite IH].
Qed.

(** The test of [onCompletion] is [startsWith]. *)
Lemma identMatches_startsWith (ident name : string) :
  identMatches ident name = JsString.startsWith ident name.
Proof.
  unfold identMatches.
  destruct (JsString.startsWith ident name) eqn:E.
  - apply startsWith_inv in E as [r ->].
    rewrite length_append, substr0_append, String.eqb_refl.
    replace (String.length name <=? String.length name + String.length r)%nat
      with true; [reflexivity|].
    symmetry; apply Nat.leb_le; lia.
  - apply andb_false_iff.
    destruct (String.eqb (JsString.substr0 ident (String.length name)) name) eqn:E';
      [|now right].
    apply String.eqb_eq in E'.
    assert (JsString.startsWith ident name = true) as H; [|congruence].
    apply startsWith_iff. exists (JsString.slice ident (String.length name)).
    transitivity (JsString.substr0 ident (String.length name)
                  ++ JsString.slice ident (String.length name));
      [symmetry; apply substr0_slice | now rewrite E'].
Qed.

(** ** Objects *)

Lemma get_set_same {V : Type} (o : JsObject.t V) (k : string) (v : V) :
  JsObject.get (JsObject.set o k v) k = Some v.
Proof.
  induction o as [|[k' v'] o IH]; simpl.
  - now rewrite String.eqb_refl.
  - destruct (String.eqb k' k) eqn:E; simpl; rewrite E; [reflexivity | exact IH].
Qed.

Lemma get_set_other {V : Type} (o : JsObject.t V) (k k' : string) (v : V) :
  k <> k' -> JsObject.get (JsObject.set o k v) k' = JsObject.get o k'.
Proof.
  intros Hne. induction o as [|[k0 v0] o IH]; simpl.
  - destruct (String.eqb_spec k k'); [contradiction | reflexivity].
  - destruct (String.eqb_spec k0 k); simpl.
    + subst k0. destruct (String.eqb_spec k k'); [contradiction | reflexivity].
    + destruct (String.eqb_spec k0 k'); [reflexivity | exact IH].
Qed.

Lemma set_set {V : Type} (o : JsObject.t V) (k : string) (v w : V) :
  JsObject.set (JsObject.set o k v) k w = JsObject.set o k w.
Proof.
  induction o as [|[k' v'] o IH]; simpl.
  - now rewrite String.eqb_refl.
  - destruct (String.eqb k' k) eqn:E; simpl; rewrite E; [reflexivity|].
    now rewrite IH.
Qed.

Lemma get_In {V : Type} (o : JsObject.t V) (k : string) (v : V) :
  JsObject.get o k = Some v -> In (k, v) o.
Proof.
  induction o as [|[k' v'] o IH]; simpl; [discriminate|].
  destruct (String.eqb_spec k' k); intros H.
  - injection H as ->. subst. now left.
  - right. now apply IH.
Qed.


(** Every property of [set o k v] is a property of [o], or the new one. *)
Lemma In_set {V : Type} (o : JsObject.t V) (k : string) (v : V) (e : string * V) :
  In e (JsObject.set o k v) -> In e o \/ e = (k, v).
Proof.
  induction o as [|[k' v'] o IH]; simpl.
  - intros [<- | []]. now right.
  - destruct (String.eqb_spec k' k); simpl.
    + subst k'. intros [<- | H]; [now right | left; now right].
    + intros [<- | H]; [left; now left|].
      destruct (IH H) as [H' | H']; [left; now right | now right].
Qed.

(** ** Include prefixes (C2) *)

Lemma applyIncludePrefixes_find (root filename : string)
  (prefixes : JsObject.t string) :
  applyIncludePrefixes root prefixes filename =
  match List.find (fun e => JsString.startsWith filename (fst e)) prefixes with
  | Some (prefix, mapped) =>
      (true,
       if path_isAbsolute mapped then
         mapped ++ JsString.slice filename (String.length prefix)
       else
         path_join root (mapped ++ JsString.slice filename (String.length prefix)))
  | None => (false, filename)
  end.
Proof.
  induction prefixes as [|[prefix mapped] rest IH]; simpl; [reflexivity|].
  destruct (JsString.startsWith filename prefix); [reflexivity | exact IH].
Qed.

(** C2.  The first include prefix, in iteration order, that the file name
    starts with decides the resolved name: the prefix is cut off and the
    mapped value put in front with nothing in between, as it is when the mapped
    value is absolute and joined to the directory of the root file when it is
    not.  When no prefix matches, the file name itself is joined to the
    directory of the root file. *)
Theorem include_prefix_first_match (root filename : string) :
  match List.find (fun e => JsString.startsWith filename (fst e))
          configuredPrefixes with
  | Some (prefix, mapped) =>
      exists rest,
        filename = prefix ++ rest /\
        resolveFilename root filename =
          if path_isAbsolute mapped then mapped ++ rest
          else path_join root (mapped ++ rest)
  | None => resolveFilename root filename = path_join root filename
  end.
Proof.
  unfold resolveFilename, configuredPrefixes.
  destruct (includePrefixes settings) as [prefixes|]; simpl; [|reflexivity].
  rewrite applyIncludePrefixes_find.
  destruct (List.find _ prefixes) as [[prefix mapped]|] eqn:Hfind; simpl;
    [|reflexivity].
  apply find_some in Hfind as [_ Hstart]. simpl in Hstart.
  apply startsWith_inv in Hstart as [rest ->].
  exists rest. now rewrite slice_append.
Qed.


(** ** The loops of [processCfgFunctions] as one pass over the declarations *)

Lemma fold_left_proj {A B C : Type} (f : A -> B -> A) (g : C -> B -> C)
  (p : A -> C) :
  (forall a b, p (f a b) = g (p a) b) ->
  forall l a, p (fold_left f l a) = fold_left g l (p a).
Proof.
  intros H l. induction l as [|b l IH]; intros a; simpl; [reflexivity|].
  now rewrite IH, H.
Qed.

Lemma fold_left_over_map {A B C : Type} (g : A -> C -> A) (h : B -> C)
  (l : list B) (a : A) :
  fold_left g (map h l) a = fold_left (fun a x => g a (h x)) l a.
Proof. revert a. induction l as [|b l IH]; intros a; simpl; [reflexivity | apply IH]. Qed.

Lemma fold_left_over_flat_map {A B C : Type} (g : A -> C -> A)
  (h : B -> list C) (l : list B) (a : A) :
  fold_left g (flat_map h l) a = fold_left (fun a x => fold_left g (h x) a) l a.
Proof.
  revert a. induction l as [|b l IH]; intros a; simpl; [reflexivity|].
  now rewrite fold_left_app, IH.
Qed.

Section Projection.

Context {X : Type} (P : Loop -> X) (g : X -> Declaration -> X).
Variable rootFilename : string.

Hypothesis P_function :
  forall categoryTag categoryPath functionClass l,
    P (processFunction rootFilename (path_dirname rootFilename) categoryTag
         categoryPath functionClass l)
    = g (P l) (categoryTag, categoryPath, functionClass).

Hypothesis P_logged :
  forall l events,
    P {| fns := fns l; diags := diags l; functionsCount := functionsCount l;
         logged := events |} = P l.

Lemma category_proj (tag : string) (categoryClass : Hpp.Class) (l : Loop) :
  P (processCategory rootFilename (path_dirname rootFilename) tag categoryClass l)
  = fold_left g
      (map (fun functionEntry =>
              (categoryTagOf tag categoryClass, categoryPathOf categoryClass,
               snd functionEntry))
         (Hpp.classes (Hpp.body categoryClass)))
      (P l).
Proof using P_function P_logged.
  unfold processCategory. cbv zeta. rewrite fold_left_over_map.
  rewrite (fold_left_proj _
             (fun x functionEntry =>
                g x (categoryTagOf tag categoryClass,
                     categoryPathOf categoryClass, snd functionEntry)) P).
  - now rewrite P_logged.
  - intros a b. apply P_function.
Qed.

Lemma tag_proj (tagClass : Hpp.Class) (l : Loop) :
  P (processTag rootFilename (path_dirname rootFilename) tagClass l)
  = fold_left g
      (flat_map
         (fun categoryEntry =>
            map (fun functionEntry =>
                   (categoryTagOf (tagOf tagClass) (snd categoryEntry),
                    categoryPathOf (snd categoryEntry), snd functionEntry))
              (Hpp.classes (Hpp.body (snd categoryEntry))))
         (Hpp.classes (Hpp.body tagClass)))
      (P l).
Proof using P_function P_logged.
  unfold processTag. cbv zeta. rewrite fold_left_over_flat_map.
  rewrite (fold_left_proj _
             (fun x categoryEntry =>
                fold_left g
                  (map (fun functionEntry =>
                          (categoryTagOf (tagOf tagClass) (snd categoryEntry),
                           categoryPathOf (snd categoryEntry), snd functionEntry))
                     (Hpp.classes (Hpp.body (snd categoryEntry)))) x) P).
  - now rewrite P_logged.
  - intros a b. apply category_proj.
Qed.

Lemma scan_proj (cfgFunctions : Hpp.Class) :
  P (scanCfgFunctions cfgFunctions rootFilename)
  = fold_left g (declarations cfgFunctions)
      (P {| fns := JsObject.empty; diags := JsObject.empty;
            functionsCount := 0; logged := [] |}).
Proof using P_function P_logged.
  unfold scanCfgFunctions, declarations. cbv zeta.
  rewrite fold_left_over_flat_map.
  rewrite (fold_left_proj _
             (fun x tagEntry =>
                fold_left g
                  (flat_map
                     (fun categoryEntry =>
                        map (fun functionEntry =>
                               (categoryTagOf (tagOf (snd tagEntry))
                                  (snd categoryEntry),
                                categoryPathOf (snd categoryEntry),
                                snd functionEntry))
                          (Hpp.classes (Hpp.body (snd categoryEntry))))
                     (Hpp.classes (Hpp.body (snd tagEntry)))) x) P).
  - reflexivity.
  - intros a b. apply tag_proj.
Qed.

End Projection.

Lemma scan_fns (cfgFunctions : Hpp.Class) (rootFilename : string) :
  fns (scanCfgFunctions cfgFunctions rootFilename)
  = fold_left
      (fun table d =>
         JsObject.set table (JsString.toLowerCase (qualifiedName d))
           (recordOf rootFilename d))
      (declarations cfgFunctions) [].
Proof.
  apply (scan_proj fns
           (fun table d =>
              JsObject.set table (JsString.toLowerCase (qualifiedName d))
                (recordOf rootFilename d))); reflexivity.
Qed.

Lemma scan_diags (cfgFunctions : Hpp.Class) (rootFilename : string) :
  diags (scanCfgFunctions cfgFunctions rootFilename)
  = fold_left
      (fun batch d =>
         if fs_existsSync (resolvedFile rootFilename d) then batch
         else
           pushDiagnostic batch (declarationUri rootFilename d)
             (missingFile (snd d) (resolvedFile rootFilename d) (qualifiedName d)))
      (declarations cfgFunctions) [].
Proof.
  apply (scan_proj diags
           (fun batch d =>
              if fs_existsSync (resolvedFile rootFilename d) then batch
              else
                pushDiagnostic batch (declarationUri rootFilename d)
                  (missingFile (snd d) (resolvedFile rootFilename d)
                     (qualifiedName d)))); [|reflexivity].
  intros categoryTag categoryPath functionClass l.
  unfold processFunction, resolvedFile, qualifiedName, declarationUri. simpl.
  now destruct (fs_existsSync _).
Qed.

Lemma scan_count (cfgFunctions : Hpp.Class) (rootFilename : string) :
  functionsCount (scanCfgFunctions cfgFunctions rootFilename)
  = List.length (declarations cfgFunctions).
Proof.
  rewrite (scan_proj functionsCount (fun n _ => S n)); [|reflexivity..].
  simpl.
  assert (forall (ds : list Declaration) n,
            fold_left (fun n _ => S n) ds n = List.length ds + n) as H.
  { induction ds as [|d ds IH]; intros n; simpl; [reflexivity|].
    rewrite IH. lia. }
  rewrite H. lia.
Qed.

(** ** What [tryToLoadDocs] does to a table *)

Lemma loadDocs_name (fnc loaded : Function) :
  loadDocs fnc = Returns loaded ->
  name loaded = name fnc /\ filename loaded = filename fnc.
Proof.
  unfold loadDocs. destruct (fs_existsSync _); [|intros [= <-]; now split].
  destruct (fs_readFileSync _) as [contents|error]; [|discriminate].
  destruct (CommentRegex.exec _); [|intros [= <-]; now split].
  destruct (Docstring_parse _); [|discriminate].
  intros [= <-]. now split.
Qed.

Lemma docsOf_name (fnc : Function) :
  name (docsOf fnc) = name fnc /\ filename (docsOf fnc) = filename fnc.
Proof.
  unfold docsOf. destruct (loadDocs fnc) eqn:E; [|now split].
  now apply loadDocs_name.
Qed.

(** The loop stops at the first record that throws: the records before it
    are loaded, it and the records after it are as they were. *)
Lemma loadEach_split (table : JsObject.t Function) :
  exists done rest,
    table = (done ++ rest)%list
    /\ fst (loadEach table)
       = (map (fun entry => (fst entry, docsOf (snd entry))) done ++ rest)%list
    /\ (forall key fnc, In (key, fnc) done -> exists loaded, loadDocs fnc = Returns loaded)
    /\ match snd (loadEach table) with
       | None => rest = []
       | Some error =>
           exists key fnc rest',
             rest = (key, fnc) :: rest' /\ loadDocs fnc = Throws error
       end.
Proof.
  induction table as [|[key fnc] table IH].
  - exists [], []. cbn. repeat split; intros ? ? [].
  - cbn [loadEach]. destruct (loadDocs fnc) as [loaded|error] eqn:E.
    + destruct IH as (done & rest & Htable & Hfst & Hdone & Hsnd).
      destruct (loadEach table) as [rest0 thrown]. cbn [fst snd] in *.
      exists ((key, fnc) :: done), rest. split; [now rewrite Htable|].
      split; [|split].
      * cbn [map app fst snd]. unfold docsOf at 1. now rewrite E, Hfst.
      * intros k f [[= <- <-] | Hin]; [now exists loaded | now apply (Hdone k)].
      * exact Hsnd.
    + exists [], ((key, fnc) :: table). cbn [fst snd app map].
      repeat split; [intros ? ? []|]. now exists key, fnc, table.
Qed.

Lemma loadEach_complete (table : JsObject.t Function) :
  snd (loadEach table) = None ->
  fst (loadEach table) = map (fun entry => (fst entry, docsOf (snd entry))) table.
Proof.
  intros Hnone. destruct (loadEach_split table) as (done & rest & -> & -> & _ & H).
  rewrite Hnone in H. subst rest. now rewrite !app_nil_r.
Qed.

Lemma loadEach_keys (table : JsObject.t Function) :
  JsObject.keys (fst (loadEach table)) = JsObject.keys table.
Proof.
  destruct (loadEach_split table) as (done & rest & -> & -> & _).
  unfold JsObject.keys. rewrite !map_app, map_map. reflexivity.
Qed.

Lemma loadEach_length (table : JsObject.t Function) :
  List.length (fst (loadEach table)) = List.length table.
Proof.
  destruct (loadEach_split table) as (done & rest & -> & -> & _).
  now rewrite !length_app, length_map.
Qed.

(** Every record of the table that the loop leaves is a record of the table
    that it was given, as it was or with its docstring loaded. *)
Lemma loadEach_In (table : JsObject.t Function) (key : string) (fnc' : Function) :
  In (key, fnc') (fst (loadEach table)) ->
  exists fnc,
    In (key, fnc) table /\ (fnc' = fnc \/ loadDocs fnc = Returns fnc').
Proof.
  destruct (loadEach_split table) as (done & rest & -> & -> & Hdone & _).
  intros Hin. apply in_app_or in Hin as [Hin | Hin].
  - apply in_map_iff in Hin as [[k f] [[= <- <-] Hin]]. exists f.
    split; [apply in_or_app; now left|].
    destruct (Hdone _ _ Hin) as [loaded Hloaded]. right.
    unfold docsOf. now rewrite Hloaded.
  - exists fnc'. split; [apply in_or_app; now right | now left].
Qed.

Lemma loadEach_In_name (table : JsObject.t Function) (key : string)
  (fnc' : Function) :
  In (key, fnc') (fst (loadEach table)) ->
  exists fnc,
    In (key, fnc) table /\ name fnc' = name fnc /\ filename fnc' = filename fnc.
Proof.
  intros Hin. apply loadEach_In in Hin as (fnc & Hin & [-> | Hloaded]).
  - now exists fnc.
  - exists fnc. split; [exact Hin|]. now apply loadDocs_name.
Qed.

(** ** What each operation does to [this.functions] *)

Lemma tryToLoadDocs_trace (descriptionFile : string) (st : State) :
  trace (fst (tryToLoadDocs descriptionFile st)) = trace st.
Proof.
  unfold tryToLoadDocs. destruct (JsObject.get _ _) as [table|]; [|reflexivity].
  now destruct (loadEach table).
Qed.

Lemma tryToLoadDocs_pending (descriptionFile : string) (st : State) :
  pending (fst (tryToLoadDocs descriptionFile st)) = pending st
  /\ files (fst (tryToLoadDocs descriptionFile st)) = files st
  /\ documentation (fst (tryToLoadDocs descriptionFile st)) = documentation st.
Proof.
  unfold tryToLoadDocs. destruct (JsObject.get _ _) as [table|]; [|now repeat split].
  now destruct (loadEach table).
Qed.

Lemma processCfgFunctions_functions (cfgFunctions : Hpp.Class)
  (rootFilename : string) (st : State) :
  functions (fst (processCfgFunctions cfgFunctions rootFilename st))
  = JsObject.set (functions st) rootFilename
      (fst (loadEach (fns (scanCfgFunctions cfgFunctions rootFilename)))).
Proof.
  unfold processCfgFunctions, tryToLoadDocs. cbv zeta.
  cbn [functions set_functions emit].
  rewrite set_set, get_set_same.
  destruct (loadEach _) as [table thrown]. cbn [fst functions set_functions].
  now rewrite set_set.
Qed.

Lemma processCfgFunctions_thrown (cfgFunctions : Hpp.Class)
  (rootFilename : string) (st : State) :
  snd (processCfgFunctions cfgFunctions rootFilename st)
  = snd (loadEach (fns (scanCfgFunctions cfgFunctions rootFilename))).
Proof.
  unfold processCfgFunctions, tryToLoadDocs. cbv zeta.
  cbn [functions set_functions emit].
  rewrite set_set, get_set_same.
  now destruct (loadEach _) as [table thrown].
Qed.

Lemma process_functions (context : Hpp.ClassBody) (filename : string)
  (st : State) :
  functions (fst (process context filename st))
  = match JsObject.get (Hpp.classes context) "cfgfunctions" with
    | Some cfgFunctions =>
        JsObject.set (functions st) filename
          (fst (loadEach (fns (scanCfgFunctions cfgFunctions filename))))
    | None => functions st
    end.
Proof.
  unfold process. destruct (JsObject.get _ _); [|reflexivity].
  now rewrite processCfgFunctions_functions.
Qed.

Lemma get_app {V : Type} (a b : JsObject.t V) (k : string) :
  JsObject.get (a ++ b)%list k
  = match JsObject.get a k with
    | Some v => Some v
    | None => JsObject.get b k
    end.
Proof.
  induction a as [|[k' v'] a IH]; [reflexivity|].
  cbn [app JsObject.get]. now destruct (String.eqb k' k).
Qed.

Lemma get_map_snd {V W : Type} (F : V -> W) (o : JsObject.t V) (k : string) :
  JsObject.get (map (fun entry => (fst entry, F (snd entry))) o) k
  = option_map F (JsObject.get o k).
Proof.
  induction o as [|[k' v'] o IH]; simpl; [reflexivity|].
  now destruct (String.eqb k' k).
Qed.

(** What the loop leaves under a key: the record that was there, loaded when
    the loop got that far. *)
Lemma loadEach_get (table : JsObject.t Function) (key : string) (fnc : Function) :
  JsObject.get table key = Some fnc ->
  exists record,
    JsObject.get (fst (loadEach table)) key = Some record
    /\ (record = fnc \/ loadDocs fnc = Returns record)
    /\ (snd (loadEach table) = None -> loadDocs fnc = Returns record).
Proof.
  destruct (loadEach_split table) as (done & rest & -> & -> & Hdone & Hsnd).
  rewrite !get_app, get_map_snd.
  destruct (JsObject.get done key) as [found|] eqn:E; cbn [option_map].
  - intros [= ->]. apply get_In in E. destruct (Hdone _ _ E) as [loaded Hloaded].
    exists (docsOf fnc). unfold docsOf. rewrite Hloaded.
    split; [reflexivity|]. split; [now right | reflexivity].
  - intros Hrest. exists fnc. split; [exact Hrest|]. split; [now left|].
    intros Hnone. rewrite Hnone in Hsnd. subst rest. discriminate.
Qed.

Lemma loadEach_get_none (table : JsObject.t Function) (key : string) :
  JsObject.get table key = None ->
  JsObject.get (fst (loadEach table)) key = None.
Proof.
  destruct (loadEach_split table) as (done & rest & -> & -> & _).
  rewrite !get_app, get_map_snd.
  now destruct (JsObject.get done key).
Qed.

Lemma processCfgFunctions_trace (cfgFunctions : Hpp.Class)
  (rootFilename : string) (st : State) :
  trace (fst (processCfgFunctions cfgFunctions rootFilename st))
  = (trace st ++ scanEvents cfgFunctions rootFilename)%list.
Proof.
  unfold processCfgFunctions. cbv zeta. rewrite tryToLoadDocs_trace.
  unfold scanEvents, emit. cbn [trace]. now rewrite <- !app_assoc.
Qed.

Lemma processCfgFunctions_pending (cfgFunctions : Hpp.Class)
  (rootFilename : string) (st : State) :
  pending (fst (processCfgFunctions cfgFunctions rootFilename st)) = pending st
  /\ files (fst (processCfgFunctions cfgFunctions rootFilename st)) = files st
  /\ documentation (fst (processCfgFunctions cfgFunctions rootFilename st))
     = documentation st.
Proof.
  unfold processCfgFunctions. cbv zeta.
  match goal with
  | |- context [tryToLoadDocs ?r ?s] =>
      destruct (tryToLoadDocs_pending r s) as (Hp & Hf & Hd)
  end.
  rewrite Hp, Hf, Hd. now repeat split.
Qed.

Lemma process_trace (context : Hpp.ClassBody) (filename : string) (st : State) :
  trace (fst (process context filename st))
  = (trace st ++ processEvents context filename)%list.
Proof.
  unfold process, processEvents.
  destruct (JsObject.get _ _) as [cfgFunctions|];
    [|cbn [fst]; now rewrite app_nil_r].
  rewrite processCfgFunctions_trace. unfold emit. cbn [trace].
  now rewrite <- app_assoc.
Qed.

Lemma process_thrown (context : Hpp.ClassBody) (filename : string) (st : State) :
  snd (process context filename st) = processThrown context filename.
Proof.
  unfold process, processThrown.
  destruct (JsObject.get _ _) as [cfgFunctions|]; [|reflexivity].
  apply processCfgFunctions_thrown.
Qed.

Lemma process_pending (context : Hpp.ClassBody) (filename : string) (st : State) :
  pending (fst (process context filename st)) = pending st
  /\ files (fst (process context filename st)) = files st
  /\ documentation (fst (process context filename st)) = documentation st.
Proof.
  unfold process. destruct (JsObject.get _ _) as [cfgFunctions|];
    [|now repeat split].
  destruct (processCfgFunctions_pending cfgFunctions filename
              (emit [LoggerDebug ("Scanning functions for: " ++ filename)] st))
    as (Hp & Hf & Hd).
  rewrite Hp, Hf, Hd. now repeat split.
Qed.

(** The callback of [parseFile], field by field. *)
Lemma parseFileCallback_spec (filename : string) (st : State) :
  parseFileCallback filename st
  = {| functions :=
         match snd (Hpp_parse filename) with
         | Hpp.Parsed context =>
             match JsObject.get (Hpp.classes context) "cfgfunctions" with
             | Some cfgFunctions =>
                 JsObject.set (functions st) filename
                   (fst (loadEach (fns (scanCfgFunctions cfgFunctions filename))))
             | None => functions st
             end
         | _ => functions st
         end;
       documentation := documentation st;
       files := files st;
       trace := (trace st ++ passEvents filename)%list;
       pending := pending st |}.
Proof.
  unfold parseFileCallback, passEvents. cbv zeta.
  destruct (Hpp_parse filename) as [calls [context|error|error]]; cbn [fst snd].
  - set (st0 := emit (map hookEvent calls)
                  (emit [LoggerDebug ("Proccessing: " ++ filename)] st)).
    pose proof (process_functions context filename st0) as Hfunctions.
    pose proof (process_trace context filename st0) as Htrace.
    pose proof (process_thrown context filename st0) as Hthrown.
    destruct (process_pending context filename st0) as (Hpending & Hfiles & Hdocs).
    destruct (process context filename st0) as [st1 thrown].
    cbn [fst snd] in *. rewrite <- Hthrown. clear Hthrown.
    destruct st1 as [f1 d1 fi1 t1 p1]. cbn [functions documentation files trace pending] in *.
    subst. unfold st0, emit. cbn [functions documentation files trace pending].
    destruct thrown as [error|]; unfold emit;
      cbn [functions documentation files trace pending];
      f_equal; rewrite <- ?app_assoc; cbn [app]; rewrite <- ?app_assoc;
      reflexivity.
  - unfold emit. cbn [functions documentation files trace pending].
    f_equal. rewrite <- !app_assoc. reflexivity.
  - unfold emit. cbn [functions documentation files trace pending].
    f_equal. rewrite <- !app_assoc. reflexivity.
Qed.

Lemma parseFileCallback_functions (filename : string) (st : State) :
  functions (parseFileCallback filename st)
  = match snd (Hpp_parse filename) with
    | Hpp.Parsed context => functions (fst (process context filename st))
    | _ => functions st
    end.
Proof.
  rewrite parseFileCallback_spec. cbn [functions].
  destruct (snd (Hpp_parse filename)); try reflexivity.
  now rewrite process_functions.
Qed.

Lemma parseFileCallback_trace (filename : string) (st : State) :
  trace (parseFileCallback filename st) = (trace st ++ passEvents filename)%list.
Proof. now rewrite parseFileCallback_spec. Qed.

Lemma parse_functions (file : string) (st : State) :
  functions (parse file st) = functions st.
Proof. unfold parse, parseFile. now destruct (fs_existsSync file). Qed.

Lemma parseEach_functions (items : list string) (st : State) :
  functions (parseEach items st) = functions st.
Proof.
  unfold parseEach. revert st.
  induction items as [|item items IH]; intros st; simpl; [reflexivity|].
  rewrite IH. simpl. now rewrite parse_functions.
Qed.

Lemma globCallback_functions (root : string) (files : list string) (st : State) :
  functions (globCallback root files st) = functions st.
Proof.
  unfold globCallback. destruct (glob root (exclude settings)) as [err discovered].
  simpl. rewrite parseEach_functions. simpl. now destruct err.
Qed.

Lemma indexWorkspace_functions (root : string) (st : State) :
  functions (indexWorkspace root st) = functions st.
Proof.
  unfold indexWorkspace. cbv zeta.
  destruct (discoverDescriptionFiles settings); [reflexivity|].
  simpl. now rewrite parseEach_functions.
Qed.

Lemma parseDocumentTask_functions (fsPath : string) (st : State) :
  functions (parseDocumentTask fsPath st) = functions st.
Proof.
  unfold parseDocumentTask.
  destruct (String.eqb (path_basename fsPath) "description.ext"); [reflexivity|].
  destruct (String.eqb (path_extname fsPath) ".hpp"); [|reflexivity].
  generalize (files st). intros items. revert st.
  induction items as [|item items IH]; intros st; simpl; [reflexivity|].
  rewrite IH. apply parse_functions.
Qed.

(** ** The keys of the tables (C4) *)

Lemma fold_set_keys (rootFilename : string) (ds : list Declaration)
  (table : JsObject.t Function) :
  (forall key fnc, In (key, fnc) table -> key = JsString.toLowerCase (name fnc)) ->
  forall key fnc,
    In (key, fnc)
      (fold_left
         (fun table d =>
            JsObject.set table (JsString.toLowerCase (qualifiedName d))
              (recordOf rootFilename d)) ds table) ->
    key = JsString.toLowerCase (name fnc).
Proof.
  revert table. induction ds as [|d ds IH]; intros table Htable key fnc;
    simpl; [apply Htable|].
  apply IH. intros k f Hin.
  apply In_set in Hin as [Hin | Heq]; [now apply Htable|].
  injection Heq as -> ->. reflexivity.
Qed.

Lemma scanned_table_keys (cfgFunctions : Hpp.Class) (rootFilename : string)
  (key : string) (fnc : Function) :
  In (key, fnc)
    (fst (loadEach (fns (scanCfgFunctions cfgFunctions rootFilename)))) ->
  key = JsString.toLowerCase (name fnc).
Proof.
  intros Hin. apply loadEach_In_name in Hin as (f & Hin & -> & _).
  rewrite scan_fns in Hin.
  eapply fold_set_keys; [|exact Hin]. intros ? ? [].
Qed.

Lemma keys_lowercased_set (st : State) (rootFilename : string)
  (table : JsObject.t Function) (fs : JsObject.t (JsObject.t Function)) :
  keys_lowercased st ->
  (forall key fnc, In (key, fnc) table -> key = JsString.toLowerCase (name fnc)) ->
  forall root t key fnc,
    In (root, t) (JsObject.set (functions st) rootFilename table) ->
    In (key, fnc) t -> key = JsString.toLowerCase (name fnc).
Proof.
  intros Hst Htable root t key fnc Hin Hk.
  apply In_set in Hin as [Hin | Heq].
  - exact (Hst _ _ _ _ Hin Hk).
  - injection Heq as -> ->. now apply Htable.
Qed.

Lemma keys_lowercased_same (st st' : State) :
  functions st' = functions st -> keys_lowercased st -> keys_lowercased st'.
Proof. unfold keys_lowercased. intros ->. auto. Qed.

Lemma keys_lowercased_run_task (t : Task) (st : State) :
  keys_lowercased st -> keys_lowercased (run_task t st).
Proof.
  intros Hst. destruct t as [root files | filename]; simpl.
  - eapply keys_lowercased_same; [apply globCallback_functions | exact Hst].
  - unfold keys_lowercased. rewrite parseFileCallback_functions.
    destruct (snd (Hpp_parse filename)) as [context|error|error]; try exact Hst.
    rewrite process_functions.
    destruct (JsObject.get _ _) as [cfgFunctions|]; [|exact Hst].
    apply keys_lowercased_set with (fs := functions st); [exact Hst|].
    apply scanned_table_keys.
Qed.

Lemma keys_lowercased_act (a : Action) (st : State) :
  keys_lowercased st -> keys_lowercased (act st a).
Proof.
  intros Hst. destruct a as [root | fsPath | | k]; simpl.
  - eapply keys_lowercased_same; [apply indexWorkspace_functions | exact Hst].
  - eapply keys_lowercased_same; [apply parseDocumentTask_functions | exact Hst].
  - unfold turn. destruct (pending st) as [|t rest]; [exact Hst|].
    apply keys_lowercased_run_task. exact Hst.
  - unfold turnOf. destruct (nth_error (pending st) k) as [t|]; [|exact Hst].
    apply keys_lowercased_run_task. exact Hst.
Qed.

Lemma keys_lowercased_after (actions : list Action) (st : State) :
  keys_lowercased st -> keys_lowercased (after actions st).
Proof.
  unfold after. revert st.
  induction actions as [|a actions IH]; intros st Hst; simpl; [exact Hst|].
  apply IH. now apply keys_lowercased_act.
Qed.

(** C4.  Whatever the module is made to do from its initial state - index a
    workspace, reparse a document, run the callbacks that wait - every key of
    every table is the lower-cased [name] of the record stored under it,
    whatever the casing of the classes in the parsed trees.  (Each step keeps
    the property from any state that has it: [keys_lowercased_act].) *)
Theorem function_table_keys_are_lowercased_names
  (docs : JsObject.t Documentation) (actions : list Action) :
  keys_lowercased (after actions (initial docs)).
Proof.
  apply keys_lowercased_after. intros root table key fnc [].
Qed.

(** ** Lookups: [getFunction], [onDefinition] and [onHover] *)

Lemma lookup_own {V : Type} (o : JsObject.t V) (k : string) (v : V) :
  JsObject.get o k = Some v -> JsObject.lookup o k = Some (JsObject.Own v).
Proof. intros H. unfold JsObject.lookup. now rewrite H. Qed.

Lemma lookup_plain {V : Type} (o : JsObject.t V) (k : string) :
  JsObject.inherited k = false ->
  JsObject.lookup o k = option_map JsObject.Own (JsObject.get o k).
Proof.
  intros H. unfold JsObject.lookup. rewrite H. now destruct (JsObject.get o k).
Qed.

Lemma lookup_inherited {V : Type} (o : JsObject.t V) (k : string) :
  JsObject.inherited k = true ->
  JsObject.lookup o k
  = Some (match JsObject.get o k with
          | Some v => JsObject.Own v
          | None => JsObject.Inherited k
          end).
Proof.
  intros H. unfold JsObject.lookup. rewrite H. now destruct (JsObject.get o k).
Qed.

(** For a key that [Object.prototype] does not have, the loop finds what the
    tables themselves hold. *)
Lemma firstDefined_plain (tables : JsObject.t (JsObject.t Function))
  (key : string) :
  JsObject.inherited key = false ->
  firstDefined tables key = option_map JsObject.Own (firstOwn tables key).
Proof.
  intros H. induction tables as [|[root table] rest IH]; [reflexivity|].
  cbn [firstDefined firstOwn]. rewrite lookup_plain by exact H.
  destruct (JsObject.get table key); [reflexivity | exact IH].
Qed.

(** For a key that [Object.prototype] has, the first table answers, whatever
    it holds. *)
Lemma firstDefined_inherited (tables : JsObject.t (JsObject.t Function))
  (key : string) :
  JsObject.inherited key = true ->
  firstDefined tables key
  = match tables with
    | [] => None
    | (_, table) :: _ =>
        Some (match JsObject.get table key with
              | Some item => JsObject.Own item
              | None => JsObject.Inherited key
              end)
    end.
Proof.
  intros H. destruct tables as [|[root table] rest]; [reflexivity|].
  cbn [firstDefined]. now rewrite lookup_inherited by exact H.
Qed.

Lemma firstDefined_Own (tables : JsObject.t (JsObject.t Function))
  (key : string) (item : Function) :
  firstDefined tables key = Some (JsObject.Own item) ->
  exists root table,
    In (root, table) tables /\ JsObject.get table key = Some item.
Proof.
  induction tables as [|[root table] rest IH]; [discriminate|].
  cbn [firstDefined]. unfold JsObject.lookup.
  destruct (JsObject.get table key) as [found|] eqn:E.
  - intros [= <-]. exists root, table. split; [now left | exact E].
  - destruct (JsObject.inherited key); [discriminate|].
    intros H. destruct (IH H) as (r & t & Hin & Hget).
    exists r, t. split; [now right | exact Hget].
Qed.

Lemma firstOwn_In (tables : JsObject.t (JsObject.t Function))
  (key : string) (item : Function) :
  firstOwn tables key = Some item ->
  exists root table,
    In (root, table) tables /\ JsObject.get table key = Some item.
Proof.
  induction tables as [|[root table] rest IH]; simpl; [discriminate|].
  destruct (JsObject.get table key) as [found|] eqn:E.
  - intros H. injection H as <-. exists root, table. split; [now left | exact E].
  - intros H. destruct (IH H) as (r & t & Hin & Hget).
    exists r, t. split; [now right | exact Hget].
Qed.

Lemma firstOwn_first (before rest : JsObject.t (JsObject.t Function))
  (root key : string) (table : JsObject.t Function) (item : Function) :
  Forall (fun e => JsObject.get (snd e) key = None) before ->
  JsObject.get table key = Some item ->
  firstOwn (before ++ (root, table) :: rest)%list key = Some item.
Proof.
  intros Hbefore Hget.
  induction Hbefore as [|[r t] before Hnone _ IH]; simpl.
  - now rewrite Hget.
  - simpl in Hnone. now rewrite Hnone.
Qed.

Lemma firstOwn_none (tables : JsObject.t (JsObject.t Function))
  (key : string) :
  Forall (fun e => JsObject.get (snd e) key = None) tables ->
  firstOwn tables key = None.
Proof.
  intros H. induction H as [|[r t] tables Hnone _ IH]; simpl; [reflexivity|].
  simpl in Hnone. now rewrite Hnone.
Qed.

Lemma onHover_function_document (uri queried : string) (st : State) :
  JsString.toLowerCase (path_extname uri) = ".sqf" ->
  JsString.toLowerCase (path_basename uri) <> "description.ext" ->
  onHover uri queried st
  = match firstDefined (functions st) queried with
    | Some item => Some {| Lsp.contents := hoverOf item |}
    | None => None
    end.
Proof.
  intros Hsqf Hdesc. unfold onHover. rewrite Hsqf. simpl.
  destruct (firstDefined (functions st) queried); [reflexivity|].
  now destruct (String.eqb_spec (JsString.toLowerCase (path_basename uri))
                  "description.ext").
Qed.

(** ** Completion (C8) *)

Lemma completeFunctions_table (queried : string) (table : JsObject.t Function)
  (items : list Lsp.CompletionItem) :
  fold_left
    (fun items entry =>
       if identMatches (fst entry) queried then
         (items ++ [functionItem (fst entry) (snd entry)])%list
       else items) table items
  = (items ++
     map (fun entry => functionItem (fst entry) (snd entry))
       (filter (fun entry => JsString.startsWith (fst entry) queried) table))%list.
Proof.
  revert items. induction table as [|entry table IH]; intros items; simpl.
  - now rewrite app_nil_r.
  - rewrite IH, identMatches_startsWith.
    destruct (JsString.startsWith (fst entry) queried); [|reflexivity].
    simpl. now rewrite <- app_assoc.
Qed.

Lemma completeFunctions_filter (queried : string) (st : State)
  (items : list Lsp.CompletionItem) :
  completeFunctions queried st items
  = (items ++
     map (fun entry => functionItem (fst entry) (snd entry))
       (filter (fun entry => JsString.startsWith (fst entry) queried)
          (flat_map snd (functions st))))%list.
Proof.
  unfold completeFunctions. generalize (functions st) as tables. intros tables.
  revert items. induction tables as [|[root table] tables IH]; intros items;
    simpl.
  - now rewrite app_nil_r.
  - rewrite IH. change (fold_left _ table items)
      with (fold_left
              (fun items entry =>
                 if identMatches (fst entry) queried then
                   (items ++ [functionItem (fst entry) (snd entry)])%list
                 else items) table items).
    rewrite completeFunctions_table, filter_app, map_app.
    now rewrite <- app_assoc.
Qed.

Lemma entries_by_name (queried : string) (entries : JsObject.t Function) :
  (forall key fnc, In (key, fnc) entries -> key = JsString.toLowerCase (name fnc)) ->
  map (fun entry => functionItem (fst entry) (snd entry))
    (filter (fun entry => JsString.startsWith (fst entry) queried) entries)
  = map (fun fnc => functionItem (JsString.toLowerCase (name fnc)) fnc)
      (filter (fun fnc => JsString.startsWith (JsString.toLowerCase (name fnc)) queried)
         (map snd entries)).
Proof.
  induction entries as [|[key fnc] entries IH]; intros Hkeys; [reflexivity|].
  simpl. rewrite (Hkeys key fnc) by now left.
  destruct (JsString.startsWith (JsString.toLowerCase (name fnc)) queried); simpl;
    rewrite IH; try reflexivity; intros k f Hin; apply Hkeys; now right.
Qed.

(** C8, as the code has it.  In a function document the items of
    [onCompletion] are, in iteration order, the records of all roots whose
    lower-cased name - the key they are stored under - starts with the
    prefix as it was typed; each item carries the name as declared and the
    key. *)
Theorem completion_matches_lowercased_names
  (docs : JsObject.t Documentation) (actions : list Action)
  (uri queried : string) :
  JsString.toLowerCase (path_extname uri) = ".sqf" ->
  JsString.toLowerCase (path_basename uri) <> "description.ext" ->
  let st := after actions (initial docs) in
  onCompletion uri queried st
  = map (fun fnc => functionItem (JsString.toLowerCase (name fnc)) fnc)
      (filter
         (fun fnc => JsString.startsWith (JsString.toLowerCase (name fnc)) queried)
         (map snd (flat_map snd (functions st)))).
Proof.
  intros Hsqf Hdesc st. unfold onCompletion. rewrite Hsqf. simpl.
  destruct (String.eqb_spec (JsString.toLowerCase (path_basename uri))
              "description.ext") as [E|_]; [contradiction|].
  rewrite completeFunctions_filter. simpl.
  apply entries_by_name. intros key fnc Hin.
  apply in_flat_map in Hin as [[root table] [Hroot Hin]].
  pose proof (keys_lowercased_after actions (initial docs)) as Hkeys.
  apply (Hkeys (fun _ _ _ _ H => match H with end) root table key fnc Hroot Hin).
Qed.

(** ** Names and default paths (C1) *)

Lemma processFunction_records (rootFilename root categoryTag categoryPath : string)
  (functionClass : Hpp.Class) (l : Loop) :
  JsObject.get
    (fns (processFunction rootFilename root categoryTag categoryPath
            functionClass l))
    (JsString.toLowerCase (categoryTag ++ "_fnc_" ++ Hpp.name functionClass))
  = Some {| name := categoryTag ++ "_fnc_" ++ Hpp.name functionClass;
            filename :=
              resolveFilename root (declaredFilename categoryPath functionClass);
            info := None |}.
Proof. unfold processFunction. simpl. apply get_set_same. Qed.

Lemma or_else_truthy (s d : string) : s <> "" -> JsString.or_else (Some s) d = s.
Proof.
  intros H. unfold JsString.or_else, JsString.truthy.
  now destruct (String.eqb_spec s "").
Qed.

(** A function class found by walking down the tree is one of the
    declarations. *)
Lemma declared_In (cfgFunctions tagClass categoryClass functionClass : Hpp.Class)
  (tagKey categoryKey functionKey : string) :
  In (tagKey, tagClass) (Hpp.classes (Hpp.body cfgFunctions)) ->
  In (categoryKey, categoryClass) (Hpp.classes (Hpp.body tagClass)) ->
  In (functionKey, functionClass) (Hpp.classes (Hpp.body categoryClass)) ->
  In (categoryTagOf (tagOf tagClass) categoryClass,
      categoryPathOf categoryClass, functionClass)
    (declarations cfgFunctions).
Proof.
  intros Htag Hcategory Hfunction. unfold declarations.
  apply in_flat_map. exists (tagKey, tagClass). split; [exact Htag|].
  apply in_flat_map. exists (categoryKey, categoryClass).
  split; [exact Hcategory|].
  apply in_map_iff. now exists (functionKey, functionClass).
Qed.

(** ** Diagnostics for missing files (C3) *)

Lemma pushDiagnostic_get (batch : JsObject.t (list Lsp.Diagnostic))
  (uri uri' : string) (d : Lsp.Diagnostic) :
  JsObject.get (pushDiagnostic batch uri d) uri'
  = if String.eqb uri uri' then Some (diagnosticsFor batch uri ++ [d])%list
    else JsObject.get batch uri'.
Proof.
  unfold pushDiagnostic, diagnosticsFor.
  destruct (JsObject.get batch uri) as [ds|] eqn:E.
  - rewrite E. destruct (String.eqb_spec uri uri') as [<-|Hne].
    + apply get_set_same.
    + now apply get_set_other.
  - rewrite get_set_same, set_set. destruct (String.eqb_spec uri uri') as [<-|Hne].
    + apply get_set_same.
    + now apply get_set_other.
Qed.

Lemma keys_set_In {V : Type} (o : JsObject.t V) (k x : string) (v : V) :
  In x (JsObject.keys (JsObject.set o k v)) -> In x (JsObject.keys o) \/ x = k.
Proof.
  unfold JsObject.keys. intros H. apply in_map_iff in H as [[k' v'] [<- Hin]].
  apply In_set in Hin as [Hin | Heq].
  - left. apply in_map_iff. now exists (k', v').
  - injection Heq as -> _. now right.
Qed.

Lemma keys_set_NoDup {V : Type} (o : JsObject.t V) (k : string) (v : V) :
  NoDup (JsObject.keys o) -> NoDup (JsObject.keys (JsObject.set o k v)).
Proof.
  induction o as [|[k' v'] o IH]; simpl; intros H.
  - constructor; [intros [] | constructor].
  - inversion H as [|? ? Hnotin Hrest]; subst.
    destruct (String.eqb_spec k' k) as [->|Hne]; simpl.
    + now constructor.
    + constructor; [|now apply IH].
      intros Hin. apply keys_set_In in Hin as [Hin | ->]; contradiction.
Qed.

Lemma pushDiagnostic_NoDup (batch : JsObject.t (list Lsp.Diagnostic))
  (uri : string) (d : Lsp.Diagnostic) :
  NoDup (JsObject.keys batch) ->
  NoDup (JsObject.keys (pushDiagnostic batch uri d)).
Proof.
  intros H. unfold pushDiagnostic.
  destruct (JsObject.get batch uri) as [ds|] eqn:E.
  - rewrite E. now apply keys_set_NoDup.
  - rewrite get_set_same. now apply keys_set_NoDup, keys_set_NoDup.
Qed.

Lemma fold_left_invariant {A B : Type} (I : A -> Prop) (f : A -> B -> A) :
  (forall a b, I a -> I (f a b)) ->
  forall l a, I a -> I (fold_left f l a).
Proof.
  intros Hstep l. induction l as [|b l IH]; intros a Ha; simpl; [exact Ha|].
  apply IH, Hstep, Ha.
Qed.

Lemma scan_diags_NoDup (cfgFunctions : Hpp.Class) (rootFilename : string) :
  NoDup (JsObject.keys (diags (scanCfgFunctions cfgFunctions rootFilename))).
Proof.
  rewrite scan_diags.
  apply (fold_left_invariant (fun batch => NoDup (JsObject.keys batch))).
  - intros batch d H. destruct (fs_existsSync _); [exact H|].
    now apply pushDiagnostic_NoDup.
  - constructor.
Qed.

Lemma scan_diags_not_empty (cfgFunctions : Hpp.Class) (rootFilename uri : string)
  (ds : list Lsp.Diagnostic) :
  JsObject.get (diags (scanCfgFunctions cfgFunctions rootFilename)) uri = Some ds ->
  ds <> [].
Proof.
  rewrite scan_diags. revert uri ds.
  apply (fold_left_invariant
           (fun batch => forall uri ds, JsObject.get batch uri = Some ds -> ds <> [])).
  - intros batch d H uri ds. destruct (fs_existsSync _); [apply H|].
    rewrite pushDiagnostic_get.
    destruct (String.eqb _ uri); [|apply H].
    intros Heq. injection Heq as <-. now destruct (diagnosticsFor batch _).
  - discriminate.
Qed.

Lemma fold_diagnosticsFor (rootFilename uri : string) (ds : list Declaration)
  (batch : JsObject.t (list Lsp.Diagnostic)) :
  diagnosticsFor
    (fold_left
       (fun batch d =>
          if fs_existsSync (resolvedFile rootFilename d) then batch
          else
            pushDiagnostic batch (declarationUri rootFilename d)
              (missingFile (snd d) (resolvedFile rootFilename d) (qualifiedName d)))
       ds batch) uri
  = (diagnosticsFor batch uri ++
     map (fun d =>
            missingFile (snd d) (resolvedFile rootFilename d) (qualifiedName d))
       (filter (fun d => String.eqb (declarationUri rootFilename d) uri)
          (filter (fun d => negb (fs_existsSync (resolvedFile rootFilename d)))
             ds)))%list.
Proof.
  revert batch. induction ds as [|d ds IH]; intros batch; simpl.
  - now rewrite app_nil_r.
  - rewrite IH. destruct (fs_existsSync (resolvedFile rootFilename d)); simpl;
      [reflexivity|].
    unfold diagnosticsFor at 1. rewrite pushDiagnostic_get.
    destruct (String.eqb_spec (declarationUri rootFilename d) uri) as [->|_];
      simpl.
    + now rewrite <- app_assoc.
    + reflexivity.
Qed.

(** ** What the table holds after the loops *)

Lemma fold_set_keep (rootFilename : string) (ds : list Declaration)
  (table : JsObject.t Function) (k : string) :
  ~ In k (map (fun d => JsString.toLowerCase (qualifiedName d)) ds) ->
  JsObject.get
    (fold_left
       (fun table d =>
          JsObject.set table (JsString.toLowerCase (qualifiedName d))
            (recordOf rootFilename d)) ds table) k
  = JsObject.get table k.
Proof.
  revert table. induction ds as [|d ds IH]; intros table Hk; [reflexivity|].
  simpl. rewrite IH by (intros H; apply Hk; now right).
  apply get_set_other. intros H. apply Hk. now left.
Qed.

(** Under the key of a declared function the table holds the record of the
    last declaration that has this key. *)
Lemma fold_set_get (rootFilename : string) (ds : list Declaration)
  (table : JsObject.t Function) (k : string) :
  In k (map (fun d => JsString.toLowerCase (qualifiedName d)) ds) ->
  exists d',
    In d' ds
    /\ JsString.toLowerCase (qualifiedName d') = k
    /\ lastWith (fun d => JsString.toLowerCase (qualifiedName d)) k ds d'
    /\ JsObject.get
         (fold_left
            (fun table d =>
               JsObject.set table (JsString.toLowerCase (qualifiedName d))
                 (recordOf rootFilename d)) ds table) k
       = Some (recordOf rootFilename d').
Proof.
  revert table. induction ds as [|d0 ds IH]; intros table Hin; [destruct Hin|].
  simpl.
  destruct (in_dec string_dec k
              (map (fun d => JsString.toLowerCase (qualifiedName d)) ds))
    as [Hlater | Hnot].
  - destruct (IH (JsObject.set table (JsString.toLowerCase (qualifiedName d0))
                    (recordOf rootFilename d0)) Hlater)
      as (d' & Hd' & Hk & (before & after & -> & _ & Hafter) & Hget).
    exists d'. split; [now right|]. split; [exact Hk|]. split; [|exact Hget].
    now exists (d0 :: before), after.
  - destruct Hin as [<- | Hin]; [|contradiction].
    exists d0. split; [now left|]. split; [reflexivity|]. split.
    + now exists [], ds.
    + rewrite fold_set_keep by exact Hnot. apply get_set_same.
Qed.

(** The loops leave under the key of a declaration that shares its key with
    no other the record of that declaration. *)
Lemma scan_records (cfgFunctions : Hpp.Class) (rootFilename : string)
  (d : Declaration) :
  In d (declarations cfgFunctions) ->
  (forall d',
     In d' (declarations cfgFunctions) ->
     JsString.toLowerCase (qualifiedName d')
     = JsString.toLowerCase (qualifiedName d) -> d' = d) ->
  JsObject.get (fns (scanCfgFunctions cfgFunctions rootFilename))
    (JsString.toLowerCase (qualifiedName d))
  = Some (recordOf rootFilename d).
Proof.
  intros Hd Hunique. rewrite scan_fns.
  destruct (fold_set_get rootFilename (declarations cfgFunctions) []
              (JsString.toLowerCase (qualifiedName d)))
    as (d' & Hd' & Hk & _ & Hget).
  { apply in_map_iff. now exists d. }
  rewrite Hget. now rewrite (Hunique d' Hd' Hk).
Qed.

Lemma category_logged_debug (rootFilename root tag : string)
  (categoryClass : Hpp.Class) (l : Loop) :
  Forall (fun e => exists msg, e = LoggerDebug msg) (logged l) ->
  Forall (fun e => exists msg, e = LoggerDebug msg)
    (logged (processCategory rootFilename root tag categoryClass l)).
Proof.
  intros Hl. unfold processCategory. cbv zeta.
  rewrite (fold_left_proj _ (fun (events : list Event) (_ : string * Hpp.Class) => events)
             logged) by reflexivity.
  assert (forall (cs : list (string * Hpp.Class)) (events : list Event),
            fold_left (fun events _ => events) cs events = events) as Hconst
    by (induction cs; intros; simpl; auto).
  rewrite Hconst. simpl.
  apply Forall_app. split; [exact Hl | repeat constructor; now eexists].
Qed.

Lemma tag_logged_debug (rootFilename root : string) (tagClass : Hpp.Class)
  (l : Loop) :
  Forall (fun e => exists msg, e = LoggerDebug msg) (logged l) ->
  Forall (fun e => exists msg, e = LoggerDebug msg)
    (logged (processTag rootFilename root tagClass l)).
Proof.
  intros Hl. unfold processTag. cbv zeta.
  apply (fold_left_invariant
           (fun l => Forall (fun e => exists msg, e = LoggerDebug msg) (logged l))).
  - intros a b. apply category_logged_debug.
  - simpl. apply Forall_app. split; [exact Hl | repeat constructor; now eexists].
Qed.

Lemma scan_logged_debug (cfgFunctions : Hpp.Class) (rootFilename : string) :
  Forall (fun e => exists msg, e = LoggerDebug msg)
    (logged (scanCfgFunctions cfgFunctions rootFilename)).
Proof.
  unfold scanCfgFunctions. cbv zeta.
  apply (fold_left_invariant
           (fun l => Forall (fun e => exists msg, e = LoggerDebug msg) (logged l))).
  - intros a b. apply tag_logged_debug.
  - constructor.
Qed.

(** ** The tag of a category (C7) *)

(** What a category with a [tag] variable gives to the table that the loops
    build: the names of its functions carry the [tag] when it is not empty
    and else the tag of the group, and the path of the category does not
    depend on it. *)
Lemma category_tag_in_scan
  (cfgFunctions : Hpp.Class) (rootFilename : string)
  (tagKey categoryKey functionKey own : string)
  (tagClass categoryClass functionClass : Hpp.Class) :
  In (tagKey, tagClass) (Hpp.classes (Hpp.body cfgFunctions)) ->
  In (categoryKey, categoryClass) (Hpp.classes (Hpp.body tagClass)) ->
  In (functionKey, functionClass) (Hpp.classes (Hpp.body categoryClass)) ->
  JsObject.get (Hpp.variables (Hpp.body categoryClass)) "tag" = Some own ->
  let T := if String.eqb own "" then tagOf tagClass else own in
  let qualified := T ++ "_fnc_" ++ Hpp.name functionClass in
  let table := fns (scanCfgFunctions cfgFunctions rootFilename) in
  (exists record,
     JsObject.get table (JsString.toLowerCase qualified) = Some record
     /\ JsString.toLowerCase (name record) = JsString.toLowerCase qualified)
  /\ ((forall d,
         In d (declarations cfgFunctions) ->
         JsString.toLowerCase (qualifiedName d) = JsString.toLowerCase qualified ->
         d = (T, categoryPathOf categoryClass, functionClass)) ->
      JsObject.get table (JsString.toLowerCase qualified)
      = Some {| name := qualified;
                filename :=
                  resolveFilename (path_dirname rootFilename)
                    (declaredFilename (categoryPathOf categoryClass)
                       functionClass);
                info := None |})
  /\ (JsObject.get (Hpp.variables (Hpp.body categoryClass)) "file" = None ->
      categoryPathOf categoryClass
      = path_join "functions" (Hpp.name categoryClass))
  /\ (forall v, categoryPathOf (with_tag categoryClass v)
                = categoryPathOf categoryClass).
Proof.
  intros Htag Hcategory Hfunction Hown T qualified table.
  pose proof (declared_In cfgFunctions tagClass categoryClass functionClass
                tagKey categoryKey functionKey Htag Hcategory Hfunction) as Hd.
  assert (categoryTagOf (tagOf tagClass) categoryClass = T) as HT.
  { unfold categoryTagOf, JsString.or_else, JsString.truthy, T. rewrite Hown.
    now destruct (String.eqb own ""). }
  rewrite HT in Hd.
  split; [|split; [|split]].
  - destruct (fold_set_get rootFilename (declarations cfgFunctions) []
                (JsString.toLowerCase qualified))
      as (d' & _ & Hk & _ & Hget).
    { apply in_map_iff.
      now exists (T, categoryPathOf categoryClass, functionClass). }
    exists (recordOf rootFilename d'). unfold table. rewrite scan_fns.
    split; [exact Hget | exact Hk].
  - intros Hunique.
    exact (scan_records cfgFunctions rootFilename
             (T, categoryPathOf categoryClass, functionClass) Hd Hunique).
  - intros Hfile. unfold categoryPathOf. now rewrite Hfile.
  - intros v. unfold categoryPathOf, with_tag. simpl.
    now rewrite get_set_other by discriminate.
Qed.

(** C3.  [processCfgFunctions] sends, after its log lines, one batch for each
    URI that has diagnostics and nothing else.  The batch of an URI holds, in
    the order of declaration, one diagnostic for each declared function whose
    resolved file is not on the disk and whose class was declared in the file
    of that URI (the root file when the class names no file): severity Error,
    the range of the class, the message "Failed to find <file> for function
    <name>." and the source "sqflint".  Every declared function, its file
    missing or not, has a record under its lower-cased name in the table of
    the root: the record of the last declaration with that key, as the loops
    stored it or with its docstring loaded, and loaded when [tryToLoadDocs]
    did not throw. *)
Theorem missing_files_are_reported_once_and_recorded
  (cfgFunctions : Hpp.Class) (rootFilename : string) (st : State) :
  let batch := diags (scanCfgFunctions cfgFunctions rootFilename) in
  let st' := fst (processCfgFunctions cfgFunctions rootFilename st) in
  (exists logs,
     trace st'
     = (trace st ++ logs ++
        map (fun entry =>
               SendDiagnostics {| Lsp.uri := fst entry;
                                  Lsp.diagnostics := snd entry |}) batch)%list
     /\ Forall (fun e => exists msg, e = LoggerDebug msg) logs)
  /\ NoDup (JsObject.keys batch)
  /\ (forall uri ds, JsObject.get batch uri = Some ds -> ds <> [])
  /\ (forall uri,
        diagnosticsFor batch uri
        = map (fun d =>
                 {| Lsp.severity := Lsp.Error;
                    Lsp.range := Hpp.range (Hpp.fileLocation (snd d));
                    Lsp.message :=
                      "Failed to find " ++ resolvedFile rootFilename d
                      ++ " for function " ++ qualifiedName d ++ ".";
                    Lsp.source := "sqflint" |})
            (filter (fun d => String.eqb (declarationUri rootFilename d) uri)
               (missingDeclarations cfgFunctions rootFilename)))
  /\ (forall d,
        In d (declarations cfgFunctions) ->
        exists table d' record,
          JsObject.get (functions st') rootFilename = Some table
          /\ In d' (declarations cfgFunctions)
          /\ JsString.toLowerCase (qualifiedName d')
             = JsString.toLowerCase (qualifiedName d)
          /\ lastWith (fun d => JsString.toLowerCase (qualifiedName d))
               (JsString.toLowerCase (qualifiedName d))
               (declarations cfgFunctions) d'
          /\ JsObject.get table (JsString.toLowerCase (qualifiedName d))
             = Some record
          /\ name record = qualifiedName d'
          /\ filename record = resolvedFile rootFilename d'
          /\ (record = recordOf rootFilename d'
              \/ loadDocs (recordOf rootFilename d') = Returns record)
          /\ (snd (processCfgFunctions cfgFunctions rootFilename st) = None ->
              loadDocs (recordOf rootFilename d') = Returns record)).
Proof.
  intros batch st'. split; [|split; [|split; [|split]]].
  - exists (logged (scanCfgFunctions cfgFunctions rootFilename)
            ++ [LoggerDebug
                  ("Detected a total of "
                   ++ JsString.of_nat
                        (functionsCount
                           (scanCfgFunctions cfgFunctions rootFilename))
                   ++ " in " ++ rootFilename)])%list.
    split.
    + unfold st'. rewrite processCfgFunctions_trace. unfold scanEvents.
      cbv zeta. now rewrite <- !app_assoc.
    + apply Forall_app. split; [|repeat constructor; now eexists].
      apply scan_logged_debug.
  - apply scan_diags_NoDup.
  - apply scan_diags_not_empty.
  - intros uri. unfold batch. rewrite scan_diags, fold_diagnosticsFor.
    reflexivity.
  - intros d Hd. unfold st'.
    rewrite processCfgFunctions_functions, get_set_same,
      processCfgFunctions_thrown.
    destruct (fold_set_get rootFilename (declarations cfgFunctions) []
                (JsString.toLowerCase (qualifiedName d)))
      as (d' & Hd' & Hk & Hlast & Hget).
    { apply in_map_iff. now exists d. }
    rewrite <- scan_fns in Hget.
    destruct (loadEach_get _ _ _ Hget) as (record & Hrecord & Hor & Hnone).
    eexists. exists d', record. split; [reflexivity|]. split; [exact Hd'|].
    split; [exact Hk|]. split; [exact Hlast|]. split; [exact Hrecord|].
    assert (name record = qualifiedName d'
            /\ filename record = resolvedFile rootFilename d') as [Hn Hf].
    { destruct Hor as [-> | Hloaded]; [now split|].
      now apply loadDocs_name in Hloaded. }
    repeat split; assumption.
Qed.

(** ** A root without registry (C5) *)

Lemma process_without_registry (context : Hpp.ClassBody) (filename : string)
  (st : State) :
  JsObject.get (Hpp.classes context) "cfgfunctions" = None ->
  process context filename st = (st, None).
Proof. intros H. unfold process. now rewrite H. Qed.

(** ** When [indexWorkspace] resolves (C6) *)

Lemma parseEach_spec (items : list string) (st : State) :
  parseEach items st
  = {| functions := functions st; documentation := documentation st;
       files := files st;
       trace :=
         (trace st ++
          flat_map (fun item => [LoggerDebug ("Parsing: " ++ item);
                                 LoggerDebug ("Parsed: " ++ item)]) items)%list;
       pending :=
         (pending st ++ map ReadFileCallback (filter fs_existsSync items))%list |}.
Proof.
  unfold parseEach. revert st.
  induction items as [|item items IH]; intros st; simpl.
  - rewrite !app_nil_r. now destruct st.
  - rewrite IH. unfold parse, parseFile. destruct (fs_existsSync item); simpl;
      now rewrite <- !app_assoc.
Qed.

(** Without discovery [indexWorkspace] resolves its promise in the call
    itself: the table is as it was and the callback of every file that exists
    is still waiting. *)
Lemma indexWorkspace_without_discovery (root : string) (st : State) :
  discoverDescriptionFiles settings = false ->
  let configured :=
    map (fun file => if path_isAbsolute file then file else path_join root file)
      (descriptionFiles settings) in
  let files :=
    if fs_existsSync (path_join root "description.ext") then
      (configured ++ [path_join root "description.ext"])%list
    else configured in
  indexWorkspace root st
  = {| functions := functions st; documentation := documentation st;
       files := files;
       trace :=
         (trace st ++
          flat_map (fun item => [LoggerDebug ("Parsing: " ++ item);
                                 LoggerDebug ("Parsed: " ++ item)]) files
          ++ [Resolve (IndexWorkspacePromise root)])%list;
       pending :=
         (pending st ++ map ReadFileCallback (filter fs_existsSync files))%list |}.
Proof.
  intros Hdiscover configured files. unfold indexWorkspace. rewrite Hdiscover.
  cbv zeta. fold configured. fold files. rewrite parseEach_spec. simpl.
  unfold emit. simpl. now rewrite <- app_assoc.
Qed.

(** With discovery the promise is resolved by the callback of [glob], again
    before any callback of [fs.readFile] has run. *)
Lemma globCallback_resolves_first (root : string) (configured : list string)
  (st : State) :
  let discovered := map (fun item => path_join root item)
                      (snd (glob root (exclude settings))) in
  let files := (configured ++ discovered)%list in
  exists logs,
    globCallback root configured st
    = {| functions := functions st; documentation := documentation st;
         files := files;
         trace :=
           (trace st ++ logs ++
            flat_map (fun item => [LoggerDebug ("Parsing: " ++ item);
                                   LoggerDebug ("Parsed: " ++ item)]) files
            ++ [Resolve (IndexWorkspacePromise root)])%list;
         pending :=
           (pending st ++ map ReadFileCallback (filter fs_existsSync files))%list |}
    /\ Forall (fun e => exists msg, e = LoggerError msg) logs.
Proof.
  intros discovered files. unfold globCallback. subst files discovered.
  destruct (glob root (exclude settings)) as [[message|] found]; simpl.
  - exists [LoggerError "Issue when scanning for description.ext";
            LoggerError message].
    split; [|repeat constructor; now eexists].
    rewrite parseEach_spec. unfold emit. simpl. now rewrite <- !app_assoc.
  - exists []. split; [|constructor].
    rewrite parseEach_spec. unfold emit. simpl. now rewrite <- !app_assoc.
Qed.

(** A callback of [fs.readFile] leaves the waiting callbacks alone, says that
    it processes its file and resolves its promise, whatever the parser and
    [process] do. *)
Lemma parseFileCallback_attempts (filename : string) (st : State) :
  pending (parseFileCallback filename st) = pending st
  /\ exists events,
       trace (parseFileCallback filename st)
       = (trace st ++ LoggerDebug ("Proccessing: " ++ filename) :: events
          ++ [Resolve (ParseFilePromise filename)])%list.
Proof.
  rewrite parseFileCallback_spec. cbn [pending trace]. split; [reflexivity|].
  unfold passEvents.
  match goal with
  | |- context [(map hookEvent ?calls ++ ?middle ++ [Resolve _])%list] =>
      exists (map hookEvent calls ++ middle)%list
  end.
  now rewrite <- app_assoc.
Qed.

(** Every callback of [fs.readFile] that waits gets its turn: after as many
    turns as there are callbacks none is left and each file was attempted,
    in the order of the queue. *)
Lemma run_attempts_every_file (queue : list string) (st : State) :
  pending st = map ReadFileCallback queue ->
  pending (run (List.length queue) st) = []
  /\ forall f, In f queue ->
       In (LoggerDebug ("Proccessing: " ++ f)) (trace (run (List.length queue) st))
       /\ In (Resolve (ParseFilePromise f)) (trace (run (List.length queue) st)).
Proof.
  assert (forall n s e, In e (trace s) -> In e (trace (run n s))) as Hmono.
  { induction n as [|n IH]; intros s e He; simpl; [exact He|].
    unfold turn. destruct (pending s) as [|t rest] eqn:E; [exact He|].
    apply IH. destruct t as [root configured | filename]; cbn [run_task].
    - destruct (globCallback_resolves_first root configured
                  {| functions := functions s; documentation := documentation s;
                     files := files s; trace := trace s;
                     pending := rest |}) as (logs & Heq & _).
      rewrite Heq. cbn [trace]. apply in_or_app. now left.
    - destruct (parseFileCallback_attempts filename
                  {| functions := functions s; documentation := documentation s;
                     files := files s; trace := trace s;
                     pending := rest |}) as (_ & events & Heq).
      rewrite Heq. cbn [trace]. apply in_or_app. now left. }
  revert st. induction queue as [|f0 queue IH]; intros st Hpending;
    cbn [List.length run].
  - split; [exact Hpending | intros f []].
  - unfold turn. rewrite Hpending. cbn [map run_task].
    set (st0 := {| functions := functions st; documentation := documentation st;
                   files := files st; trace := trace st;
                   pending := map ReadFileCallback queue |}).
    destruct (parseFileCallback_attempts f0 st0) as (Hp & events & Ht).
    destruct (IH (parseFileCallback f0 st0)) as [Hdone Hall];
      [now rewrite Hp|].
    split; [exact Hdone|].
    intros f [<- | Hf]; [|now apply Hall].
    split; apply Hmono; rewrite Ht; apply in_or_app; right.
    + now left.
    + right. apply in_or_app. right. now left.
Qed.

(** ** The comment expression (C9) *)

Section CommentText.

Local Open Scope list_scope.

Lemma text_startsWith_app (p r : JsText.t) : JsText.startsWith (p ++ r) p = true.
Proof. induction p as [|c p IH]; simpl; [reflexivity|]. now rewrite N.eqb_refl. Qed.

Lemma text_startsWith_inv (s p : JsText.t) :
  JsText.startsWith s p = true -> exists r, s = p ++ r.
Proof.
  revert s. induction p as [|b p IH]; intros s H; [now exists s|].
  destruct s as [|a s]; [discriminate|]. simpl in H.
  apply andb_true_iff in H as [Hab H]. apply N.eqb_eq in Hab as ->.
  destruct (IH s H) as [r ->]. now exists r.
Qed.

Lemma text_startsWith_app_l (a b l : JsText.t) :
  JsText.startsWith a l = true -> JsText.startsWith (a ++ b) l = true.
Proof.
  intros H. apply text_startsWith_inv in H as [r ->].
  rewrite <- app_assoc. apply text_startsWith_app.
Qed.

(** The group takes every unit but U+2028 and U+2029. *)
Lemma any_char_spec (u : N) :
  CommentRegex.any_char u = true <-> u <> 8232%N /\ u <> 8233%N.
Proof.
  unfold CommentRegex.any_char, CommentRegex.dot, CommentRegex.is_line_terminator.
  cbn [existsb].
  destruct (N.eqb_spec u 10) as [->|H10]; [split; [now split | reflexivity]|].
  destruct (N.eqb_spec u 13) as [->|H13]; [split; [now split | reflexivity]|].
  destruct (N.eqb_spec u 8232) as [->|H1];
    [split; [discriminate | intros [H _]; now destruct H]|].
  destruct (N.eqb_spec u 8233) as [->|H2];
    [split; [discriminate | intros [_ H]; now destruct H]|].
  split; [now split | reflexivity].
Qed.

Lemma unbroken_any_char (s : JsText.t) :
  unbroken s <-> forall u, In u s -> CommentRegex.any_char u = true.
Proof.
  unfold unbroken. split; intros H u Hu; apply any_char_spec; now apply H.
Qed.

Lemma unbroken_app (a b : JsText.t) : unbroken (a ++ b) <-> unbroken a /\ unbroken b.
Proof.
  unfold unbroken. split.
  - intros H. split; intros u Hu; apply H; apply in_or_app; [now left | now right].
  - intros [Ha Hb] u Hu. apply in_app_or in Hu as [Hu | Hu]; [now apply Ha | now apply Hb].
Qed.

Lemma unbroken_cons (c : N) (s : JsText.t) :
  unbroken (c :: s) <-> CommentRegex.any_char c = true /\ unbroken s.
Proof.
  rewrite any_char_spec. unfold unbroken. split.
  - intros H. split; [apply H; now left | intros u Hu; apply H; now right].
  - intros [Hc Hs] u [<- | Hu]; [exact Hc | now apply Hs].
Qed.

Lemma space_is_not_slash (c : N) :
  CommentRegex.is_space c = true -> N.eqb c 47 = false.
Proof. destruct (N.eqb_spec c 47) as [->|]; [discriminate | reflexivity]. Qed.

Lemma broken_is_not_star (c : N) :
  CommentRegex.any_char c = false -> N.eqb c 42 = false.
Proof. destruct (N.eqb_spec c 42) as [->|]; [discriminate | reflexivity]. Qed.

Lemma star_space_skips {R : Type} (k : JsText.t -> option R) (s : JsText.t) :
  (forall c s', CommentRegex.is_space c = true -> k (c :: s') = None) ->
  CommentRegex.star CommentRegex.is_space s k = k (skipSpaces s).
Proof.
  intros Hk. induction s as [|c s IH]; simpl; [reflexivity|].
  destruct (CommentRegex.is_space c) eqn:E; [|reflexivity].
  rewrite IH. destruct (k (skipSpaces s)) eqn:Ek; [reflexivity|].
  now apply Hk.
Qed.

Lemma line_startsWith_closer (c : N) (s : JsText.t) :
  JsText.startsWith (c :: line s) CommentRegex.closer
  = JsText.startsWith (c :: s) CommentRegex.closer.
Proof.
  cbn [JsText.startsWith CommentRegex.closer JsText.of_string map
       list_ascii_of_string].
  destruct (N.eqb c _); [|reflexivity]. cbn [andb].
  destruct s as [|c' s]; [reflexivity|]. cbn [line].
  destruct (CommentRegex.any_char c') eqn:E; cbn [JsText.startsWith].
  - reflexivity.
  - destruct (N.eqb_spec c' (N_of_ascii "/")) as [->|]; [discriminate | reflexivity].
Qed.

(** The greedy group followed by the closer: the text up to the last closer
    that comes before the first unit that the group cannot hold. *)
Lemma star_capture_last (s captured : JsText.t) :
  CommentRegex.star_capture CommentRegex.any_char s captured
    (fun group1 s3 => CommentRegex.lit CommentRegex.closer s3 (fun _ => Some group1))
  = option_map (fun body => captured ++ body) (beforeLastClose (line s)).
Proof.
  revert captured. induction s as [|c s IH]; intros captured.
  - reflexivity.
  - cbn [CommentRegex.star_capture line].
    destruct (CommentRegex.any_char c) eqn:Ec.
    + cbn [beforeLastClose]. rewrite IH.
      destruct (beforeLastClose (line s)) as [body|]; cbn [option_map].
      * now rewrite <- app_assoc.
      * unfold CommentRegex.lit. rewrite line_startsWith_closer.
        destruct (JsText.startsWith (c :: s) CommentRegex.closer);
          cbn [option_map]; [now rewrite app_nil_r | reflexivity].
    + cbn [beforeLastClose option_map]. unfold CommentRegex.lit.
      cbn [JsText.startsWith CommentRegex.closer JsText.of_string map
           list_ascii_of_string].
      change (N_of_ascii "*") with 42%N.
      now rewrite (broken_is_not_star c Ec).
Qed.

Lemma match_here_spec (s : JsText.t) :
  CommentRegex.match_here s
  = if JsText.startsWith (skipSpaces s) CommentRegex.opener then
      beforeLastClose (line (JsText.slice (skipSpaces s) 2))
    else None.
Proof.
  unfold CommentRegex.match_here. rewrite star_space_skips.
  - unfold CommentRegex.lit at 1.
    destruct (JsText.startsWith (skipSpaces s) CommentRegex.opener); [|reflexivity].
    rewrite star_capture_last.
    now destruct (beforeLastClose _).
  - intros c s' Hc. unfold CommentRegex.lit at 1.
    cbn [JsText.startsWith CommentRegex.opener JsText.of_string map
         list_ascii_of_string].
    change (N_of_ascii "/") with 47%N.
    now rewrite (space_is_not_slash c Hc).
Qed.

Lemma exec_cons (c : N) (s : JsText.t) :
  CommentRegex.exec (c :: s)
  = match CommentRegex.match_here (c :: s) with
    | Some group1 => Some group1
    | None => CommentRegex.exec s
    end.
Proof. reflexivity. Qed.

Lemma match_here_space (c : N) (s : JsText.t) :
  CommentRegex.is_space c = true ->
  CommentRegex.match_here (c :: s) = CommentRegex.match_here s.
Proof. intros H. rewrite !match_here_spec. cbn [skipSpaces]. now rewrite H. Qed.

Lemma exec_absorbs (s : JsText.t) :
  match CommentRegex.match_here s with
  | Some group1 => Some group1
  | None => CommentRegex.exec s
  end = CommentRegex.exec s.
Proof.
  destruct s as [|c s]; [reflexivity|].
  rewrite exec_cons. now destruct (CommentRegex.match_here _).
Qed.

(** [exec] finds the text between the first opener that has a closer before
    the next U+2028 or U+2029 and the last such closer. *)
Lemma exec_commentBetween (s : JsText.t) :
  CommentRegex.exec s = commentBetween s.
Proof.
  induction s as [|c s IH]; [reflexivity|].
  rewrite exec_cons. cbn [commentBetween].
  destruct (JsText.startsWith (c :: s) CommentRegex.opener) eqn:Eopen.
  - rewrite match_here_spec.
    assert (skipSpaces (c :: s) = c :: s) as ->.
    { cbn [skipSpaces]. destruct (CommentRegex.is_space c) eqn:Es; [|reflexivity].
      apply space_is_not_slash in Es. cbn in Eopen.
      change (N_of_ascii "/") with 47%N in Eopen. now rewrite Es in Eopen. }
    rewrite Eopen.
    destruct (beforeLastClose (line (JsText.slice (c :: s) 2))); [reflexivity|].
    exact IH.
  - destruct (CommentRegex.is_space c) eqn:Es.
    + rewrite match_here_space by exact Es. now rewrite exec_absorbs.
    + rewrite match_here_spec. cbn [skipSpaces]. now rewrite Es, Eopen.
Qed.

(** *** Openers and closers in a text *)

Lemma occurs_cons (l : JsText.t) (c : N) (t : JsText.t) :
  occurs l (c :: t)
  <-> JsText.startsWith (c :: t) l = true \/ occurs l t.
Proof.
  split.
  - intros (a & b & H). destruct a as [|x a].
    + left. cbn [app] in H. rewrite H. apply text_startsWith_app.
    + right. cbn [app] in H. injection H as _ ->. now exists a, b.
  - intros [H | (a & b & ->)].
    + apply text_startsWith_inv in H as [r ->]. now exists [], r.
    + now exists (c :: a), b.
Qed.

Lemma occurs_empty (l : JsText.t) : l <> [] -> ~ occurs l [].
Proof.
  intros Hl (a & b & H). destruct a; [|discriminate].
  destruct l; [congruence | discriminate].
Qed.

Lemma occurs_append_l (l p s : JsText.t) : occurs l s -> occurs l (p ++ s).
Proof.
  intros (a & b & ->). exists (p ++ a), b. now rewrite app_assoc.
Qed.

Lemma closer_not_empty : CommentRegex.closer <> [].
Proof. discriminate. Qed.

Lemma opener_not_empty : CommentRegex.opener <> [].
Proof. discriminate. Qed.

Lemma beforeLastClose_none_iff (t : JsText.t) :
  beforeLastClose t = None <-> ~ occurs CommentRegex.closer t.
Proof.
  induction t as [|c t IH].
  - split; [intros _; apply occurs_empty, closer_not_empty | reflexivity].
  - cbn [beforeLastClose]. rewrite occurs_cons.
    destruct (beforeLastClose t) as [body|].
    + split; [discriminate|]. intros H.
      assert (~ occurs CommentRegex.closer t) as Hn by (intros Ho; apply H; now right).
      apply (proj2 IH) in Hn. discriminate.
    + destruct (JsText.startsWith (c :: t) CommentRegex.closer).
      * split; [discriminate|]. intros H. exfalso. apply H. now left.
      * split; [|reflexivity]. intros _ [H | H]; [discriminate|].
        now apply (proj1 IH).
Qed.

Lemma beforeLastClose_some (t body : JsText.t) :
  beforeLastClose t = Some body ->
  exists post,
    t = body ++ CommentRegex.closer ++ post /\ ~ occurs CommentRegex.closer post.
Proof.
  revert body. induction t as [|c t IH]; intros body; [discriminate|].
  cbn [beforeLastClose].
  destruct (beforeLastClose t) as [b|] eqn:E.
  - intros H. injection H as <-. destruct (IH b eq_refl) as (post & -> & Hpost).
    now exists post.
  - destruct (JsText.startsWith (c :: t) CommentRegex.closer) eqn:Es; [|discriminate].
    intros H. injection H as <-.
    apply text_startsWith_inv in Es as [post Hpost]. exists post.
    split; [exact Hpost|].
    apply beforeLastClose_none_iff in E. intros Hocc. apply E.
    cbn in Hpost. injection Hpost as _ ->.
    now apply (occurs_append_l CommentRegex.closer [N_of_ascii "/"] post).
Qed.

Lemma beforeLastClose_append (body post : JsText.t) :
  ~ occurs CommentRegex.closer post ->
  beforeLastClose (body ++ CommentRegex.closer ++ post) = Some body.
Proof.
  intros Hpost. induction body as [|c body IH].
  - cbn [app]. change (CommentRegex.closer ++ post)
      with (N_of_ascii "*" :: N_of_ascii "/" :: post).
    cbn [beforeLastClose].
    rewrite (proj2 (beforeLastClose_none_iff post) Hpost). reflexivity.
  - cbn [app beforeLastClose]. now rewrite IH.
Qed.

Lemma afterFirstOpen_some (s rest : JsText.t) :
  afterFirstOpen s = Some rest ->
  exists pre,
    s = pre ++ CommentRegex.opener ++ rest /\ ~ occurs CommentRegex.opener pre.
Proof.
  revert rest. induction s as [|c s IH]; intros rest; [cbn; discriminate|].
  cbn [afterFirstOpen].
  destruct (JsText.startsWith (c :: s) CommentRegex.opener) eqn:E.
  - apply text_startsWith_inv in E as [r Hr]. cbn in Hr.
    injection Hr as -> ->. cbn [JsText.slice skipn].
    intros H. injection H as <-. exists []. split; [reflexivity|].
    apply occurs_empty, opener_not_empty.
  - intros H. destruct (IH _ H) as (pre & -> & Hpre). exists (c :: pre).
    split; [reflexivity|]. intros Hocc. apply occurs_cons in Hocc as [Hsw | Hocc];
      [|contradiction].
    apply (text_startsWith_app_l _ (CommentRegex.opener ++ rest)) in Hsw.
    cbn [app] in Hsw, E. congruence.
Qed.

Lemma afterFirstOpen_append (pre rest : JsText.t) :
  ~ occurs CommentRegex.opener pre ->
  afterFirstOpen (pre ++ CommentRegex.opener ++ rest) = Some rest.
Proof.
  induction pre as [|c pre IH]; intros Hpre; [reflexivity|].
  cbn [app afterFirstOpen].
  destruct (JsText.startsWith (c :: pre ++ CommentRegex.opener ++ rest)
              CommentRegex.opener) eqn:E.
  - exfalso. apply Hpre. apply occurs_cons. left.
    cbn [JsText.startsWith CommentRegex.opener JsText.of_string map
         list_ascii_of_string] in E |- *.
    apply andb_true_iff in E as [Hc E]. rewrite Hc. cbn [andb].
    destruct pre as [|c' pre]; [cbn in E; discriminate|].
    cbn [app] in E. exact E.
  - apply IH. intros Hocc. apply Hpre. apply occurs_cons. now right.
Qed.

Lemma afterFirstOpen_none_iff (s : JsText.t) :
  afterFirstOpen s = None <-> ~ occurs CommentRegex.opener s.
Proof.
  induction s as [|c s IH].
  - split; [intros _; apply occurs_empty, opener_not_empty | reflexivity].
  - cbn [afterFirstOpen]. rewrite occurs_cons.
    destruct (JsText.startsWith (c :: s) CommentRegex.opener).
    + split; [discriminate|]. intros H. exfalso. apply H. now left.
    + rewrite IH. split; [intros H [H' | H']; [discriminate | contradiction]|].
      intros H H'. apply H. now right.
Qed.

Lemma commentSpan_some_iff (s body : JsText.t) :
  commentSpan s = Some body
  <-> exists pre post,
        s = pre ++ CommentRegex.opener ++ body ++ CommentRegex.closer ++ post
        /\ ~ occurs CommentRegex.opener pre /\ ~ occurs CommentRegex.closer post.
Proof.
  unfold commentSpan. split.
  - destruct (afterFirstOpen s) as [rest|] eqn:E; [|discriminate].
    intros H. apply afterFirstOpen_some in E as (pre & -> & Hpre).
    apply beforeLastClose_some in H as (post & -> & Hpost).
    now exists pre, post.
  - intros (pre & post & -> & Hpre & Hpost).
    rewrite afterFirstOpen_append by assumption.
    now apply beforeLastClose_append.
Qed.

(** *** The text that the group can hold *)

Lemma line_prefix (s : JsText.t) : exists rest, s = line s ++ rest.
Proof.
  induction s as [|c s [rest IH]]; [now exists []|].
  cbn [line]. destruct (CommentRegex.any_char c); [|now exists (c :: s)].
  exists rest. cbn [app]. now rewrite <- IH.
Qed.

Lemma line_unbroken (s : JsText.t) : unbroken (line s).
Proof.
  apply unbroken_any_char. induction s as [|c s IH]; [intros ? []|].
  cbn [line]. destruct (CommentRegex.any_char c) eqn:E; [|intros ? []].
  intros u [<- | Hu]; [exact E | now apply IH].
Qed.

Lemma line_all (s : JsText.t) : unbroken s -> line s = s.
Proof.
  induction s as [|c s IH]; [reflexivity|].
  intros H. apply unbroken_cons in H as [Hc Hs].
  cbn [line]. now rewrite Hc, IH.
Qed.

Lemma line_app (a b : JsText.t) : unbroken a -> line (a ++ b) = a ++ line b.
Proof.
  induction a as [|c a IH]; [reflexivity|].
  intros H. apply unbroken_cons in H as [Hc Ha].
  cbn [app line]. now rewrite Hc, IH.
Qed.

Lemma unbroken_forallb (s : JsText.t) :
  forallb CommentRegex.any_char s = true -> unbroken s.
Proof.
  intros H. apply unbroken_any_char. now apply forallb_forall.
Qed.

Lemma closer_unbroken : unbroken CommentRegex.closer.
Proof. intros u [<- | [<- | []]]; split; discriminate. Qed.

(** What [exec] returns stands between an opener and a closer and holds
    neither U+2028 nor U+2029. *)
Lemma commentBetween_sound (s body : JsText.t) :
  commentBetween s = Some body ->
  exists pre post,
    s = pre ++ CommentRegex.opener ++ body ++ CommentRegex.closer ++ post
    /\ unbroken body.
Proof.
  induction s as [|c s IH]; [discriminate|].
  cbn [commentBetween].
  assert (commentBetween s = Some body ->
          exists pre post,
            c :: s = pre ++ CommentRegex.opener ++ body ++ CommentRegex.closer ++ post
            /\ unbroken body) as Hlater.
  { intros H. destruct (IH H) as (pre & post & -> & Hbody).
    now exists (c :: pre), post. }
  destruct (JsText.startsWith (c :: s) CommentRegex.opener) eqn:E; [|exact Hlater].
  destruct (beforeLastClose (line (JsText.slice (c :: s) 2))) as [found|] eqn:Eclose;
    [|exact Hlater].
  intros [= ->].
  apply text_startsWith_inv in E as [r Hr]. rewrite Hr in Eclose |- *.
  change (JsText.slice (CommentRegex.opener ++ r) 2) with r in Eclose.
  apply beforeLastClose_some in Eclose as (post & Hline & _).
  destruct (line_prefix r) as [rest Hrest].
  exists [], (post ++ rest). split.
  - cbn [app]. rewrite Hrest at 1. rewrite Hline.
    now rewrite <- !app_assoc.
  - pose proof (line_unbroken r) as Hu. rewrite Hline in Hu.
    now apply unbroken_app in Hu as [Hu _].
Qed.

(** An opener followed by a closer, with neither U+2028 nor U+2029 between
    them, is enough for [exec] to find something. *)
Lemma commentBetween_complete (a b c : JsText.t) :
  unbroken b ->
  commentBetween (a ++ CommentRegex.opener ++ b ++ CommentRegex.closer ++ c)
  <> None.
Proof.
  intros Hb. induction a as [|x a IH].
  - change ([] ++ CommentRegex.opener ++ b ++ CommentRegex.closer ++ c)
      with (N_of_ascii "/" :: N_of_ascii "*" :: b ++ CommentRegex.closer ++ c).
    cbn [commentBetween JsText.startsWith CommentRegex.opener JsText.of_string
         map list_ascii_of_string]. rewrite !N.eqb_refl. cbn [andb].
    cbn [JsText.slice skipn].
    rewrite line_app by exact Hb. rewrite line_app by exact closer_unbroken.
    destruct (beforeLastClose (b ++ CommentRegex.closer ++ line c)) eqn:E;
      [discriminate|].
    apply beforeLastClose_none_iff in E. exfalso. apply E.
    now exists b, (line c).
  - cbn [app commentBetween].
    destruct (JsText.startsWith _ CommentRegex.opener); [|exact IH].
    destruct (beforeLastClose _); [discriminate | exact IH].
Qed.

Lemma commentBetween_some_iff (s : JsText.t) :
  commentBetween s <> None
  <-> exists a b c,
        s = a ++ CommentRegex.opener ++ b ++ CommentRegex.closer ++ c
        /\ unbroken b.
Proof.
  split.
  - destruct (commentBetween s) as [body|] eqn:E; [intros _ | congruence].
    apply commentBetween_sound in E as (pre & post & -> & Hbody).
    now exists pre, body, post.
  - intros (a & b & c & -> & Hb). now apply commentBetween_complete.
Qed.

(** In a text without U+2028 and U+2029 the group runs from the first opener
    to the last closer. *)
Lemma commentBetween_unbroken (s : JsText.t) :
  unbroken s -> commentBetween s = commentSpan s.
Proof.
  induction s as [|c s IH]; [reflexivity|].
  intros H. pose proof H as Hcs. apply unbroken_cons in H as [Hc Hs].
  unfold commentSpan. cbn [commentBetween afterFirstOpen].
  destruct (JsText.startsWith (c :: s) CommentRegex.opener) eqn:E.
  - apply text_startsWith_inv in E as [r Hr]. rewrite Hr.
    change (JsText.slice (CommentRegex.opener ++ r) 2) with r.
    assert (unbroken r) as Hur.
    { rewrite Hr in Hcs. now apply unbroken_app in Hcs as [_ Hcs]. }
    rewrite line_all by exact Hur.
    destruct (beforeLastClose r) eqn:Eclose; [reflexivity|].
    destruct (commentBetween s) as [body|] eqn:Es; [|reflexivity].
    exfalso. apply commentBetween_sound in Es as (pre & post & Hs' & _).
    apply beforeLastClose_none_iff in Eclose. apply Eclose.
    cbn in Hr. injection Hr as -> ->.
    destruct pre as [|x pre]; [discriminate Hs'|].
    cbn [app] in Hs'. injection Hs' as _ ->.
    exists (pre ++ CommentRegex.opener ++ body), post.
    now rewrite <- !app_assoc.
  - fold (commentSpan s). now apply IH.
Qed.

End CommentText.


(** ** Docstrings (C9) *)

Lemma loadDocs_missing (fnc : Function) :
  fs_existsSync (filename fnc) = false -> loadDocs fnc = Returns fnc.
Proof. intros H. unfold loadDocs. now rewrite H. Qed.

Lemma loadDocs_unreadable (fnc : Function) (error : string) :
  fs_existsSync (filename fnc) = true ->
  fs_readFileSync (filename fnc) = Throws error ->
  loadDocs fnc = Throws error.
Proof. intros He Hr. unfold loadDocs. now rewrite He, Hr. Qed.

(** What becomes of a record once the parser is given [text]. *)
Lemma loadDocs_read (fnc : Function) (contents : JsText.t) :
  fs_existsSync (filename fnc) = true ->
  fs_readFileSync (filename fnc) = Returns contents ->
  loadDocs fnc
  = match commentBetween contents with
    | Some text =>
        match Docstring_parse text with
        | Returns parsed =>
            Returns {| name := name fnc; filename := filename fnc;
                       info := Some parsed |}
        | Throws error => Throws error
        end
    | None => Returns fnc
    end.
Proof.
  intros He Hr. unfold loadDocs. now rewrite He, Hr, exec_commentBetween.
Qed.

(** C9, as the code has it.  The table of the root goes through the loop of
    [tryToLoadDocs], one record after the other.  For a record whose file
    exists: when the file cannot be read, what [fs.readFileSync] throws leaves
    the loop, nothing catching it; when it is read, the docstring parser is
    given a text exactly when the text of the file has an opener and, after
    it, a closer with neither U+2028 nor U+2029 in between, wherever in the
    file they stand, and the record gets for its [info] what the parser
    returns, or the loop is left by what the parser throws; in a file without
    U+2028 and U+2029 that has one closer only after its first opener, the
    parser is given the text between the two; without such a pair the record
    stays as it is.  The loop stops at the first record that throws: the
    records before it are loaded, it and the records after it are as the loops
    of [processCfgFunctions] stored them, and what was thrown leaves
    [processCfgFunctions]. *)
Theorem docstring_needs_a_comment_anywhere
  (cfgFunctions : Hpp.Class) (rootFilename : string) (st : State)
  (fnc : Function) :
  fs_existsSync (filename fnc) = true ->
  let given text :=
    match Docstring_parse text with
    | Returns parsed =>
        Returns {| name := name fnc; filename := filename fnc;
                   info := Some parsed |}
    | Throws error => Throws error
    end in
  let stored := fns (scanCfgFunctions cfgFunctions rootFilename) in
  let result := processCfgFunctions cfgFunctions rootFilename st in
  (JsObject.get (functions (fst result)) rootFilename
   = Some (fst (loadEach stored))
   /\ snd result = snd (loadEach stored)
   /\ exists done rest,
        stored = (done ++ rest)%list
        /\ fst (loadEach stored)
           = (map (fun entry => (fst entry, docsOf (snd entry))) done ++ rest)%list
        /\ (forall key record,
              In (key, record) done ->
              exists loaded, loadDocs record = Returns loaded)
        /\ match snd result with
           | None => rest = []
           | Some error =>
               exists key record rest',
                 rest = (key, record) :: rest'
                 /\ loadDocs record = Throws error
           end)
  /\ (forall error,
        fs_readFileSync (filename fnc) = Throws error ->
        loadDocs fnc = Throws error)
  /\ (forall contents,
        fs_readFileSync (filename fnc) = Returns contents ->
        ((exists a b c,
            contents
            = (a ++ CommentRegex.opener ++ b ++ CommentRegex.closer ++ c)%list
            /\ unbroken b) ->
         exists pre text post,
           contents
           = (pre ++ CommentRegex.opener ++ text ++ CommentRegex.closer
              ++ post)%list
           /\ loadDocs fnc = given text)
        /\ (unbroken contents ->
            forall pre body post,
              contents
              = (pre ++ CommentRegex.opener ++ body ++ CommentRegex.closer
                 ++ post)%list ->
              ~ occurs CommentRegex.opener pre ->
              ~ occurs CommentRegex.closer body ->
              ~ occurs CommentRegex.closer post ->
              loadDocs fnc = given body)
        /\ ((~ exists a b c,
               contents
               = (a ++ CommentRegex.opener ++ b ++ CommentRegex.closer ++ c)%list
               /\ unbroken b) ->
            loadDocs fnc = Returns fnc)).
Proof.
  intros Hexists given stored result. split; [|split].
  - unfold result, stored.
    rewrite processCfgFunctions_functions, processCfgFunctions_thrown,
      get_set_same.
    split; [reflexivity|]. split; [reflexivity|].
    apply loadEach_split.
  - intros error Hread. now apply loadDocs_unreadable.
  - intros contents Hread.
    rewrite (loadDocs_read fnc contents Hexists Hread).
    split; [|split].
    + intros Hpair. apply commentBetween_some_iff in Hpair.
      destruct (commentBetween contents) as [text|] eqn:E; [|congruence].
      apply commentBetween_sound in E as (pre & post & Hc & _).
      now exists pre, text, post.
    + intros Hunbroken pre body post Hc Hpre _ Hpost.
      rewrite commentBetween_unbroken by exact Hunbroken.
      assert (commentSpan contents = Some body) as ->; [|reflexivity].
      apply commentSpan_some_iff. now exists pre, post.
    + intros Hnone. destruct (commentBetween contents) as [text|] eqn:E;
        [|reflexivity].
      exfalso. apply Hnone. apply commentBetween_some_iff. congruence.
Qed.

(* ------------------------------------------------------------------ *)
(** * Further properties of the module *)

(** ** Objects filled by a loop *)

Lemma In_get {V : Type} (o : JsObject.t V) (k : string) (v : V) :
  In (k, v) o -> exists v', JsObject.get o k = Some v'.
Proof.
  induction o as [|[k' v'] o IH]; simpl; [contradiction|].
  intros [H | H].
  - injection H as -> ->. rewrite String.eqb_refl. now eexists.
  - destruct (String.eqb k' k); [now eexists | now apply IH].
Qed.

Lemma keys_In_get {V : Type} (o : JsObject.t V) (k : string) :
  In k (JsObject.keys o) <-> exists v, JsObject.get o k = Some v.
Proof.
  split.
  - intros H. apply in_map_iff in H as [[k' v] [Hk Hin]]. simpl in Hk. subst k'.
    now apply In_get in Hin.
  - intros [v H]. apply get_In in H. apply in_map_iff. now exists (k, v).
Qed.

Lemma keys_set {V : Type} (o : JsObject.t V) (k x : string) (v : V) :
  In x (JsObject.keys (JsObject.set o k v)) <-> In x (JsObject.keys o) \/ x = k.
Proof.
  split; [apply keys_set_In|].
  intros H. apply keys_In_get.
  destruct (String.eqb_spec k x) as [->|Hne].
  - exists v. apply get_set_same.
  - destruct H as [H | ->]; [|congruence].
    apply keys_In_get in H as [w Hw]. exists w.
    now rewrite get_set_other.
Qed.

Lemma length_set {V : Type} (o : JsObject.t V) (k : string) (v : V) :
  List.length (JsObject.set o k v) <= S (List.length o).
Proof.
  induction o as [|[k' v'] o IH]; simpl; [lia|].
  destruct (String.eqb k' k); simpl; lia.
Qed.

Section FilledByLoop.

Context {A V : Type} (key : A -> string) (val : A -> V).

Lemma filled_keep (xs : list A) (o : JsObject.t V) (k : string) :
  ~ In k (map key xs) ->
  JsObject.get (fold_left (fun o x => JsObject.set o (key x) (val x)) xs o) k
  = JsObject.get o k.
Proof.
  revert o. induction xs as [|x xs IH]; intros o Hk; [reflexivity|].
  simpl. rewrite IH by (intros H; apply Hk; now right).
  apply get_set_other. intros H. apply Hk. now left.
Qed.

(** Under a key that the loop wrote the object holds what the last element
    with that key gave. *)
Lemma filled_last (xs : list A) (o : JsObject.t V) (k : string) :
  In k (map key xs) ->
  exists x,
    In x xs /\ key x = k /\ lastWith key k xs x
    /\ JsObject.get (fold_left (fun o x => JsObject.set o (key x) (val x)) xs o) k
       = Some (val x).
Proof.
  revert o. induction xs as [|x0 xs IH]; intros o Hin; [destruct Hin|].
  simpl. destruct (in_dec string_dec k (map key xs)) as [Hlater | Hnot].
  - destruct (IH (JsObject.set o (key x0) (val x0)) Hlater)
      as (x & Hx & Hk & (before & after & -> & _ & Hafter) & Hget).
    exists x. split; [now right|]. split; [exact Hk|]. split; [|exact Hget].
    now exists (x0 :: before), after.
  - destruct Hin as [<- | Hin]; [|contradiction].
    exists x0. split; [now left|]. split; [reflexivity|]. split.
    + now exists [], xs.
    + rewrite filled_keep by exact Hnot. apply get_set_same.
Qed.

Lemma filled_keys (xs : list A) (o : JsObject.t V) (k : string) :
  In k (JsObject.keys
          (fold_left (fun o x => JsObject.set o (key x) (val x)) xs o))
  <-> In k (JsObject.keys o) \/ In k (map key xs).
Proof.
  revert o. induction xs as [|x xs IH]; intros o; simpl.
  - split; [now left | now intros [H | []]].
  - rewrite IH, keys_set. split.
    + intros [[H | ->] | H]; [now left | right; now left | right; now right].
    + intros [H | [<- | H]]; [left; now left | left; now right | now right].
Qed.

Lemma filled_NoDup (xs : list A) (o : JsObject.t V) :
  NoDup (JsObject.keys o) ->
  NoDup (JsObject.keys
           (fold_left (fun o x => JsObject.set o (key x) (val x)) xs o)).
Proof.
  apply (fold_left_invariant (fun o => NoDup (JsObject.keys o))).
  intros a b. apply keys_set_NoDup.
Qed.

Lemma filled_length (xs : list A) (o : JsObject.t V) :
  List.length (fold_left (fun o x => JsObject.set o (key x) (val x)) xs o)
  <= List.length o + List.length xs.
Proof.
  revert o. induction xs as [|x xs IH]; intros o; simpl; [lia|].
  specialize (IH (JsObject.set o (key x) (val x))).
  pose proof (length_set o (key x) (val x)). lia.
Qed.

End FilledByLoop.

(** ** Completion in description.ext *)

Lemma completeDocumentation_filter (queried : string) (st : State)
  (items : list Lsp.CompletionItem) :
  completeDocumentation queried st items
  = (items ++
     map (fun entry => propertyItem (fst entry) (snd entry))
       (filter (fun entry => JsString.startsWith (fst entry) queried)
          (documentation st)))%list.
Proof.
  unfold completeDocumentation. generalize (documentation st) as docs.
  intros docs. revert items.
  induction docs as [|entry docs IH]; intros items; simpl.
  - now rewrite app_nil_r.
  - rewrite IH, identMatches_startsWith.
    destruct (JsString.startsWith (fst entry) queried); [|reflexivity].
    simpl. now rewrite <- app_assoc.
Qed.

Lemma onCompletion_shape (uri queried : string) (st : State) :
  onCompletion uri queried st
  = ((if String.eqb (JsString.toLowerCase (path_extname uri)) ".sqf" then
        map (fun entry => functionItem (fst entry) (snd entry))
          (filter (fun entry => JsString.startsWith (fst entry) queried)
             (flat_map snd (functions st)))
      else [])
     ++
     (if String.eqb (JsString.toLowerCase (path_basename uri)) "description.ext"
      then
        map (fun entry => propertyItem (fst entry) (snd entry))
          (filter (fun entry => JsString.startsWith (fst entry) queried)
             (documentation st))
      else []))%list.
Proof.
  unfold onCompletion.
  destruct (String.eqb (JsString.toLowerCase (path_extname uri)) ".sqf");
    destruct (String.eqb (JsString.toLowerCase (path_basename uri))
                "description.ext");
    rewrite ?completeDocumentation_filter, ?completeFunctions_filter;
    rewrite ?app_nil_r; reflexivity.
Qed.

(** X1.  [onCompletion] answers with the functions, when the document has the
    extension .sqf (in any case), followed by the properties of
    description.ext, when the document is called description.ext (in any
    case), and with nothing for any other document.  The functions and the
    properties offered are those whose key starts with the prefix as typed,
    in the order of the tables; a property carries its name, its key, the text
    to insert for its type and its description. *)
Theorem completion_by_document_kind (uri queried : string) (st : State) :
  onCompletion uri queried st
  = ((if String.eqb (JsString.toLowerCase (path_extname uri)) ".sqf" then
        map (fun entry => functionItem (fst entry) (snd entry))
          (filter (fun entry => JsString.startsWith (fst entry) queried)
             (flat_map snd (functions st)))
      else [])
     ++
     (if String.eqb (JsString.toLowerCase (path_basename uri)) "description.ext"
      then
        map (fun entry => propertyItem (fst entry) (snd entry))
          (filter (fun entry => JsString.startsWith (fst entry) queried)
             (documentation st))
      else []))%list.
Proof. apply onCompletion_shape. Qed.

(** ** The documentation table *)

(** X2.  Once [loadDocumentation] has read its file, every property of the
    file is found by [onHover], in a description.ext that is no function
    document, under its lower-cased name: the answer is the description and
    the link of the last property of the file with that lower-cased name.
    The function tables are as they were.  (No property is called
    [__proto__], in any casing: writing that key would not add a property.) *)
Theorem loaded_properties_are_found_in_lower_case
  (items : list Documentation) (st st' : State) (uri : string)
  (item : Documentation) :
  loadDocumentationCallback (Some items) st = Some st' ->
  (forall other,
     In other items -> JsString.toLowerCase (doc_name other) <> "__proto__") ->
  JsString.toLowerCase (path_extname uri) <> ".sqf" ->
  JsString.toLowerCase (path_basename uri) = "description.ext" ->
  In item items ->
  functions st' = functions st
  /\ exists last,
       lastWith (fun i => JsString.toLowerCase (doc_name i))
         (JsString.toLowerCase (doc_name item)) items last
       /\ onHover uri (JsString.toLowerCase (doc_name item)) st'
          = Some {| Lsp.contents :=
                      doc_description last ++ " _([more info]("
                      ++ doc_link last ++ "))_" |}.
Proof.
  intros Hload _ Hsqf Hdesc Hitem. injection Hload as <-.
  split; [reflexivity|].
  destruct (filled_last (fun i => JsString.toLowerCase (doc_name i))
              (fun i => i) items (documentation st)
              (JsString.toLowerCase (doc_name item)))
    as (last & _ & _ & Hlast & Hget).
  { apply in_map_iff. now exists item. }
  exists last. split; [exact Hlast|].
  unfold onHover.
  destruct (String.eqb_spec (JsString.toLowerCase (path_extname uri)) ".sqf")
    as [E|_]; [contradiction|].
  rewrite Hdesc, String.eqb_refl. cbn [documentation set_documentation].
  now rewrite (lookup_own _ _ _ Hget).
Qed.

(** ** The names of the functions and [Object.prototype] *)

Lemma toLowerCase_append (a b : string) :
  JsString.toLowerCase (a ++ b)
  = JsString.toLowerCase a ++ JsString.toLowerCase b.
Proof. induction a as [|c a IH]; simpl; [reflexivity | now rewrite IH]. Qed.

Lemma hasInfix_append (l a b : string) : hasInfix l (a ++ l ++ b) = true.
Proof.
  induction a as [|c a IH].
  - cbn [append]. destruct (l ++ b) eqn:E; cbn [hasInfix];
      rewrite <- E, startsWith_append; reflexivity.
  - cbn [append hasInfix]. rewrite IH. apply orb_true_r.
Qed.

(** No key of [Object.prototype] has [_fnc_] in it. *)
Lemma inherited_has_no_fnc (k : string) :
  hasInfix "_fnc_" k = true -> JsObject.inherited k = false.
Proof.
  intros H. unfold JsObject.inherited, JsObject.prototype.
  repeat (cbn [JsObject.get];
          match goal with
          | |- context [String.eqb ?m k] =>
              destruct (String.eqb_spec m k) as [<-|_]; [discriminate H|]
          end).
  reflexivity.
Qed.

Lemma qualified_not_inherited (d : Declaration) :
  JsObject.inherited (JsString.toLowerCase (qualifiedName d)) = false.
Proof.
  apply inherited_has_no_fnc. unfold qualifiedName, fullFunctionNameOf.
  rewrite !toLowerCase_append. apply hasInfix_append.
Qed.

(** ** What the records of the tables are *)

Lemma act_functions (a : Action) (st : State) :
  functions (act st a) = functions st
  \/ exists context cfgFunctions rootFilename,
       snd (Hpp_parse rootFilename) = Hpp.Parsed context
       /\ JsObject.get (Hpp.classes context) "cfgfunctions" = Some cfgFunctions
       /\ functions (act st a)
          = JsObject.set (functions st) rootFilename
              (fst (loadEach (fns (scanCfgFunctions cfgFunctions rootFilename)))).
Proof.
  assert (forall t s,
            functions (run_task t s) = functions s
            \/ exists context cfgFunctions rootFilename,
                 snd (Hpp_parse rootFilename) = Hpp.Parsed context
                 /\ JsObject.get (Hpp.classes context) "cfgfunctions"
                    = Some cfgFunctions
                 /\ functions (run_task t s)
                    = JsObject.set (functions s) rootFilename
                        (fst (loadEach
                                (fns (scanCfgFunctions cfgFunctions rootFilename)))))
    as Htask.
  { intros [root configured | filename] s; cbn [run_task].
    - left. now rewrite globCallback_functions.
    - rewrite parseFileCallback_spec. cbn [functions].
      destruct (snd (Hpp_parse filename)) as [context|error|error] eqn:E;
        try now left.
      destruct (JsObject.get _ _) as [cfgFunctions|] eqn:Ecfg; [|now left].
      right. now exists context, cfgFunctions, filename. }
  destruct a as [root | fsPath | | k]; cbn [act].
  - left. apply indexWorkspace_functions.
  - left. apply parseDocumentTask_functions.
  - unfold turn. destruct (pending st) as [|t rest]; [now left|].
    match goal with
    | |- context [run_task t ?s] =>
        destruct (Htask t s) as [H | H]; cbn [functions] in H;
          [left | right]; exact H
    end.
  - unfold turnOf. destruct (nth_error (pending st) k) as [t|]; [|now left].
    match goal with
    | |- context [run_task t ?s] =>
        destruct (Htask t s) as [H | H]; cbn [functions] in H;
          [left | right]; exact H
    end.
Qed.

(** A property of the entries of every table that a pass leaves is a
    property of the entries of every table there is. *)
Lemma tables_after (Q : string -> string -> Function -> Prop) :
  (forall context cfgFunctions rootFilename key fnc,
     snd (Hpp_parse rootFilename) = Hpp.Parsed context ->
     JsObject.get (Hpp.classes context) "cfgfunctions" = Some cfgFunctions ->
     In (key, fnc)
       (fst (loadEach (fns (scanCfgFunctions cfgFunctions rootFilename)))) ->
     Q rootFilename key fnc) ->
  forall docs actions root table key fnc,
    In (root, table) (functions (after actions (initial docs))) ->
    In (key, fnc) table -> Q root key fnc.
Proof.
  intros Hscan docs actions.
  assert (forall st,
            (forall root table key fnc,
               In (root, table) (functions st) -> In (key, fnc) table ->
               Q root key fnc) ->
            forall root table key fnc,
              In (root, table) (functions (after actions st)) ->
              In (key, fnc) table -> Q root key fnc) as Hafter.
  { unfold after. induction actions as [|a actions IH]; intros st Hst;
      [exact Hst|].
    cbn [fold_left]. apply IH. intros root table key fnc Hroot Hin.
    destruct (act_functions a st)
      as [Heq | (context & cfgFunctions & rf & Hparsed & Hcfg & Heq)];
      rewrite Heq in Hroot.
    - now apply (Hst root table).
    - apply In_set in Hroot as [Hroot | Hnew].
      + now apply (Hst root table).
      + injection Hnew as -> ->.
        now apply (Hscan context cfgFunctions rf). }
  apply Hafter. intros root table key fnc [].
Qed.

Lemma filled_entries {A V : Type} (key : A -> string) (val : A -> V)
  (xs : list A) (o : JsObject.t V) (e : string * V) :
  In e (fold_left (fun o x => JsObject.set o (key x) (val x)) xs o) ->
  In e o \/ exists x, In x xs /\ e = (key x, val x).
Proof.
  revert o. induction xs as [|x xs IH]; intros o Hin; [now left|].
  cbn [fold_left] in Hin. apply IH in Hin as [Hin | (y & Hy & ->)].
  - apply In_set in Hin as [Hin | ->]; [now left|].
    right. exists x. split; [now left | reflexivity].
  - right. exists y. split; [now right | reflexivity].
Qed.

Lemma scanned_entry (cfgFunctions : Hpp.Class) (rootFilename key : string)
  (fnc : Function) :
  In (key, fnc)
    (fst (loadEach (fns (scanCfgFunctions cfgFunctions rootFilename)))) ->
  exists d,
    In d (declarations cfgFunctions)
    /\ key = JsString.toLowerCase (qualifiedName d)
    /\ (fnc = recordOf rootFilename d
        \/ loadDocs (recordOf rootFilename d) = Returns fnc).
Proof.
  intros Hin. apply loadEach_In in Hin as (stored & Hin & Hor).
  rewrite scan_fns in Hin.
  apply (filled_entries (fun d => JsString.toLowerCase (qualifiedName d))
           (recordOf rootFilename)) in Hin as [[] | (d & Hd & Heq)].
  injection Heq as -> ->. now exists d.
Qed.

(** Every record of every table is what a pass over the root of the table
    made of a function class of the registry that the parser returns for
    that root. *)
Lemma table_entries_are_declared (docs : JsObject.t Documentation)
  (actions : list Action) (root key : string) (table : JsObject.t Function)
  (fnc : Function) :
  In (root, table) (functions (after actions (initial docs))) ->
  In (key, fnc) table ->
  exists context cfgFunctions d,
    snd (Hpp_parse root) = Hpp.Parsed context
    /\ JsObject.get (Hpp.classes context) "cfgfunctions" = Some cfgFunctions
    /\ In d (declarations cfgFunctions)
    /\ key = JsString.toLowerCase (qualifiedName d)
    /\ (fnc = recordOf root d \/ loadDocs (recordOf root d) = Returns fnc).
Proof.
  apply (tables_after
           (fun root key fnc =>
              exists context cfgFunctions d,
                snd (Hpp_parse root) = Hpp.Parsed context
                /\ JsObject.get (Hpp.classes context) "cfgfunctions"
                   = Some cfgFunctions
                /\ In d (declarations cfgFunctions)
                /\ key = JsString.toLowerCase (qualifiedName d)
                /\ (fnc = recordOf root d
                    \/ loadDocs (recordOf root d) = Returns fnc))).
  intros context cfgFunctions rootFilename k f Hparsed Hcfg Hin.
  exists context, cfgFunctions.
  destruct (scanned_entry cfgFunctions rootFilename k f Hin) as (d & H).
  exists d. now repeat split; try apply H.
Qed.

Lemma stored_keys_not_inherited (docs : JsObject.t Documentation)
  (actions : list Action) (root key : string) (table : JsObject.t Function)
  (fnc : Function) :
  In (root, table) (functions (after actions (initial docs))) ->
  In (key, fnc) table ->
  JsObject.inherited key = false.
Proof.
  intros Hroot Hin.
  destruct (table_entries_are_declared docs actions root key table fnc Hroot Hin)
    as (_ & _ & d & _ & _ & _ & -> & _).
  apply qualified_not_inherited.
Qed.

(** ** Lookups that agree *)

Lemma firstOwn_some (tables : JsObject.t (JsObject.t Function))
  (root key : string) (table : JsObject.t Function) :
  In (root, table) tables -> In key (JsObject.keys table) ->
  exists item, firstOwn tables key = Some item.
Proof.
  intros Hroot Hkey. induction tables as [|[r t] tables IH]; [destruct Hroot|].
  simpl. destruct (JsObject.get t key) as [found|] eqn:E; [now eexists|].
  destruct Hroot as [Heq | Hroot]; [|now apply IH].
  injection Heq as -> ->. apply keys_In_get in Hkey as [v Hv]. congruence.
Qed.

Lemma firstDefined_key (docs : JsObject.t Documentation) (actions : list Action)
  (key : string) (item : Function) :
  firstDefined (functions (after actions (initial docs))) key
  = Some (JsObject.Own item) ->
  key = JsString.toLowerCase (name item).
Proof.
  intros H. apply firstDefined_Own in H as (root & table & Hin & Hget).
  apply get_In in Hget.
  apply (keys_lowercased_after actions (initial docs)
           (fun _ _ _ _ H => match H with end) root table key item Hin Hget).
Qed.

(** X3.  The record that [getFunction] returns for a name has that name, case
    apart; [onDefinition] then points at the file of that record and nothing
    else, and [onHover], asked in a function document for the lower-cased
    name, describes the same record. *)
Theorem lookup_returns_the_queried_function
  (docs : JsObject.t Documentation) (actions : list Action)
  (queried : string) (item : Function) :
  let st := after actions (initial docs) in
  getFunction queried st = Some (JsObject.Own item) ->
  JsString.toLowerCase (name item) = JsString.toLowerCase queried
  /\ onDefinition queried st
     = Returns
         [ {| Lsp.loc_uri := Uri_file (filename item);
              Lsp.loc_range :=
                {| Lsp.start := {| Lsp.line := 0; Lsp.character := 0 |};
                   Lsp.end_ := {| Lsp.line := 0; Lsp.character := 1 |} |} |} ]
  /\ forall uri,
       JsString.toLowerCase (path_extname uri) = ".sqf" ->
       onHover uri (JsString.toLowerCase queried) st
       = Some {| Lsp.contents := hoverContents item |}.
Proof.
  intros st Hfound. split; [|split].
  - symmetry. now apply (firstDefined_key docs actions).
  - unfold onDefinition. now rewrite Hfound.
  - intros uri Hsqf. unfold onHover. rewrite Hsqf, String.eqb_refl.
    unfold getFunction in Hfound. fold st. now rewrite Hfound.
Qed.

(** X4.  Every function that [onCompletion] offers in a function document can
    be looked up: its label, whatever its case, leads [getFunction] to a
    record whose lower-cased name is the key that the item carries, and
    [onDefinition] to one location, the file of that record. *)
Theorem completed_functions_have_definitions
  (docs : JsObject.t Documentation) (actions : list Action)
  (uri queried : string) (item : Lsp.CompletionItem) :
  let st := after actions (initial docs) in
  JsString.toLowerCase (path_extname uri) = ".sqf" ->
  JsString.toLowerCase (path_basename uri) <> "description.ext" ->
  In item (onCompletion uri queried st) ->
  JsString.startsWith (Lsp.data item) queried = true
  /\ Lsp.data item = JsString.toLowerCase (Lsp.label item)
  /\ exists fnc,
       getFunction (Lsp.label item) st = Some (JsObject.Own fnc)
       /\ JsString.toLowerCase (name fnc) = Lsp.data item
       /\ onDefinition (Lsp.label item) st
          = Returns [locationOf (Uri_file (filename fnc))].
Proof.
  intros st Hsqf Hdesc Hitem.
  rewrite onCompletion_shape, Hsqf, String.eqb_refl in Hitem.
  destruct (String.eqb_spec (JsString.toLowerCase (path_basename uri))
              "description.ext") as [E|_]; [contradiction|].
  rewrite app_nil_r in Hitem.
  apply in_map_iff in Hitem as [[key fnc] [<- Hin]].
  apply filter_In in Hin as [Hin Hstarts]. cbn [fst snd] in *.
  apply in_flat_map in Hin as [[root table] [Hroot Hin]]. cbn [snd] in Hin.
  pose proof (keys_lowercased_after actions (initial docs)
                (fun _ _ _ _ H => match H with end) root table key fnc Hroot Hin)
    as Hkey.
  pose proof (stored_keys_not_inherited docs actions root key table fnc Hroot Hin)
    as Hplain.
  split; [exact Hstarts|]. split; [exact Hkey|].
  destruct (firstOwn_some (functions st) root key table Hroot) as [found Hfound].
  { apply in_map_iff. now exists (key, fnc). }
  exists found.
  assert (getFunction (name fnc) st = Some (JsObject.Own found)) as Hget.
  { unfold getFunction. rewrite <- Hkey, firstDefined_plain by exact Hplain.
    now rewrite Hfound. }
  split; [exact Hget|]. split.
  - cbn [functionItem Lsp.data]. symmetry.
    apply (firstDefined_key docs actions).
    unfold getFunction in Hget. rewrite <- Hkey in Hget. exact Hget.
  - unfold onDefinition. cbn [functionItem Lsp.label]. now rewrite Hget.
Qed.

(** ** What a pass publishes *)



(** ** The table of a root after a pass *)

Lemma keys_set_order {V : Type} (o : JsObject.t V) (k : string) (v : V) :
  JsObject.keys (JsObject.set o k v)
  = match JsObject.get o k with
    | Some _ => JsObject.keys o
    | None => (JsObject.keys o ++ [k])%list
    end.
Proof.
  induction o as [|[k' v'] o IH]; [reflexivity|].
  cbn [JsObject.set JsObject.get]. destruct (String.eqb k' k); [reflexivity|].
  unfold JsObject.keys in *. cbn [map fst]. rewrite IH.
  now destruct (JsObject.get o k).
Qed.

(** X7.  [processCfgFunctions] puts a new table in the place of the table of
    its root: the keys of the new table are the lower-cased names of the
    function classes of the registry it was given and no others, each once, so
    a function of an earlier pass that the registry no longer declares is
    gone, and a registry without functions leaves an empty table.  The tables
    of the other roots are as they were, and so is the order of the roots: a
    root indexed again keeps its place, a new root goes last. *)
Theorem pass_replaces_the_table_of_its_root
  (cfgFunctions : Hpp.Class) (rootFilename : string) (st : State) :
  let st' := fst (processCfgFunctions cfgFunctions rootFilename st) in
  exists table,
    JsObject.get (functions st') rootFilename = Some table
    /\ NoDup (JsObject.keys table)
    /\ (forall key,
          In key (JsObject.keys table)
          <-> exists d,
                In d (declarations cfgFunctions)
                /\ JsString.toLowerCase (qualifiedName d) = key)
    /\ (declarations cfgFunctions = [] -> table = [])
    /\ (forall other,
          other <> rootFilename ->
          JsObject.get (functions st') other = JsObject.get (functions st) other)
    /\ JsObject.keys (functions st')
       = match JsObject.get (functions st) rootFilename with
         | Some _ => JsObject.keys (functions st)
         | None => (JsObject.keys (functions st) ++ [rootFilename])%list
         end.
Proof.
  intros st'. unfold st'. rewrite processCfgFunctions_functions.
  eexists. split; [apply get_set_same|].
  rewrite loadEach_keys, scan_fns. split; [|split; [|split; [|split]]].
  - apply (filled_NoDup (fun d => JsString.toLowerCase (qualifiedName d))
             (recordOf rootFilename)). constructor.
  - intros key.
    rewrite (filled_keys (fun d => JsString.toLowerCase (qualifiedName d))
               (recordOf rootFilename)).
    split.
    + intros [[] | H]. apply in_map_iff in H as [d [Hk Hd]]. now exists d.
    + intros [d [Hd Hk]]. right. apply in_map_iff. now exists d.
  - intros ->. reflexivity.
  - intros other Hne. now apply get_set_other.
  - apply keys_set_order.
Qed.

(** X8.  The total that [processCfgFunctions] logs is the number of function
    classes that its loops met.  The table has at most that many entries:
    function classes whose qualified names differ in case only, or not at
    all, are counted one by one and share an entry. *)
Theorem logged_total_counts_function_classes
  (cfgFunctions : Hpp.Class) (rootFilename : string) (st : State) :
  let st' := fst (processCfgFunctions cfgFunctions rootFilename st) in
  In (LoggerDebug
        ("Detected a total of "
         ++ JsString.of_nat (List.length (declarations cfgFunctions))
         ++ " in " ++ rootFilename))
    (trace st')
  /\ exists table,
       JsObject.get (functions st') rootFilename = Some table
       /\ List.length table <= List.length (declarations cfgFunctions).
Proof.
  intros st'. unfold st'. split.
  - rewrite processCfgFunctions_trace. unfold scanEvents. cbv zeta.
    rewrite scan_count.
    apply in_or_app. right. apply in_or_app. right. now left.
  - rewrite processCfgFunctions_functions. eexists.
    split; [apply get_set_same|].
    rewrite loadEach_length, scan_fns.
    apply (filled_length (fun d => JsString.toLowerCase (qualifiedName d))
             (recordOf rootFilename) (declarations cfgFunctions) []).
Qed.

(** ** Where the docstrings come from *)

Lemma loadDocs_info (fnc loaded : Function) :
  info fnc = None ->
  loadDocs fnc = Returns loaded ->
  (fs_existsSync (filename fnc) = false -> info loaded = None)
  /\ (forall i,
        info loaded = Some i ->
        fs_existsSync (filename fnc) = true
        /\ exists contents pre text post,
             fs_readFileSync (filename fnc) = Returns contents
             /\ contents
                = (pre ++ CommentRegex.opener ++ text ++ CommentRegex.closer
                   ++ post)%list
             /\ unbroken text
             /\ Docstring_parse text = Returns i)
  /\ (forall contents,
        fs_readFileSync (filename fnc) = Returns contents ->
        (~ exists a b c,
             contents
             = (a ++ CommentRegex.opener ++ b ++ CommentRegex.closer ++ c)%list
             /\ unbroken b) ->
        info loaded = None).
Proof.
  intros Hnone. unfold loadDocs.
  destruct (fs_existsSync (filename fnc)) eqn:Hexists.
  - destruct (fs_readFileSync (filename fnc)) as [contents|error] eqn:Hread;
      [|discriminate].
    rewrite exec_commentBetween.
    destruct (commentBetween contents) as [text|] eqn:E.
    + destruct (Docstring_parse text) as [parsed|error] eqn:Hparse;
        [|discriminate].
      intros [= <-]. cbn [info]. split; [discriminate|]. split.
      * intros i [= <-]. split; [reflexivity|].
        apply commentBetween_sound in E as (pre & post & Hc & Hu).
        now exists contents, pre, text, post.
      * intros c [= <-] Hnopair. exfalso. apply Hnopair.
        apply commentBetween_some_iff. congruence.
    + intros [= <-]. split; [discriminate|]. split; [congruence|].
      now intros.
  - intros [= <-]. split; [now intros _|]. split; [congruence|].
    now intros.
Qed.

Lemma docstrings_come_from_files
  (docs : JsObject.t Documentation) (actions : list Action)
  (root key : string) (table : JsObject.t Function) (fnc : Function) :
  In (root, table) (functions (after actions (initial docs))) ->
  In (key, fnc) table ->
  (fs_existsSync (filename fnc) = false -> info fnc = None)
  /\ (forall i,
        info fnc = Some i ->
        fs_existsSync (filename fnc) = true
        /\ exists contents pre text post,
             fs_readFileSync (filename fnc) = Returns contents
             /\ contents
                = (pre ++ CommentRegex.opener ++ text ++ CommentRegex.closer
                   ++ post)%list
             /\ unbroken text
             /\ Docstring_parse text = Returns i).
Proof.
  intros Hroot Hin.
  destruct (table_entries_are_declared docs actions root key table fnc Hroot Hin)
    as (_ & _ & d & _ & _ & _ & _ & [-> | Hloaded]).
  - split; [reflexivity | discriminate].
  - destruct (loadDocs_name _ _ Hloaded) as [_ Hfile].
    cbn [recordOf filename] in Hfile.
    destruct (loadDocs_info (recordOf root d) fnc eq_refl Hloaded)
      as (Hmissing & Hsome & _).
    cbn [recordOf filename] in Hmissing, Hsome. rewrite Hfile.
    now split.
Qed.

(** X9.  In every table, a record has an [info] only if its file exists and
    was read, and the text of the file has an opener and, after it, a closer
    with neither U+2028 nor U+2029 between them; the [info] is then what the
    docstring parser returned for the text between such an opener and such a
    closer.  A record whose file is missing has none. *)
Theorem docstrings_come_from_existing_files
  (docs : JsObject.t Documentation) (actions : list Action)
  (root key : string) (table : JsObject.t Function) (fnc : Function) :
  In (root, table) (functions (after actions (initial docs))) ->
  In (key, fnc) table ->
  (fs_existsSync (filename fnc) = false -> info fnc = None)
  /\ (forall i,
        info fnc = Some i ->
        fs_existsSync (filename fnc) = true
        /\ exists contents pre text post,
             fs_readFileSync (filename fnc) = Returns contents
             /\ contents
                = (pre ++ CommentRegex.opener ++ text ++ CommentRegex.closer
                   ++ post)%list
             /\ unbroken text
             /\ Docstring_parse text = Returns i).
Proof. apply docstrings_come_from_files. Qed.

Lemma declared_inv (cfgFunctions : Hpp.Class) (d : Declaration) :
  In d (declarations cfgFunctions) ->
  exists tagKey tagClass categoryKey categoryClass functionKey functionClass,
    In (tagKey, tagClass) (Hpp.classes (Hpp.body cfgFunctions))
    /\ In (categoryKey, categoryClass) (Hpp.classes (Hpp.body tagClass))
    /\ In (functionKey, functionClass) (Hpp.classes (Hpp.body categoryClass))
    /\ d = (categoryTagOf (tagOf tagClass) categoryClass,
            categoryPathOf categoryClass, functionClass).
Proof.
  unfold declarations. intros H.
  apply in_flat_map in H as [[tagKey tagClass] [Htag H]].
  apply in_flat_map in H as [[categoryKey categoryClass] [Hcategory H]].
  apply in_map_iff in H as [[functionKey functionClass] [<- Hfunction]].
  now exists tagKey, tagClass, categoryKey, categoryClass, functionKey,
    functionClass.
Qed.

(** X10.  Every record of every table was stored by a pass over its root:
    the parser returns for the root a tree with a registry, and the registry
    has a tag group, in it a category and in that a function class, such that
    the name of the record is [<tag>_fnc_<class name>], the tag being that of
    the category or else of the group, its key is that name in lower case,
    and its file is the declared file name of the class, under the path of
    the category, resolved against the directory of the root (or through an
    include prefix). *)
Theorem records_are_declared_functions
  (docs : JsObject.t Documentation) (actions : list Action)
  (root key : string) (table : JsObject.t Function) (fnc : Function) :
  In (root, table) (functions (after actions (initial docs))) ->
  In (key, fnc) table ->
  exists context cfgFunctions tagKey tagClass categoryKey categoryClass
         functionKey functionClass,
    snd (Hpp_parse root) = Hpp.Parsed context
    /\ JsObject.get (Hpp.classes context) "cfgfunctions" = Some cfgFunctions
    /\ In (tagKey, tagClass) (Hpp.classes (Hpp.body cfgFunctions))
    /\ In (categoryKey, categoryClass) (Hpp.classes (Hpp.body tagClass))
    /\ In (functionKey, functionClass) (Hpp.classes (Hpp.body categoryClass))
    /\ name fnc
       = categoryTagOf (tagOf tagClass) categoryClass ++ "_fnc_"
         ++ Hpp.name functionClass
    /\ key = JsString.toLowerCase (name fnc)
    /\ filename fnc
       = resolveFilename (path_dirname root)
           (declaredFilename (categoryPathOf categoryClass) functionClass).
Proof.
  intros Hroot Hin.
  destruct (table_entries_are_declared docs actions root key table fnc Hroot Hin)
    as (context & cfgFunctions & d & Hparsed & Hcfg & Hd & -> & Hor).
  destruct (declared_inv cfgFunctions d Hd)
    as (tagKey & tagClass & categoryKey & categoryClass & functionKey
        & functionClass & Htag & Hcategory & Hfunction & ->).
  exists context, cfgFunctions, tagKey, tagClass, categoryKey, categoryClass,
    functionKey, functionClass.
  assert (name fnc
          = qualifiedName (categoryTagOf (tagOf tagClass) categoryClass,
                           categoryPathOf categoryClass, functionClass)
          /\ filename fnc
             = resolvedFile root
                 (categoryTagOf (tagOf tagClass) categoryClass,
                  categoryPathOf categoryClass, functionClass)) as [Hn Hf].
  { destruct Hor as [-> | Hloaded]; [now split|].
    now apply loadDocs_name in Hloaded. }
  rewrite Hn, Hf. now repeat split.
Qed.

(** X11.  In a function document, the hover of a function without docstring -
    its file is missing, or has no opener followed, before any U+2028 or
    U+2029, by a closer - is the bare signature: it takes ANY and no
    description, parameter or return type is shown. *)
Theorem hover_without_docstring
  (docs : JsObject.t Documentation) (actions : list Action)
  (uri queried : string) (fnc : Function) :
  let st := after actions (initial docs) in
  JsString.toLowerCase (path_extname uri) = ".sqf" ->
  firstDefined (functions st) queried = Some (JsObject.Own fnc) ->
  (fs_existsSync (filename fnc) = false
   \/ forall contents,
        fs_readFileSync (filename fnc) = Returns contents ->
        ~ exists a b c,
            contents
            = (a ++ CommentRegex.opener ++ b ++ CommentRegex.closer ++ c)%list
            /\ unbroken b) ->
  onHover uri queried st
  = Some {| Lsp.contents :=
              "```sqf" ++ JsString.CRLF ++ "(function) ANY call " ++ name fnc
              ++ JsString.CRLF ++ "```" |}.
Proof.
  intros st Hsqf Hfound Hnodoc.
  assert (info fnc = None) as Hinfo.
  { apply firstDefined_Own in Hfound as (root & table & Hroot & Hget).
    apply get_In in Hget.
    destruct (docstrings_come_from_files docs actions root queried table fnc
                Hroot Hget) as (Hmissing & Hsome).
    destruct Hnodoc as [Hnofile | Hnopair]; [now apply Hmissing|].
    destruct (info fnc) as [i|] eqn:Ei; [|reflexivity].
    destruct (Hsome i eq_refl)
      as (_ & contents & pre & text & post & Hread & Hc & Hu & _).
    exfalso. apply (Hnopair contents Hread). now exists pre, text, post. }
  unfold onHover. rewrite Hsqf, String.eqb_refl. fold st. rewrite Hfound.
  unfold hoverOf, hoverContents. rewrite Hinfo. reflexivity.
Qed.

(** ** The comment expression *)

(** X12.  [commentRegex.exec] is neither anchored nor lazy, and its group
    holds every unit but U+2028 and U+2029.  It finds a match exactly when
    the text has an opener and, somewhere after it with neither of these two
    units in between, a closer, whatever stands before the opener; its group
    then stands between an opener and a closer of the text.  In a text
    without these two units the group runs from the first opener of the file
    to the last closer of the file, other openers and closers in between
    included. *)
Theorem comment_expression_runs_from_first_opener_to_last_closer
  (contents : JsText.t) :
  (CommentRegex.exec contents <> None
   <-> exists a b c,
         contents
         = (a ++ CommentRegex.opener ++ b ++ CommentRegex.closer ++ c)%list
         /\ unbroken b)
  /\ (forall group1,
        CommentRegex.exec contents = Some group1 ->
        unbroken group1
        /\ exists pre post,
             contents
             = (pre ++ CommentRegex.opener ++ group1 ++ CommentRegex.closer
                ++ post)%list)
  /\ (unbroken contents ->
      forall group1,
        CommentRegex.exec contents = Some group1
        <-> exists pre post,
              contents
              = (pre ++ CommentRegex.opener ++ group1 ++ CommentRegex.closer
                 ++ post)%list
              /\ ~ occurs CommentRegex.opener pre
              /\ ~ occurs CommentRegex.closer post).
Proof.
  rewrite exec_commentBetween. split; [|split].
  - apply commentBetween_some_iff.
  - intros group1 H. apply commentBetween_sound in H as (pre & post & Hc & Hu).
    split; [exact Hu | now exists pre, post].
  - intros Hu group1. rewrite commentBetween_unbroken by exact Hu.
    apply commentSpan_some_iff.
Qed.

(** ** Indexing a workspace, to the end *)

(** X13.  Without discovery, [indexWorkspace] called when no callback waits
    queues the configured files and the description.ext of the root that
    exist; after one turn for each of them no callback waits any more and
    every one of these files was attempted - its callback started and
    resolved its promise - whatever the parser did with the files before it,
    a thrown error included. *)
Theorem every_existing_file_is_attempted (root : string) (st : State) :
  discoverDescriptionFiles settings = false ->
  pending st = [] ->
  let files :=
    if fs_existsSync (path_join root "description.ext") then
      (configuredFiles root ++ [path_join root "description.ext"])%list
    else configuredFiles root in
  let st' :=
    run (List.length (filter fs_existsSync files)) (indexWorkspace root st) in
  pending st' = []
  /\ forall f,
       In f files -> fs_existsSync f = true ->
       In (LoggerDebug ("Proccessing: " ++ f)) (trace st')
       /\ In (Resolve (ParseFilePromise f)) (trace st').
Proof.
  intros Hdiscover Hidle files st'.
  pose proof (indexWorkspace_without_discovery root st Hdiscover) as Hindex.
  cbv zeta in Hindex. fold (configuredFiles root) in Hindex. fold files in Hindex.
  destruct (run_attempts_every_file (filter fs_existsSync files)
              (indexWorkspace root st)) as [Hdone Hall].
  { rewrite Hindex. cbn [pending]. now rewrite Hidle. }
  split; [exact Hdone|].
  intros f Hf Hexists. apply Hall. apply filter_In. now split.
Qed.

(** X14.  With discovery, [indexWorkspace] itself only starts [glob]: it logs
    nothing, resolves nothing and leaves the list of files alone.  The
    callback of [glob], on its turn, sets the list to the configured files
    followed by the found ones joined to the root, queues the callback of
    [fs.readFile] for those that exist and resolves the promise as its last
    act.  An error that [glob] reports is logged first, in two lines, and the
    callback goes on with the files that [glob] handed over. *)
Theorem discovery_resolves_in_the_glob_callback (root : string) (st : State) :
  discoverDescriptionFiles settings = true ->
  pending st = [] ->
  let started := indexWorkspace root st in
  let found := snd (glob root (exclude settings)) in
  let all := (configuredFiles root ++ map (fun item => path_join root item) found)%list in
  trace started = trace st
  /\ files started = files st
  /\ functions started = functions st
  /\ exists st1 logs,
       turn started = Some st1
       /\ files st1 = all
       /\ functions st1 = functions st
       /\ pending st1 = map ReadFileCallback (filter fs_existsSync all)
       /\ trace st1
          = (trace st ++ logs ++
             flat_map (fun item => [LoggerDebug ("Parsing: " ++ item);
                                    LoggerDebug ("Parsed: " ++ item)]) all
             ++ [Resolve (IndexWorkspacePromise root)])%list
       /\ logs
          = match fst (glob root (exclude settings)) with
            | Some message =>
                [LoggerError "Issue when scanning for description.ext";
                 LoggerError message]
            | None => []
            end.
Proof.
  intros Hdiscover Hidle started found all.
  assert (started = enqueue (GlobCallback root (configuredFiles root)) st) as ->.
  { unfold started, indexWorkspace. now rewrite Hdiscover. }
  repeat (split; [reflexivity|]).
  unfold turn, enqueue. cbn [pending]. rewrite Hidle. cbn [app run_task].
  unfold globCallback, all, found.
  destruct (glob root (exclude settings)) as [[message|] discovered];
    cbn [fst snd]; eexists; eexists;
    (split; [reflexivity|]); rewrite parseEach_spec; unfold emit, set_files;
    cbn [files functions pending trace app];
    (repeat split; try reflexivity); rewrite <- ?app_assoc; reflexivity.
Qed.

(** ** A changed document *)

Lemma parse_all (items : list string) (st : State) :
  fold_left (fun st item => parse item st) items st
  = {| functions := functions st; documentation := documentation st;
       files := files st; trace := trace st;
       pending :=
         (pending st ++ map ReadFileCallback (filter fs_existsSync items))%list |}.
Proof.
  revert st. induction items as [|item items IH]; intros st; cbn [fold_left].
  - cbn [filter map]. rewrite app_nil_r. now destruct st.
  - rewrite IH. unfold parse, parseFile, enqueue. cbn [filter].
    destruct (fs_existsSync item); cbn [functions documentation files trace pending map];
      [now rewrite <- app_assoc | reflexivity].
Qed.

(** X15.  The task that [parseDocument] runs for a changed document only
    queues callbacks of [fs.readFile]: for a document called exactly
    description.ext, one for that document, whether or not the file exists;
    for any other document with the extension .hpp, one for each known root
    that exists, in the order of the list; for any other document, none.
    Tables, list of files and events are as they were. *)
Theorem changed_document_queues_roots (fsPath : string) (st : State) :
  parseDocumentTask fsPath st
  = {| functions := functions st; documentation := documentation st;
       files := files st; trace := trace st;
       pending :=
         (pending st ++
          if String.eqb (path_basename fsPath) "description.ext" then
            [ReadFileCallback fsPath]
          else if String.eqb (path_extname fsPath) ".hpp" then
            map ReadFileCallback (filter fs_existsSync (files st))
          else [])%list |}.
Proof.
  unfold parseDocumentTask.
  destruct (String.eqb (path_basename fsPath) "description.ext");
    [reflexivity|].
  destruct (String.eqb (path_extname fsPath) ".hpp").
  - apply parse_all.
  - rewrite app_nil_r. now destruct st.
Qed.

(** ** From a pass to a lookup *)

Lemma firstDefined_set_only (tables : JsObject.t (JsObject.t Function))
  (rootFilename key : string) (table : JsObject.t Function) (record : Function) :
  JsObject.inherited key = false ->
  JsObject.get table key = Some record ->
  (forall other t,
     In (other, t) tables -> other <> rootFilename ->
     JsObject.get t key = None) ->
  firstDefined (JsObject.set tables rootFilename table) key
  = Some (JsObject.Own record).
Proof.
  intros Hplain Htable. rewrite firstDefined_plain by exact Hplain.
  induction tables as [|[r t] tables IH]; intros Hnone.
  - cbn. now rewrite Htable.
  - cbn [JsObject.set]. destruct (String.eqb_spec r rootFilename) as [->|Hne].
    + cbn [firstOwn]. now rewrite Htable.
    + cbn [firstOwn].
      rewrite (Hnone r t (or_introl eq_refl) Hne).
      apply IH. intros other t' Hin. apply Hnone. now right.
Qed.

(** X16.  Right after [processCfgFunctions] every function class of the
    registry is found by [getFunction] and by [onDefinition] under its
    qualified name, in any casing.  When no other root has a function of that
    lower-cased name, the record found is that of the last function class of
    the registry with that lower-cased name: it has the name and the file of
    that class, and its docstring is loaded when [tryToLoadDocs] did not
    throw. *)
Theorem declared_functions_are_found
  (cfgFunctions : Hpp.Class) (rootFilename : string) (st : State)
  (d : Declaration) (queried : string) :
  In d (declarations cfgFunctions) ->
  JsString.toLowerCase queried = JsString.toLowerCase (qualifiedName d) ->
  let result := processCfgFunctions cfgFunctions rootFilename st in
  let st' := fst result in
  (exists fnc,
     getFunction queried st' = Some (JsObject.Own fnc)
     /\ onDefinition queried st'
        = Returns [locationOf (Uri_file (filename fnc))])
  /\ ((forall other table,
         In (other, table) (functions st) -> other <> rootFilename ->
         JsObject.get table (JsString.toLowerCase queried) = None) ->
      exists last record,
        lastWith (fun d => JsString.toLowerCase (qualifiedName d))
          (JsString.toLowerCase queried) (declarations cfgFunctions) last
        /\ getFunction queried st' = Some (JsObject.Own record)
        /\ name record = qualifiedName last
        /\ filename record = resolvedFile rootFilename last
        /\ (record = recordOf rootFilename last
            \/ loadDocs (recordOf rootFilename last) = Returns record)
        /\ (snd result = None ->
            loadDocs (recordOf rootFilename last) = Returns record)).
Proof.
  intros Hd Hqueried result st'.
  assert (JsObject.inherited (JsString.toLowerCase queried) = false) as Hplain
    by (rewrite Hqueried; apply qualified_not_inherited).
  destruct (fold_set_get rootFilename (declarations cfgFunctions) []
              (JsString.toLowerCase queried))
    as (last & _ & _ & Hlast & Hget).
  { rewrite Hqueried. apply in_map_iff. now exists d. }
  rewrite <- scan_fns in Hget.
  destruct (loadEach_get _ _ _ Hget) as (record & Hrecord & Hor & Hnone).
  set (table := fst (loadEach (fns (scanCfgFunctions cfgFunctions rootFilename))))
    in *.
  assert (functions st' = JsObject.set (functions st) rootFilename table)
    as Hfunctions by apply processCfgFunctions_functions.
  assert (In (rootFilename, table) (functions st')) as Hroot.
  { rewrite Hfunctions. apply get_In, get_set_same. }
  split.
  - destruct (firstOwn_some (functions st') rootFilename
                (JsString.toLowerCase queried) table Hroot) as [fnc Hfnc].
    { apply keys_In_get. eexists. exact Hrecord. }
    assert (getFunction queried st' = Some (JsObject.Own fnc)) as Hfound.
    { unfold getFunction. rewrite firstDefined_plain by exact Hplain.
      now rewrite Hfnc. }
    exists fnc. split; [exact Hfound|].
    unfold onDefinition. now rewrite Hfound.
  - intros Hothers. exists last, record. split; [exact Hlast|].
    split.
    { unfold getFunction. rewrite Hfunctions.
      now apply firstDefined_set_only. }
    assert (name record = qualifiedName last
            /\ filename record = resolvedFile rootFilename last) as [Hn Hf].
    { destruct Hor as [-> | Hloaded]; [now split|].
      now apply loadDocs_name in Hloaded. }
    split; [exact Hn|]. split; [exact Hf|]. split; [exact Hor|].
    unfold result. rewrite processCfgFunctions_thrown. exact Hnone.
Qed.

(** ** A pass and the state it starts from *)

(** X17.  What the callback of [parseFile] logs and publishes for a file is
    the same whatever was indexed or published before: nothing is held back
    because it was sent already, so a second pass over an unchanged file sends
    every batch of the first again.  The function tables after the second
    pass are those after the first. *)
Theorem repeated_pass_repeats_its_events (filename : string) :
  exists events,
    forall st,
      trace (parseFileCallback filename st) = (trace st ++ events)%list
      /\ trace (parseFileCallback filename (parseFileCallback filename st))
         = (trace st ++ events ++ events)%list
      /\ functions (parseFileCallback filename (parseFileCallback filename st))
         = functions (parseFileCallback filename st).
Proof.
  exists (passEvents filename). intros st.
  rewrite !parseFileCallback_spec. cbn [trace functions].
  split; [reflexivity|]. split; [now rewrite <- app_assoc|].
  destruct (snd (Hpp_parse filename)) as [context|error|error];
    try reflexivity.
  destruct (JsObject.get (Hpp.classes context) "cfgfunctions");
    [apply set_set | reflexivity].
Qed.

(** ** Names that are no functions *)

(** X18.  [getFunction], and with it [onDefinition], looks the lower-cased
    name up: names that differ in case only get the same answer.  For a name
    whose lower-cased form is no key of [Object.prototype] the answer is the
    record of the first root, in iteration order, whose table has the
    lower-cased name, and [null] (no location) when no table has it.
    [onHover] looks the name up as it is given; for a name that is no key of
    [Object.prototype] it answers in a function document only when the name
    is already in lower case.  A key of [Object.prototype] is answered by
    the first table there is, with the record stored under it if there is
    one and else with the inherited value, which is no record. *)
Theorem lookup_folds_case_and_hover_does_not
  (docs : JsObject.t Documentation) (actions : list Action)
  (uri queried : string) :
  JsString.toLowerCase (path_extname uri) = ".sqf" ->
  JsString.toLowerCase (path_basename uri) <> "description.ext" ->
  let st := after actions (initial docs) in
  let key := JsString.toLowerCase queried in
  (forall other,
     JsString.toLowerCase other = key ->
     getFunction other st = getFunction queried st
     /\ onDefinition other st = onDefinition queried st)
  /\ (JsObject.inherited key = false ->
      (forall before root table rest item,
         functions st = (before ++ (root, table) :: rest)%list ->
         Forall (fun e => JsObject.get (snd e) key = None) before ->
         JsObject.get table key = Some item ->
         getFunction queried st = Some (JsObject.Own item)
         /\ onDefinition queried st
            = Returns [locationOf (Uri_file (filename item))])
      /\ (Forall (fun e => JsObject.get (snd e) key = None) (functions st) ->
          getFunction queried st = None /\ onDefinition queried st = Returns []))
  /\ onHover uri queried st
     = match firstDefined (functions st) queried with
       | Some item => Some {| Lsp.contents := hoverOf item |}
       | None => None
       end
  /\ (JsObject.inherited queried = false ->
      onHover uri queried st <> None -> key = queried)
  /\ (JsObject.inherited key = true ->
      getFunction queried st
      = match functions st with
        | [] => None
        | (_, table) :: _ =>
            Some (match JsObject.get table key with
                  | Some item => JsObject.Own item
                  | None => JsObject.Inherited key
                  end)
        end).
Proof.
  intros Hsqf Hdesc st key.
  split; [|split; [|split; [|split]]].
  - intros other Hother. unfold onDefinition, getFunction. fold key.
    now rewrite Hother.
  - intros Hplain. split.
    + intros before root table rest item Hfunctions Hbefore Hget.
      assert (getFunction queried st = Some (JsObject.Own item)) as Hfound.
      { unfold getFunction. fold key. rewrite firstDefined_plain by exact Hplain.
        rewrite Hfunctions. now rewrite (firstOwn_first before rest root key table item). }
      split; [exact Hfound|]. unfold onDefinition. now rewrite Hfound.
    + intros Hnone.
      assert (getFunction queried st = None) as Hmissing.
      { unfold getFunction. fold key. rewrite firstDefined_plain by exact Hplain.
        now rewrite firstOwn_none. }
      split; [exact Hmissing|]. unfold onDefinition. now rewrite Hmissing.
  - now apply onHover_function_document.
  - intros Hplain. rewrite onHover_function_document by assumption.
    rewrite firstDefined_plain by exact Hplain.
    destruct (firstOwn (functions st) queried) as [item|] eqn:E;
      [intros _ | cbn; congruence].
    apply firstOwn_In in E as (root & table & Hin & Hget).
    apply get_In in Hget.
    pose proof (keys_lowercased_after actions (initial docs)) as Hkeys.
    assert (keys_lowercased (initial docs)) as Hinit
      by (intros ? ? ? ? []).
    unfold key. rewrite (Hkeys Hinit _ _ _ _ Hin Hget).
    apply toLowerCase_idempotent.
  - intros Hinherited. unfold getFunction. fold key.
    now apply firstDefined_inherited.
Qed.

End ExtModule.

(** ** [path.posix.join] on clean segments *)

Lemma split_nonempty (s : string) : Posix.split s <> [].
Proof.
  induction s as [|c s IH]; simpl; [discriminate|].
  destruct (Posix.is_sep c); [discriminate|].
  destruct (Posix.split s); discriminate.
Qed.

Lemma split_no_sep (s : string) :
  PosixSegment.no_sep s = true -> Posix.split s = [s].
Proof.
  induction s as [|c s IH]; simpl; [reflexivity|].
  intros H. apply andb_true_iff in H as [Hc Hs].
  apply negb_true_iff in Hc. rewrite Hc, (IH Hs). reflexivity.
Qed.

Lemma split_cons_sep (a b : string) :
  PosixSegment.no_sep a = true ->
  Posix.split (a ++ String "/" b) = a :: Posix.split b.
Proof.
  induction a as [|c a IH]; simpl; [reflexivity|].
  intros H. apply andb_true_iff in H as [Hc Ha].
  apply negb_true_iff in Hc. rewrite Hc, (IH Ha). reflexivity.
Qed.

Lemma split_concat (segs : list string) :
  segs <> [] ->
  Forall (fun seg => PosixSegment.no_sep seg = true) segs ->
  Posix.split (String.concat "/" segs) = segs.
Proof.
  induction segs as [|a segs IH]; [congruence|].
  intros _ Hall. inversion Hall as [|? ? Ha Hrest]; subst.
  destruct segs as [|b segs].
  - simpl. now apply split_no_sep.
  - change (String.concat "/" (a :: b :: segs))
      with (a ++ String "/" (String.concat "/" (b :: segs))).
    rewrite split_cons_sep by assumption.
    rewrite IH; [reflexivity | discriminate | assumption].
Qed.

Lemma plain_push (allowAboveRoot : bool) (res : list string) (seg : string) :
  PosixSegment.plain seg = true ->
  Posix.push_segment allowAboveRoot res seg = seg :: res.
Proof.
  unfold PosixSegment.plain, Posix.push_segment. intros H.
  apply andb_true_iff in H as [_ H]. apply negb_true_iff in H.
  apply orb_false_iff in H as [H H2]. apply orb_false_iff in H as [H0 H1].
  now rewrite H0, H1, H2.
Qed.

Lemma fold_push_plain (allowAboveRoot : bool) (segs res : list string) :
  Forall (fun seg => PosixSegment.plain seg = true) segs ->
  fold_left (Posix.push_segment allowAboveRoot) segs res
  = (rev segs ++ res)%list.
Proof.
  revert res. induction segs as [|a segs IH]; intros res Hall; [reflexivity|].
  inversion Hall as [|? ? Ha Hrest]; subst. simpl.
  rewrite plain_push by assumption. rewrite IH by assumption.
  now rewrite <- app_assoc.
Qed.

Lemma plain_no_sep (s : string) :
  PosixSegment.plain s = true -> PosixSegment.no_sep s = true.
Proof. unfold PosixSegment.plain. intros H. now apply andb_true_iff in H. Qed.

Lemma plain_not_empty (s : string) : PosixSegment.plain s = true -> s <> "".
Proof.
  unfold PosixSegment.plain. intros H ->. simpl in H. discriminate.
Qed.

Lemma first_is_sep_plain_append (a b : string) :
  PosixSegment.plain a = true -> Posix.first_is_sep (a ++ b) = false.
Proof.
  intros H. pose proof (plain_not_empty _ H) as Hne.
  apply plain_no_sep in H. destruct a as [|c a]; [congruence|].
  simpl in *. apply andb_true_iff in H as [Hc _]. now apply negb_true_iff in Hc.
Qed.

Lemma last_is_sep_no_sep (s : string) :
  PosixSegment.no_sep s = true -> Posix.last_is_sep s = false.
Proof.
  induction s as [|c s IH]; [reflexivity|]. simpl.
  intros H. apply andb_true_iff in H as [Hc Hs]. apply negb_true_iff in Hc.
  destruct s; [exact Hc | now apply IH].
Qed.

Lemma last_is_sep_append (a b : string) :
  b <> "" -> Posix.last_is_sep (a ++ b) = Posix.last_is_sep b.
Proof.
  intros Hb. induction a as [|c a IH]; [reflexivity|].
  simpl. destruct (a ++ b) eqn:E; [|exact IH].
  destruct a; simpl in E; [congruence | discriminate].
Qed.

Lemma last_is_sep_cons (c : ascii) (s : string) :
  s <> "" -> Posix.last_is_sep (String c s) = Posix.last_is_sep s.
Proof. destruct s; [congruence | reflexivity]. Qed.

Lemma concat_plain_not_empty (segs : list string) :
  segs <> [] ->
  Forall (fun seg => PosixSegment.plain seg = true) segs ->
  String.concat "/" segs <> "".
Proof.
  destruct segs as [|a segs]; [congruence|].
  intros _ Hall. inversion Hall as [|? ? Ha _]; subst.
  apply plain_not_empty in Ha.
  destruct segs; simpl; [assumption|].
  destruct a; [congruence | discriminate].
Qed.

Lemma last_is_sep_concat (segs : list string) :
  segs <> [] ->
  Forall (fun seg => PosixSegment.plain seg = true) segs ->
  Posix.last_is_sep (String.concat "/" segs) = false.
Proof.
  induction segs as [|a segs IH]; [congruence|].
  intros _ Hall. inversion Hall as [|? ? Ha Hrest]; subst.
  destruct segs as [|b segs].
  - simpl. apply last_is_sep_no_sep. now apply plain_no_sep.
  - change (String.concat "/" (a :: b :: segs))
      with (a ++ String "/" (String.concat "/" (b :: segs))).
    rewrite last_is_sep_append by discriminate.
    rewrite last_is_sep_cons
      by (apply concat_plain_not_empty; [discriminate | assumption]).
    apply IH; [discriminate | assumption].
Qed.

(** A relative path made of clean segments is its own normal form. *)
Lemma normalize_plain (segs : list string) :
  segs <> [] ->
  Forall (fun seg => PosixSegment.plain seg = true) segs ->
  Posix.normalize (String.concat "/" segs) = String.concat "/" segs.
Proof.
  intros Hne Hall.
  assert (exists a rest, String.concat "/" segs = a ++ rest
                         /\ PosixSegment.plain a = true) as (a & rest & Hc & Ha).
  { destruct segs as [|a segs]; [congruence|].
    inversion Hall; subst. destruct segs as [|b segs].
    - exists a, "". simpl. now rewrite append_empty_r.
    - exists a, (String "/" (String.concat "/" (b :: segs))). now split. }
  pose proof (concat_plain_not_empty segs Hne Hall) as Hnonempty.
  unfold Posix.normalize.
  destruct (String.eqb_spec (String.concat "/" segs) ""); [contradiction|].
  replace (Posix.first_is_sep (String.concat "/" segs)) with false
    by (rewrite Hc; symmetry; now apply first_is_sep_plain_append).
  rewrite last_is_sep_concat by assumption.
  unfold Posix.normalizeString. simpl negb.
  rewrite split_concat; [|assumption|].
  2:{ eapply Forall_impl; [|exact Hall]. intros s. apply plain_no_sep. }
  rewrite fold_push_plain by assumption.
  rewrite app_nil_r, rev_involutive.
  destruct (String.eqb_spec (String.concat "/" segs) ""); [contradiction|].
  reflexivity.
Qed.

Lemma concat_snoc (segs : list string) (b : string) :
  segs <> [] ->
  String.concat "/" (segs ++ [b]) = String.concat "/" segs ++ "/" ++ b.
Proof.
  induction segs as [|a segs IH]; [congruence|]. intros _.
  destruct segs as [|a' segs]; [reflexivity|].
  change (String.concat "/" ((a :: a' :: segs) ++ [b]))
    with (a ++ "/" ++ String.concat "/" ((a' :: segs) ++ [b])).
  rewrite IH by discriminate.
  change (String.concat "/" (a :: a' :: segs))
    with (a ++ "/" ++ String.concat "/" (a' :: segs)).
  now rewrite !append_assoc.
Qed.

Lemma truthy_not_empty (s : string) : s <> "" -> JsString.truthy s = true.
Proof.
  intros H. unfold JsString.truthy. now destruct (String.eqb_spec s "").
Qed.

(** Joining a clean segment to a relative path of clean segments appends it. *)
Lemma join_plain (segs : list string) (b : string) :
  segs <> [] ->
  Forall (fun seg => PosixSegment.plain seg = true) segs ->
  PosixSegment.plain b = true ->
  Posix.join (String.concat "/" segs) b = String.concat "/" (segs ++ [b]).
Proof.
  intros Hne Hsegs Hb. unfold Posix.join, Posix.join_all. cbn [filter].
  rewrite (truthy_not_empty (String.concat "/" segs))
    by now apply concat_plain_not_empty.
  rewrite (truthy_not_empty b) by now apply plain_not_empty.
  change (String.concat "/" [String.concat "/" segs; b])
    with (String.concat "/" segs ++ "/" ++ b).
  rewrite <- concat_snoc by assumption.
  apply normalize_plain.
  - now destruct segs.
  - apply Forall_app. split; [assumption | now constructor].
Qed.

Lemma no_sep_append (a b : string) :
  PosixSegment.no_sep (a ++ b) = PosixSegment.no_sep a && PosixSegment.no_sep b.
Proof.
  induction a as [|c a IH]; [reflexivity|]. cbn [append PosixSegment.no_sep].
  now rewrite IH, andb_assoc.
Qed.

Lemma default_file_is_plain (functionName : string) :
  PosixSegment.no_sep functionName = true ->
  PosixSegment.plain ("fn_" ++ functionName ++ ".sqf") = true.
Proof.
  intros H. unfold PosixSegment.plain. apply andb_true_iff. split.
  - change ("fn_" ++ functionName ++ ".sqf")
      with (String "f" (String "n" (String "_" (functionName ++ ".sqf")))).
    cbn [PosixSegment.no_sep]. rewrite no_sep_append, H. reflexivity.
  - reflexivity.
Qed.

(* ------------------------------------------------------------------ *)
(** * The properties on concrete paths and on the sample mission *)

Example posix_join_ex1 : Posix.join "functions" "utils" = "functions/utils".
Proof. reflexivity. Qed.
Example posix_join_ex2 : Posix.join "/m/a" "../b//c/" = "/m/b/c/".
Proof. reflexivity. Qed.
Example posix_join_ex3 : Posix.join "" "" = ".".
Proof. reflexivity. Qed.
Example posix_join_ex4 : Posix.join "a" "../../b" = "../b".
Proof. reflexivity. Qed.
Example posix_dirname_ex1 : Posix.dirname "/m/description.ext" = "/m".
Proof. reflexivity. Qed.
Example posix_dirname_ex2 : Posix.dirname "/description.ext" = "/".
Proof. reflexivity. Qed.
Example posix_dirname_ex3 : Posix.dirname "a//" = ".".
Proof. reflexivity. Qed.
Example posix_dirname_ex4 : Posix.dirname "//a" = "//".
Proof. reflexivity. Qed.
Example posix_basename_ex1 : Posix.basename "file:///m/Description.ext" = "Description.ext".
Proof. reflexivity. Qed.
Example posix_basename_ex2 : Posix.basename "a/b//" = "b".
Proof. reflexivity. Qed.
Example posix_extname_ex1 : Posix.extname "file:///m/fn_a.SQF" = ".SQF".
Proof. reflexivity. Qed.
Example posix_extname_ex2 : Posix.extname "a/.bashrc" = "".
Proof. reflexivity. Qed.
Example posix_extname_ex3 : Posix.extname "a/.." = "".
Proof. reflexivity. Qed.
Example posix_extname_ex4 : Posix.extname "a.b/c" = "".
Proof. reflexivity. Qed.
Example posix_extname_ex5 : Posix.extname "x.y.z/" = ".z".
Proof. reflexivity. Qed.
Example win32_abs_ex1 : Win32.isAbsolute "C:/Data" = true.
Proof. reflexivity. Qed.
Example win32_abs_ex2 : Win32.isAbsolute "C:Data" = false.
Proof. reflexivity. Qed.

(** ** Default name and path (C1) *)

(** C1.  With Node's POSIX [path.join]: a function class [name] in a category
    class [C] of a tag group with effective tag [T], the category having no
    [tag] and no [file] and the function no [file] and no [ext], is stored
    under the lower-cased [T_fnc_name] with the name [T_fnc_name], and the file
    name that goes into prefix and root resolution is
    [functions/C/fn_name.sqf]; on any platform it is
    [path.join(path.join("functions", C), "fn_" + name + ".sqf")].  The loop
    body stores this record, and the table of a registry that declares the
    function holds it at the end of the loops unless another declaration has
    the same key.  Class names are identifiers: [C] is one clean path segment
    and [name] has no separator in it. *)
Theorem default_name_and_path
  (path_dirname : string -> string)
  (path_isAbsolute fs_existsSync : string -> bool) (Uri_file : string -> string)
  (settings : Settings) (rootFilename root : string)
  (tagClass categoryClass functionClass : Hpp.Class) (l : Loop) :
  JsObject.get (Hpp.variables (Hpp.body categoryClass)) "tag" = None ->
  JsObject.get (Hpp.variables (Hpp.body categoryClass)) "file" = None ->
  JsObject.get (Hpp.variables (Hpp.body functionClass)) "file" = None ->
  JsObject.get (Hpp.variables (Hpp.body functionClass)) "ext" = None ->
  PosixSegment.plain (Hpp.name categoryClass) = true ->
  PosixSegment.no_sep (Hpp.name functionClass) = true ->
  let T := tagOf tagClass in
  let qualified := T ++ "_fnc_" ++ Hpp.name functionClass in
  let relative :=
    "functions/" ++ Hpp.name categoryClass ++ "/fn_" ++ Hpp.name functionClass
    ++ ".sqf" in
  (forall join : string -> string -> string,
     declaredFilename join (categoryPathOf join categoryClass) functionClass
     = join (join "functions" (Hpp.name categoryClass))
         ("fn_" ++ Hpp.name functionClass ++ ".sqf"))
  /\ declaredFilename Posix.join (categoryPathOf Posix.join categoryClass)
       functionClass = relative
  /\ JsObject.get
       (fns (processFunction Posix.join path_isAbsolute fs_existsSync Uri_file
               settings rootFilename root (categoryTagOf T categoryClass)
               (categoryPathOf Posix.join categoryClass) functionClass l))
       (JsString.toLowerCase qualified)
     = Some {| name := qualified;
               filename :=
                 resolveFilename Posix.join path_isAbsolute settings root relative;
               info := None |}
  /\ (forall cfgFunctions tagKey categoryKey functionKey,
        In (tagKey, tagClass) (Hpp.classes (Hpp.body cfgFunctions)) ->
        In (categoryKey, categoryClass) (Hpp.classes (Hpp.body tagClass)) ->
        In (functionKey, functionClass) (Hpp.classes (Hpp.body categoryClass)) ->
        (forall d,
           In d (declarations Posix.join cfgFunctions) ->
           JsString.toLowerCase (qualifiedName d) = JsString.toLowerCase qualified ->
           d = (T, categoryPathOf Posix.join categoryClass, functionClass)) ->
        JsObject.get
          (fns (scanCfgFunctions Posix.join path_dirname path_isAbsolute
                  fs_existsSync Uri_file settings cfgFunctions rootFilename))
          (JsString.toLowerCase qualified)
        = Some {| name := qualified;
                  filename :=
                    resolveFilename Posix.join path_isAbsolute settings
                      (path_dirname rootFilename) relative;
                  info := None |}).
Proof.
  intros Htag Hfile Hffile Hext Hcat Hname T qualified relative.
  assert (categoryTagOf T categoryClass = T) as HT
    by (unfold categoryTagOf; now rewrite Htag).
  split.
  { intros join. unfold declaredFilename, categoryPathOf.
    now rewrite Hfile, Hffile, Hext. }
  assert (declaredFilename Posix.join (categoryPathOf Posix.join categoryClass)
            functionClass = relative) as Hrelative.
  { unfold declaredFilename, categoryPathOf. rewrite Hfile, Hffile, Hext.
    cbn [JsString.or_else].
    change "functions" with (String.concat "/" ["functions"]).
    rewrite join_plain; [|discriminate|repeat constructor|exact Hcat].
    rewrite join_plain.
    - unfold relative. cbn [app String.concat].
      rewrite ?append_assoc. reflexivity.
    - discriminate.
    - repeat constructor. exact Hcat.
    - now apply default_file_is_plain. }
  split; [exact Hrelative|]. split.
  - rewrite HT, <- Hrelative. apply processFunction_records.
  - intros cfgFunctions tagKey categoryKey functionKey Hin1 Hin2 Hin3 Hunique.
    pose proof (declared_In Posix.join cfgFunctions tagClass categoryClass
                  functionClass tagKey categoryKey functionKey Hin1 Hin2 Hin3)
      as Hd.
    fold T in Hd. rewrite HT in Hd.
    pose proof (scan_records Posix.join path_dirname path_isAbsolute
                  fs_existsSync Uri_file settings cfgFunctions rootFilename
                  (T, categoryPathOf Posix.join categoryClass, functionClass)
                  Hd Hunique) as Hget.
    unfold recordOf, resolvedFile, qualifiedName, fullFunctionNameOf in Hget.
    cbn [fst snd] in Hget. rewrite Hrelative in Hget. exact Hget.
Qed.

Lemma default_name_and_path_doThing :
  declaredFilename Posix.join (categoryPathOf Posix.join Sample.utils)
    Sample.doThing = "functions/utils/fn_doThing.sqf"
  /\ JsObject.get
       (fns (processFunction Posix.join Posix.isAbsolute Sample.existsSync
               Sample.Uri_file Sample.settings "/mission/description.ext"
               "/mission" (categoryTagOf (tagOf Sample.MyTag) Sample.utils)
               (categoryPathOf Posix.join Sample.utils) Sample.doThing
               {| fns := []; diags := []; functionsCount := 0; logged := [] |}))
       "mytag_fnc_dothing"
     = Some {| name := "MYTAG_fnc_doThing";
               filename := "/mission/functions/utils/fn_doThing.sqf";
               info := None |}.
Proof.
  destruct (default_name_and_path Posix.dirname Posix.isAbsolute
              Sample.existsSync Sample.Uri_file Sample.settings
              "/mission/description.ext" "/mission" Sample.MyTag Sample.utils
              Sample.doThing
              {| fns := []; diags := []; functionsCount := 0; logged := [] |}
              eq_refl eq_refl eq_refl eq_refl eq_refl eq_refl)
    as (_ & Hrelative & Hrecord & _).
  split; [exact Hrelative | exact Hrecord].
Defined.

(** ** Include prefixes (C2) *)

(** The scenario of the specification on Windows, the prefix [\A3\] mapped to
    [C:/Data]: the separator that ends the prefix goes with the prefix. *)
Lemma include_prefix_first_match_A3 :
  resolveFilename Posix.join Win32.isAbsolute
    {| includePrefixes := Some [("\A3\", "C:/Data")]; descriptionFiles := [];
       discoverDescriptionFiles := true; exclude := [] |}
    "/mission" "\A3\foo.sqf"
  = "C:/Datafoo.sqf".
Proof.
  pose proof (include_prefix_first_match Posix.join Win32.isAbsolute
    {| includePrefixes := Some [("\A3\", "C:/Data")]; descriptionFiles := [];
       discoverDescriptionFiles := true; exclude := [] |}
    "/mission" "\A3\foo.sqf") as H.
  simpl in H. destruct H as [rest [Hrest H]].
  injection Hrest as <-. exact H.
Defined.

(** The result that the specification gives for this scenario is not the one
    that the code computes, whatever [path.join] is. *)
Lemma include_prefix_A3_not_as_specified :
  exists resolved,
    (forall join : string -> string -> string,
       resolveFilename join Win32.isAbsolute
         {| includePrefixes := Some [("\A3\", "C:/Data")];
            descriptionFiles := []; discoverDescriptionFiles := true;
            exclude := [] |}
         "/mission" "\A3\foo.sqf" = resolved)
    /\ resolved <> "C:/Data\foo.sqf".
Proof. exists "C:/Datafoo.sqf". split; [reflexivity | discriminate]. Qed.

(** A prefix without the separator at its end keeps the separator of the
    file name, and an earlier prefix wins over a longer later one. *)
Lemma include_prefix_examples :
  (forall join : string -> string -> string,
     resolveFilename join Win32.isAbsolute
       {| includePrefixes := Some [("\A3", "C:/Data")]; descriptionFiles := [];
          discoverDescriptionFiles := true; exclude := [] |}
       "/mission" "\A3\foo.sqf" = "C:/Data\foo.sqf")
  /\ resolveFilename Posix.join Posix.isAbsolute
       {| includePrefixes := Some [("x/", "/short"); ("x/y/", "/long")];
          descriptionFiles := []; discoverDescriptionFiles := true;
          exclude := [] |}
       "/mission" "x/y/fn_a.sqf" = "/shorty/fn_a.sqf"
  /\ resolveFilename Posix.join Posix.isAbsolute
       {| includePrefixes := Some [("x/", "addons/")];
          descriptionFiles := []; discoverDescriptionFiles := true;
          exclude := [] |}
       "/mission" "x/fn_a.sqf" = "/mission/addons/fn_a.sqf"
  /\ resolveFilename Posix.join Posix.isAbsolute
       {| includePrefixes := Some [("x/", "addons/")];
          descriptionFiles := []; discoverDescriptionFiles := true;
          exclude := [] |}
       "/mission" "functions/utils/fn_a.sqf"
     = "/mission/functions/utils/fn_a.sqf".
Proof. repeat split. Qed.

(** ** The sample mission, indexed

    The scenario of the specification: the tag class with [tag = "MYTAG"],
    the category [utils] and the function [doThing] give the key
    [mytag_fnc_dothing] and the file [<root>/functions/utils/fn_doThing.sqf]. *)
Lemma sample_mission_indexed :
  functions
    (run Posix.join Posix.dirname Posix.isAbsolute Sample.existsSync
       Sample.readFileSync Sample.Uri_file Sample.Docstring_parse
       Sample.Hpp_parse Sample.glob Sample.settings 1
       (indexWorkspace Posix.join Posix.isAbsolute Sample.existsSync
          Sample.settings "/mission" (initial [])))
  = functions Sample.indexed.
Proof. vm_compute. reflexivity. Qed.

(** ** Missing files (C3) on the sample *)

(** The parser, touching the description.ext, has its batches cleared; the
    pass over the sample then sends one batch, for the description.ext, with
    one diagnostic, for [gone]; [parseFile] then sends an empty batch for the
    same URI. *)
Lemma sample_mission_diagnostics :
  trace
    (parseFileCallback Posix.join Posix.dirname Posix.isAbsolute
       Sample.existsSync Sample.readFileSync Sample.Uri_file
       Sample.Docstring_parse Sample.Hpp_parse Sample.settings
       "/mission/description.ext" (initial []))
  = [ LoggerDebug "Proccessing: /mission/description.ext";
      SendDiagnostics {| Lsp.uri := "file:///mission/description.ext";
                         Lsp.diagnostics := [] |};
      LoggerDebug "Scanning functions for: /mission/description.ext";
      LoggerDebug "Detected tag: MYTAG";
      LoggerDebug "Detected category: utils";
      LoggerDebug "Detected category: Renamed";
      LoggerDebug "Detected a total of 3 in /mission/description.ext";
      SendDiagnostics
        {| Lsp.uri := "file:///mission/description.ext";
           Lsp.diagnostics :=
             [ {| Lsp.severity := Lsp.Error;
                  Lsp.range := Sample.at_line 5;
                  Lsp.message :=
                    "Failed to find /mission/functions/utils/fn_gone.sqf for function MYTAG_fnc_gone.";
                  Lsp.source := "sqflint" |} ] |};
      LoggerDebug "Proccessed: /mission/description.ext";
      SendDiagnostics {| Lsp.uri := "file:///mission/description.ext";
                         Lsp.diagnostics := [] |};
      Resolve (ParseFilePromise "/mission/description.ext") ].
Proof. vm_compute. reflexivity. Qed.

(** ** A registry that was removed (C5) *)

(** C5, where the code leaves it.  The description.ext is indexed, then
    [CfgFunctions] is deleted from it and the file is parsed again: [process]
    finds no registry and returns, so the second pass leaves the table of the
    root as the first pass built it and the functions are still found. *)
Lemma registry_removed_table_stays :
  let indexed :=
    run Posix.join Posix.dirname Posix.isAbsolute Sample.existsSync
      Sample.readFileSync Sample.Uri_file Sample.Docstring_parse
      Sample.Hpp_parse Sample.glob Sample.settings 1
      (indexWorkspace Posix.join Posix.isAbsolute Sample.existsSync
         Sample.settings "/mission" (initial [])) in
  let reparsed :=
    parseFileCallback Posix.join Posix.dirname Posix.isAbsolute
      Sample.existsSync Sample.readFileSync Sample.Uri_file
      Sample.Docstring_parse Sample.Hpp_parse_later Sample.settings
      "/mission/description.ext" indexed in
  JsObject.get (Hpp.classes Sample.context_without_registry) "cfgfunctions" = None
  /\ functions reparsed = functions indexed
  /\ JsObject.get (functions reparsed) "/mission/description.ext"
     <> Some JsObject.empty
  /\ getFunction "MYTAG_fnc_doThing" reparsed
     = Some (JsObject.Own
               {| name := "MYTAG_fnc_doThing";
                  filename := "/mission/functions/utils/fn_doThing.sqf";
                  info :=
                    Some {| Docstring.description_short := Some " Does a thing ";
                            Docstring.parameters := [];
                            Docstring.parameter := None;
                            Docstring.returns_type := None |} |}).
Proof. vm_compute. repeat split; discriminate. Qed.

(** A root that was never indexed and has no registry gets no table at all. *)
Lemma no_registry_no_table :
  JsObject.get
    (functions
       (parseFileCallback Posix.join Posix.dirname Posix.isAbsolute
          Sample.existsSync Sample.readFileSync Sample.Uri_file
          Sample.Docstring_parse Sample.Hpp_parse_later Sample.settings
          "/mission/description.ext" (initial [])))
    "/mission/description.ext" = None.
Proof. reflexivity. Qed.

(** ** When the promise of [indexWorkspace] resolves (C6) *)

(** C6, where the code leaves it.  The workspace [/mission] with its
    description.ext, discovery off: when [indexWorkspace] returns, its promise
    is resolved, the callback of [fs.readFile] still waits and the table is
    empty.  The file is parsed and processed on the next turn, after the
    resolution. *)
Lemma indexWorkspace_resolves_before_processing :
  let returned :=
    indexWorkspace Posix.join Posix.isAbsolute Sample.existsSync
      Sample.settings "/mission" (initial []) in
  let later :=
    run Posix.join Posix.dirname Posix.isAbsolute Sample.existsSync
      Sample.readFileSync Sample.Uri_file Sample.Docstring_parse
      Sample.Hpp_parse Sample.glob Sample.settings 1 returned in
  files returned = ["/mission/description.ext"]
  /\ trace returned
     = [ LoggerDebug "Parsing: /mission/description.ext";
         LoggerDebug "Parsed: /mission/description.ext";
         Resolve (IndexWorkspacePromise "/mission") ]
  /\ pending returned = [ReadFileCallback "/mission/description.ext"]
  /\ functions returned = []
  /\ functions later = functions Sample.indexed
  /\ exists events,
       trace later
       = (trace returned
          ++ LoggerDebug "Proccessing: /mission/description.ext" :: events)%list.
Proof.
  vm_compute. repeat split. eexists. reflexivity.
Qed.

(** ** The tag of a category (C7) *)

(** C7, as the code has it.  A category whose [tag] variable is a non-empty
    string gives that string, in place of the tag of the group, to the names
    of all its functions: for every function class of the category, the table
    that the loops build for the registry holds under the lower-cased
    [<tag>_fnc_<name>] a record, which is the record named [<tag>_fnc_<name>]
    unless another declaration has the same key.  A [tag] that is the empty
    string counts as absent: the tag of the group names the functions.  The
    file of the record is resolved from the path of the category, which no
    value of [tag] changes: without a [file] on the category it is
    [path.join("functions", <class name>)], and with Node's POSIX [path.join]
    and a class name that is one clean path segment,
    [functions/<class name>]. *)
Theorem category_tag_names_functions_only
  (path_join : string -> string -> string) (path_dirname : string -> string)
  (path_isAbsolute fs_existsSync : string -> bool) (Uri_file : string -> string)
  (settings : Settings) (cfgFunctions : Hpp.Class) (rootFilename : string)
  (tagKey categoryKey functionKey own : string)
  (tagClass categoryClass functionClass : Hpp.Class) :
  In (tagKey, tagClass) (Hpp.classes (Hpp.body cfgFunctions)) ->
  In (categoryKey, categoryClass) (Hpp.classes (Hpp.body tagClass)) ->
  In (functionKey, functionClass) (Hpp.classes (Hpp.body categoryClass)) ->
  JsObject.get (Hpp.variables (Hpp.body categoryClass)) "tag" = Some own ->
  let T := if String.eqb own "" then tagOf tagClass else own in
  let qualified := T ++ "_fnc_" ++ Hpp.name functionClass in
  let table :=
    fns (scanCfgFunctions path_join path_dirname path_isAbsolute fs_existsSync
           Uri_file settings cfgFunctions rootFilename) in
  (exists record,
     JsObject.get table (JsString.toLowerCase qualified) = Some record
     /\ JsString.toLowerCase (name record) = JsString.toLowerCase qualified)
  /\ ((forall d,
         In d (declarations path_join cfgFunctions) ->
         JsString.toLowerCase (qualifiedName d) = JsString.toLowerCase qualified ->
         d = (T, categoryPathOf path_join categoryClass, functionClass)) ->
      JsObject.get table (JsString.toLowerCase qualified)
      = Some {| name := qualified;
                filename :=
                  resolveFilename path_join path_isAbsolute settings
                    (path_dirname rootFilename)
                    (declaredFilename path_join
                       (categoryPathOf path_join categoryClass) functionClass);
                info := None |})
  /\ (forall v,
        categoryPathOf path_join (with_tag categoryClass v)
        = categoryPathOf path_join categoryClass)
  /\ (JsObject.get (Hpp.variables (Hpp.body categoryClass)) "file" = None ->
      categoryPathOf path_join categoryClass
      = path_join "functions" (Hpp.name categoryClass)
      /\ (PosixSegment.plain (Hpp.name categoryClass) = true ->
          forall v,
            categoryPathOf Posix.join (with_tag categoryClass v)
            = "functions/" ++ Hpp.name categoryClass)).
Proof.
  intros Htag Hcategory Hfunction Hown T qualified table.
  destruct (category_tag_in_scan path_join path_dirname path_isAbsolute
              fs_existsSync Uri_file settings cfgFunctions rootFilename tagKey
              categoryKey functionKey own tagClass categoryClass functionClass
              Htag Hcategory Hfunction Hown)
    as (Hrecord & Hunique & Hdefault & Hsame).
  split; [exact Hrecord|]. split; [exact Hunique|]. split; [exact Hsame|].
  intros Hfile. split; [exact (Hdefault Hfile)|].
  intros Hplain v.
  rewrite (proj2 (proj2 (proj2
             (category_tag_in_scan Posix.join path_dirname path_isAbsolute
                fs_existsSync Uri_file settings cfgFunctions rootFilename
                tagKey categoryKey functionKey own tagClass categoryClass
                functionClass Htag Hcategory Hfunction Hown)))).
  unfold categoryPathOf. rewrite Hfile. cbn [JsString.or_else].
  change "functions" with (String.concat "/" ["functions"]) at 1.
  rewrite join_plain; [reflexivity|discriminate|repeat constructor|exact Hplain].
Qed.

Lemma category_tag_names_functions_only_Renamed :
  JsObject.get
    (fns (scanCfgFunctions Posix.join Posix.dirname Posix.isAbsolute
            Sample.existsSync Sample.Uri_file Sample.settings
            Sample.CfgFunctions "/mission/description.ext"))
    "other_fnc_helper"
  = Some {| name := "OTHER_fnc_helper";
            filename := "/mission/functions/Renamed/fn_helper.sqf";
            info := None |}
  /\ categoryPathOf Posix.join Sample.Renamed = "functions/Renamed".
Proof.
  destruct (category_tag_names_functions_only Posix.join Posix.dirname
              Posix.isAbsolute Sample.existsSync Sample.Uri_file
              Sample.settings Sample.CfgFunctions "/mission/description.ext"
              "mytag" "renamed" "helper" "OTHER" Sample.MyTag Sample.Renamed
              Sample.helper (or_introl eq_refl) (or_intror (or_introl eq_refl))
              (or_introl eq_refl) eq_refl) as (_ & Hrecord & _ & Hpath).
  split; [|exact (proj2 (Hpath eq_refl) eq_refl "OTHER")].
  apply Hrecord. intros d Hd Hkey. vm_compute in Hd.
  destruct Hd as [<- | [<- | [<- | []]]];
    [discriminate Hkey | discriminate Hkey | reflexivity].
Defined.

(** A category whose [tag] is the empty string carries a [tag] variable, and
    its functions are named after the tag of the group all the same: the
    table of a registry with such a category has no function under the name
    that the empty tag would give. *)
Lemma empty_category_tag_does_not_name :
  let registry :=
    Sample.group "CfgFunctions" 0 []
      [("mytag",
        Sample.group "MyTag" 1 [("tag", "MYTAG")]
          [("untagged", Sample.Untagged)])] in
  let table :=
    fns (scanCfgFunctions Posix.join Posix.dirname Posix.isAbsolute
           Sample.existsSync Sample.Uri_file Sample.settings registry
           "/mission/description.ext") in
  JsObject.get (Hpp.variables (Hpp.body Sample.Untagged)) "tag" = Some ""
  /\ JsObject.get table
       (JsString.toLowerCase ("" ++ "_fnc_" ++ Hpp.name Sample.helper))
     = None
  /\ table
     = [ ("mytag_fnc_helper",
          {| name := "MYTAG_fnc_helper";
             filename := "/mission/functions/Untagged/fn_helper.sqf";
             info := None |}) ].
Proof. vm_compute. repeat split. Qed.

(** ** Completion (C8) on the sample *)

Lemma completion_matches_lowercased_names_sample :
  onCompletion Posix.extname Posix.basename
    "file:///mission/functions/utils/fn_doThing.sqf" "mytag_fnc_"
    (after Posix.join Posix.dirname Posix.isAbsolute Posix.extname
       Posix.basename Sample.existsSync Sample.readFileSync Sample.Uri_file
       Sample.Docstring_parse Sample.Hpp_parse Sample.glob Sample.settings
       [IndexWorkspace "/mission"; Turn] (initial []))
  = [ {| Lsp.label := "MYTAG_fnc_doThing"; Lsp.data := "mytag_fnc_dothing";
         Lsp.filterText := "MYTAG_fnc_doThing";
         Lsp.insertText := "MYTAG_fnc_doThing";
         Lsp.kind := Lsp.CompletionItemKind.Function;
         Lsp.documentation := None |};
      {| Lsp.label := "MYTAG_fnc_gone"; Lsp.data := "mytag_fnc_gone";
         Lsp.filterText := "MYTAG_fnc_gone";
         Lsp.insertText := "MYTAG_fnc_gone";
         Lsp.kind := Lsp.CompletionItemKind.Function;
         Lsp.documentation := None |} ].
Proof.
  pose proof (completion_matches_lowercased_names Posix.join Posix.dirname
                Posix.isAbsolute Posix.extname Posix.basename Sample.existsSync
                Sample.readFileSync Sample.Uri_file Sample.Docstring_parse
                Sample.Hpp_parse Sample.glob Sample.settings []
                [IndexWorkspace "/mission"; Turn]
                "file:///mission/functions/utils/fn_doThing.sqf" "mytag_fnc_"
                eq_refl ltac:(vm_compute; discriminate)) as H.
  cbv zeta in H. etransitivity; [exact H | vm_compute; reflexivity].
Defined.

(** The prefix [MYTAG], typed as the tag is declared, completes to nothing
    although the stored name [MYTAG_fnc_doThing] starts with it; the prefix
    [mytag] completes to two functions although no stored name starts with
    it. *)
Lemma completion_does_not_match_stored_names :
  let st :=
    after Posix.join Posix.dirname Posix.isAbsolute Posix.extname
      Posix.basename Sample.existsSync Sample.readFileSync Sample.Uri_file
      Sample.Docstring_parse Sample.Hpp_parse Sample.glob Sample.settings
      [IndexWorkspace "/mission"; Turn] (initial []) in
  let uri := "file:///mission/functions/utils/fn_doThing.sqf" in
  let stored := map snd (flat_map snd (functions st)) in
  JsString.toLowerCase (Posix.extname uri) = ".sqf"
  /\ onCompletion Posix.extname Posix.basename uri "MYTAG" st = []
  /\ map name (filter (fun fnc => JsString.startsWith (name fnc) "MYTAG") stored)
     = ["MYTAG_fnc_doThing"; "MYTAG_fnc_gone"]
  /\ map Lsp.label (onCompletion Posix.extname Posix.basename uri "mytag" st)
     = ["MYTAG_fnc_doThing"; "MYTAG_fnc_gone"]
  /\ filter (fun fnc => JsString.startsWith (name fnc) "mytag") stored = [].
Proof. vm_compute. repeat split. Qed.

(** ** Docstrings (C9) on the sample *)

Lemma docstring_needs_a_comment_anywhere_helper :
  loadDocs Sample.existsSync Sample.readFileSync Sample.Docstring_parse
    {| name := "OTHER_fnc_helper";
       filename := "/mission/functions/Renamed/fn_helper.sqf"; info := None |}
  = Returns
      {| name := "OTHER_fnc_helper";
         filename := "/mission/functions/Renamed/fn_helper.sqf";
         info :=
           Some {| Docstring.description_short := Some " late ";
                   Docstring.parameters := []; Docstring.parameter := None;
                   Docstring.returns_type := None |} |}.
Proof.
  destruct (docstring_needs_a_comment_anywhere Posix.join
              Posix.dirname Posix.isAbsolute Sample.existsSync
              Sample.readFileSync Sample.Uri_file Sample.Docstring_parse
              Sample.settings Sample.CfgFunctions "/mission/description.ext"
              (initial [])
              {| name := "OTHER_fnc_helper";
                 filename := "/mission/functions/Renamed/fn_helper.sqf";
                 info := None |} eq_refl) as (_ & _ & Hread).
  destruct (Hread (JsText.of_string "private _x = 1; /* late */") eq_refl)
    as (_ & Hset & _).
  assert (Hline : unbroken (JsText.of_string "private _x = 1; /* late */"))
    by (apply unbroken_forallb; reflexivity).
  etransitivity.
  - apply (Hset Hline
             (JsText.of_string "private _x = 1; ") (JsText.of_string " late ")
             []).
    + reflexivity.
    + now apply afterFirstOpen_none_iff.
    + now apply beforeLastClose_none_iff.
    + now apply beforeLastClose_none_iff.
  - reflexivity.
Defined.

(** The file of [helper] starts with code, not with a block comment, and its
    record gets an [info] all the same.  A file that starts with a block
    comment in which U+2028 stands gives none.  A function class whose
    [file] names a directory gives a record whose file exists, and reading it
    throws: the extraction throws, and so does [processCfgFunctions].  And of
    a file with two comments the parser is given everything from the first
    opener to the last closer. *)
Lemma docstring_needs_no_leading_comment :
  (~ leading_block_comment (JsText.of_string "private _x = 1; /* late */")
   /\ Sample.readFileSync "/mission/functions/Renamed/fn_helper.sqf"
      = Returns (JsText.of_string "private _x = 1; /* late */")
   /\ exists parsed,
        loadDocs Sample.existsSync Sample.readFileSync Sample.Docstring_parse
          {| name := "OTHER_fnc_helper";
             filename := "/mission/functions/Renamed/fn_helper.sqf";
             info := None |}
        = Returns {| name := "OTHER_fnc_helper";
                     filename := "/mission/functions/Renamed/fn_helper.sqf";
                     info := Some parsed |})
  /\ (leading_block_comment
        (JsText.of_string "/* a" ++ [8232%N] ++ JsText.of_string "b */ x")%list
      /\ CommentRegex.exec
           (JsText.of_string "/* a" ++ [8232%N] ++ JsText.of_string "b */ x")%list
         = None)
  /\ (let all :=
        {| Hpp.name := "all";
           Hpp.body :=
             {| Hpp.classes := [];
                Hpp.variables := [("file", "functions/utils")] |};
           Hpp.fileLocation :=
             {| Hpp.filename := Some "/mission/description.ext";
                Hpp.range := Sample.at_line 4 |} |} in
      let registry :=
        Sample.group "CfgFunctions" 0 []
          [("mytag",
            Sample.group "MyTag" 1 [("tag", "MYTAG")]
              [("utils", Sample.group "utils" 3 [] [("all", all)])])] in
      let result :=
        processCfgFunctions Posix.join Posix.dirname Posix.isAbsolute
          Sample.existsSync Sample.readFileSync Sample.Uri_file
          Sample.Docstring_parse Sample.settings registry
          "/mission/description.ext" (initial []) in
      Sample.existsSync "/mission/functions/utils" = true
      /\ functions (fst result)
         = [ ("/mission/description.ext",
              [ ("mytag_fnc_all",
                 {| name := "MYTAG_fnc_all";
                    filename := "/mission/functions/utils"; info := None |}) ]) ]
      /\ loadDocs Sample.existsSync Sample.readFileSync Sample.Docstring_parse
           {| name := "MYTAG_fnc_all"; filename := "/mission/functions/utils";
              info := None |}
         = Throws "EISDIR: illegal operation on a directory, read"
      /\ snd result = Some "EISDIR: illegal operation on a directory, read")
  /\ CommentRegex.exec (JsText.of_string "/* a */ x = 1; /* b */")
     = Some (JsText.of_string " a */ x = 1; /* b ").
Proof.
  split; [|split; [|split]].
  - split.
    + intros (ws & body & rest & Hcontents & Hspace).
      destruct ws as [|c ws].
      * discriminate Hcontents.
      * cbn in Hcontents. injection Hcontents as <- _.
        specialize (Hspace _ (or_introl eq_refl)). discriminate Hspace.
    + split; [reflexivity|]. eexists. reflexivity.
  - split; [|reflexivity].
    exists [], (JsText.of_string " a" ++ [8232%N] ++ JsText.of_string "b ")%list,
      (JsText.of_string " x").
    split; [reflexivity | intros c []].
  - vm_compute. repeat split.
  - reflexivity.
Qed.

(** ** Names that [Object.prototype] has (C10) *)

(** C10, where the code leaves it.  The sample mission is indexed; no
    function of it is called [toString] or [constructor].  A hover over
    [toString] in a function document is answered all the same, though the
    name is not in lower case: the table of the first root is an object
    literal and answers with the method that it inherits.  [getFunction]
    returns for [constructor] what the table inherits under that key, which
    is no record, and [onDefinition] hands its missing file name to
    [Uri.file].  Before any root is indexed there is no table to answer, and
    the answer is [null]. *)
Theorem inherited_names_are_answered (Uri_file_undefined : Result string) :
  let st :=
    after Posix.join Posix.dirname Posix.isAbsolute Posix.extname
      Posix.basename Sample.existsSync Sample.readFileSync Sample.Uri_file
      Sample.Docstring_parse Sample.Hpp_parse Sample.glob Sample.settings
      [IndexWorkspace "/mission"; Turn] (initial []) in
  let uri := "file:///mission/init.sqf" in
  flat_map (fun rootEntry => JsObject.keys (snd rootEntry)) (functions st)
  = ["mytag_fnc_dothing"; "mytag_fnc_gone"; "other_fnc_helper"]
  /\ JsString.toLowerCase "toString" <> "toString"
  /\ onHover Posix.extname Posix.basename uri "toString" st
     = Some {| Lsp.contents :=
                 "```sqf" ++ JsString.CRLF ++ "(function) ANY call toString"
                 ++ JsString.CRLF ++ "```" |}
  /\ onHover Posix.extname Posix.basename uri "tostring" st = None
  /\ getFunction "constructor" st = Some (JsObject.Inherited "constructor")
  /\ onDefinition Sample.Uri_file Uri_file_undefined "constructor" st
     = match Uri_file_undefined with
       | Returns uri => Returns [locationOf uri]
       | Throws error => Throws error
       end
  /\ getFunction "constructor" (initial []) = None.
Proof.
  intros st uri.
  split; [vm_compute; reflexivity|]. split; [discriminate|].
  split; [vm_compute; reflexivity|]. split; [vm_compute; reflexivity|].
  split; [vm_compute; reflexivity|]. split; [|reflexivity].
  unfold onDefinition.
  assert (getFunction "constructor" st = Some (JsObject.Inherited "constructor"))
    as -> by (vm_compute; reflexivity).
  reflexivity.
Qed.

(** * The further properties on the samples *)

(** X2 on [sampleProperties]: [author] and [Author] share the key [author],
    and the later one is found. *)
Lemma loaded_properties_are_found_in_lower_case_author :
  exists st',
    loadDocumentationCallback (Some sampleProperties) (initial []) = Some st'
    /\ functions st' = []
    /\ exists last,
         lastWith (fun i => JsString.toLowerCase (doc_name i)) "author"
           sampleProperties last
         /\ onHover Posix.extname Posix.basename
              "file:///mission/description.ext" "author" st'
            = Some {| Lsp.contents :=
                        doc_description last ++ " _([more info]("
                        ++ doc_link last ++ "))_" |}.
Proof.
  eexists. split; [reflexivity|].
  exact (loaded_properties_are_found_in_lower_case Posix.extname Posix.basename
           sampleProperties (initial []) _ "file:///mission/description.ext"
           {| doc_name := "author"; doc_type := "String";
              doc_description := "Mission author";
              doc_link := "https://wiki/author" |}
           eq_refl
           ltac:(intros other Hin; vm_compute in Hin;
                 repeat (destruct Hin as [<- | Hin];
                         [vm_compute; discriminate|]);
                 destruct Hin)
           ltac:(vm_compute; discriminate) eq_refl
           (or_introl eq_refl)).
Defined.

(** X3 on the sample mission, asked in upper case. *)
Lemma lookup_returns_the_queried_function_doThing :
  let sampleMission :=
    (after Posix.join Posix.dirname Posix.isAbsolute Posix.extname
       Posix.basename Sample.existsSync Sample.readFileSync Sample.Uri_file
       Sample.Docstring_parse Sample.Hpp_parse Sample.glob Sample.settings
       [IndexWorkspace "/mission"; Turn] (initial [])) in
  let doThing :=
    {| name := "MYTAG_fnc_doThing";
       filename := "/mission/functions/utils/fn_doThing.sqf";
       info :=
         Some {| Docstring.description_short := Some " Does a thing ";
                 Docstring.parameters := []; Docstring.parameter := None;
                 Docstring.returns_type := None |} |} in
  getFunction "MYTAG_FNC_DOTHING" sampleMission = Some (JsObject.Own doThing)
  /\ JsString.toLowerCase (name doThing) = "mytag_fnc_dothing"
  /\ onDefinition Sample.Uri_file Sample.Uri_file_undefined
       "MYTAG_FNC_DOTHING" sampleMission
     = Returns
         [ {| Lsp.loc_uri := "file:///mission/functions/utils/fn_doThing.sqf";
              Lsp.loc_range :=
                {| Lsp.start := {| Lsp.line := 0; Lsp.character := 0 |};
                   Lsp.end_ := {| Lsp.line := 0; Lsp.character := 1 |} |} |} ]
  /\ onHover Posix.extname Posix.basename "file:///mission/init.sqf"
       "mytag_fnc_dothing" sampleMission
     = Some {| Lsp.contents := hoverContents doThing |}.
Proof.
  intros sampleMission doThing.
  destruct (lookup_returns_the_queried_function Posix.join Posix.dirname
              Posix.isAbsolute Posix.extname Posix.basename Sample.existsSync
              Sample.readFileSync Sample.Uri_file Sample.Uri_file_undefined
              Sample.Docstring_parse Sample.Hpp_parse Sample.glob
              Sample.settings [] [IndexWorkspace "/mission"; Turn]
              "MYTAG_FNC_DOTHING" doThing ltac:(vm_compute; reflexivity))
    as (Hname & Hdefinition & Hhover).
  split; [vm_compute; reflexivity|].
  split; [exact Hname|]. split; [exact Hdefinition|].
  exact (Hhover "file:///mission/init.sqf" eq_refl).
Defined.

(** X4 on the sample mission. *)
Lemma completed_functions_have_definitions_gone :
  let sampleMission :=
    (after Posix.join Posix.dirname Posix.isAbsolute Posix.extname
       Posix.basename Sample.existsSync Sample.readFileSync Sample.Uri_file
       Sample.Docstring_parse Sample.Hpp_parse Sample.glob Sample.settings
       [IndexWorkspace "/mission"; Turn] (initial [])) in
  let item :=
    {| Lsp.label := "MYTAG_fnc_gone"; Lsp.data := "mytag_fnc_gone";
       Lsp.filterText := "MYTAG_fnc_gone"; Lsp.insertText := "MYTAG_fnc_gone";
       Lsp.kind := Lsp.CompletionItemKind.Function;
       Lsp.documentation := None |} in
  In item
    (onCompletion Posix.extname Posix.basename "file:///mission/init.sqf"
       "mytag_fnc_" sampleMission)
  /\ exists fnc,
       getFunction "MYTAG_fnc_gone" sampleMission = Some (JsObject.Own fnc)
       /\ JsString.toLowerCase (name fnc) = "mytag_fnc_gone"
       /\ onDefinition Sample.Uri_file Sample.Uri_file_undefined
            "MYTAG_fnc_gone" sampleMission
          = Returns [locationOf (Sample.Uri_file (filename fnc))].
Proof.
  intros sampleMission item.
  assert (In item
            (onCompletion Posix.extname Posix.basename
               "file:///mission/init.sqf" "mytag_fnc_" sampleMission)) as Hin.
  { vm_compute. right. left. reflexivity. }
  split; [exact Hin|].
  exact (proj2 (proj2
    (completed_functions_have_definitions Posix.join Posix.dirname
       Posix.isAbsolute Posix.extname Posix.basename Sample.existsSync
       Sample.readFileSync Sample.Uri_file Sample.Uri_file_undefined
       Sample.Docstring_parse Sample.Hpp_parse Sample.glob Sample.settings []
       [IndexWorkspace "/mission"; Turn] "file:///mission/init.sqf"
       "mytag_fnc_" item eq_refl ltac:(vm_compute; discriminate) Hin))).
Defined.



(** X9 on the sample mission: the docstring of [MYTAG_fnc_doThing] is the
    comment of [fn_doThing.sqf]. *)
Lemma docstrings_come_from_existing_files_doThing :
  Sample.existsSync "/mission/functions/utils/fn_doThing.sqf" = true
  /\ exists contents pre text post,
       Sample.readFileSync "/mission/functions/utils/fn_doThing.sqf"
       = Returns contents
       /\ contents
          = (pre ++ CommentRegex.opener ++ text ++ CommentRegex.closer
             ++ post)%list
       /\ unbroken text
       /\ Sample.Docstring_parse text
          = Returns {| Docstring.description_short := Some " Does a thing ";
                       Docstring.parameters := [];
                       Docstring.parameter := None;
                       Docstring.returns_type := None |}.
Proof.
  pose (sampleMission :=
    after Posix.join Posix.dirname Posix.isAbsolute Posix.extname
      Posix.basename Sample.existsSync Sample.readFileSync Sample.Uri_file
      Sample.Docstring_parse Sample.Hpp_parse Sample.glob Sample.settings
      [IndexWorkspace "/mission"; Turn] (initial [])).
  pose (sampleTable :=
    match JsObject.get (functions sampleMission) "/mission/description.ext" with
    | Some table => table
    | None => []
    end).
  pose (doThing :=
    {| name := "MYTAG_fnc_doThing";
       filename := "/mission/functions/utils/fn_doThing.sqf";
       info :=
         Some {| Docstring.description_short := Some " Does a thing ";
                 Docstring.parameters := []; Docstring.parameter := None;
                 Docstring.returns_type := None |} |}).
  destruct (docstrings_come_from_existing_files Posix.join Posix.dirname
              Posix.isAbsolute Posix.extname Posix.basename Sample.existsSync
              Sample.readFileSync Sample.Uri_file Sample.Docstring_parse
              Sample.Hpp_parse Sample.glob Sample.settings []
              [IndexWorkspace "/mission"; Turn] "/mission/description.ext"
              "mytag_fnc_dothing" sampleTable doThing
              ltac:(vm_compute; left; reflexivity)
              ltac:(vm_compute; left; reflexivity)) as (_ & Hinfo).
  exact (Hinfo _ eq_refl).
Defined.

(** X10 on the sample mission. *)
Lemma records_are_declared_functions_doThing :
  exists context cfgFunctions tagKey tagClass categoryKey categoryClass
         functionKey functionClass,
    snd (Sample.Hpp_parse "/mission/description.ext") = Hpp.Parsed context
    /\ JsObject.get (Hpp.classes context) "cfgfunctions" = Some cfgFunctions
    /\ In (tagKey, tagClass) (Hpp.classes (Hpp.body cfgFunctions))
    /\ In (categoryKey, categoryClass) (Hpp.classes (Hpp.body tagClass))
    /\ In (functionKey, functionClass) (Hpp.classes (Hpp.body categoryClass))
    /\ "MYTAG_fnc_doThing"
       = categoryTagOf (tagOf tagClass) categoryClass ++ "_fnc_"
         ++ Hpp.name functionClass
    /\ "/mission/functions/utils/fn_doThing.sqf"
       = resolveFilename Posix.join Posix.isAbsolute Sample.settings "/mission"
           (declaredFilename Posix.join
              (categoryPathOf Posix.join categoryClass) functionClass).
Proof.
  pose (sampleMission :=
    (after Posix.join Posix.dirname Posix.isAbsolute Posix.extname
       Posix.basename Sample.existsSync Sample.readFileSync Sample.Uri_file
       Sample.Docstring_parse Sample.Hpp_parse Sample.glob Sample.settings
       [IndexWorkspace "/mission"; Turn] (initial []))).
  pose (sampleTable :=
    match JsObject.get (functions sampleMission) "/mission/description.ext" with
    | Some table => table
    | None => []
    end).
  pose (doThing :=
    {| name := "MYTAG_fnc_doThing";
       filename := "/mission/functions/utils/fn_doThing.sqf";
       info :=
         Some {| Docstring.description_short := Some " Does a thing ";
                 Docstring.parameters := []; Docstring.parameter := None;
                 Docstring.returns_type := None |} |}).
  destruct (records_are_declared_functions Posix.join Posix.dirname
              Posix.isAbsolute Posix.extname Posix.basename Sample.existsSync
              Sample.readFileSync Sample.Uri_file Sample.Docstring_parse
              Sample.Hpp_parse Sample.glob Sample.settings []
              [IndexWorkspace "/mission"; Turn] "/mission/description.ext"
              "mytag_fnc_dothing" sampleTable doThing
              ltac:(vm_compute; left; reflexivity)
              ltac:(vm_compute; left; reflexivity))
    as (context & cfgFunctions & tagKey & tagClass & categoryKey
        & categoryClass & functionKey & functionClass & Hparse & Hget & Htag
        & Hcategory & Hfunction & Hname & _ & Hfile).
  exists context, cfgFunctions, tagKey, tagClass, categoryKey, categoryClass,
    functionKey, functionClass.
  repeat split; assumption.
Defined.

(** X11 on the sample mission: [fn_gone.sqf] is missing. *)
Lemma hover_without_docstring_gone :
  onHover Posix.extname Posix.basename "file:///mission/init.sqf"
    "mytag_fnc_gone"
    (after Posix.join Posix.dirname Posix.isAbsolute Posix.extname
       Posix.basename Sample.existsSync Sample.readFileSync Sample.Uri_file
       Sample.Docstring_parse Sample.Hpp_parse Sample.glob Sample.settings
       [IndexWorkspace "/mission"; Turn] (initial []))
  = Some {| Lsp.contents :=
              "```sqf" ++ JsString.CRLF ++ "(function) ANY call MYTAG_fnc_gone"
              ++ JsString.CRLF ++ "```" |}.
Proof.
  exact (hover_without_docstring Posix.join Posix.dirname Posix.isAbsolute
           Posix.extname Posix.basename Sample.existsSync Sample.readFileSync
           Sample.Uri_file Sample.Docstring_parse Sample.Hpp_parse Sample.glob
           Sample.settings [] [IndexWorkspace "/mission"; Turn]
           "file:///mission/init.sqf" "mytag_fnc_gone"
           {| name := "MYTAG_fnc_gone";
              filename := "/mission/functions/utils/fn_gone.sqf";
              info := None |}
           eq_refl ltac:(vm_compute; reflexivity) (or_introl eq_refl)).
Defined.

(** X13 on the sample mission, which has one description.ext. *)
Lemma every_existing_file_is_attempted_sample :
  let st' :=
    run Posix.join Posix.dirname Posix.isAbsolute Sample.existsSync
      Sample.readFileSync Sample.Uri_file Sample.Docstring_parse
      Sample.Hpp_parse Sample.glob Sample.settings 1
      (indexWorkspace Posix.join Posix.isAbsolute Sample.existsSync
         Sample.settings "/mission" (initial [])) in
  pending st' = []
  /\ In (LoggerDebug "Proccessing: /mission/description.ext") (trace st')
  /\ In (Resolve (ParseFilePromise "/mission/description.ext")) (trace st').
Proof.
  destruct (every_existing_file_is_attempted Posix.join Posix.dirname
              Posix.isAbsolute Sample.existsSync Sample.readFileSync
              Sample.Uri_file Sample.Docstring_parse Sample.Hpp_parse
              Sample.glob Sample.settings "/mission" (initial [])
              eq_refl eq_refl) as (Hpending & Hattempted).
  split; [exact Hpending|].
  exact (Hattempted "/mission/description.ext" (or_introl eq_refl) eq_refl).
Defined.

(** X14 with a [glob] that reports an error together with two files. *)
Lemma discovery_resolves_in_the_glob_callback_sample :
  let started :=
    indexWorkspace Posix.join Posix.isAbsolute Sample.existsSync
      sampleDiscovery "/mission" (initial []) in
  trace started = []
  /\ exists st1,
       turn Posix.join Posix.dirname Posix.isAbsolute Sample.existsSync
         Sample.readFileSync Sample.Uri_file Sample.Docstring_parse
         Sample.Hpp_parse sampleGlob sampleDiscovery started = Some st1
       /\ files st1
          = ["/mission/extra/description.ext"; "/mission/description.ext";
             "/mission/missions/a/description.ext"]
       /\ pending st1 = [ReadFileCallback "/mission/description.ext"].
Proof.
  destruct (discovery_resolves_in_the_glob_callback Posix.join Posix.dirname
              Posix.isAbsolute Sample.existsSync Sample.readFileSync
              Sample.Uri_file Sample.Docstring_parse Sample.Hpp_parse
              sampleGlob sampleDiscovery "/mission" (initial [])
              eq_refl eq_refl)
    as (Htrace & _ & _ & st1 & logs & Hturn & Hfiles & _ & Hpending & _).
  split; [exact Htrace|]. exists st1.
  split; [exact Hturn|]. split; [exact Hfiles | exact Hpending].
Defined.

(** X16 on the registry of the sample mission. *)
Lemma declared_functions_are_found_doThing :
  let result :=
    processCfgFunctions Posix.join Posix.dirname Posix.isAbsolute
      Sample.existsSync Sample.readFileSync Sample.Uri_file
      Sample.Docstring_parse Sample.settings Sample.CfgFunctions
      "/mission/description.ext" (initial []) in
  let doThing :=
    {| name := "MYTAG_fnc_doThing";
       filename := "/mission/functions/utils/fn_doThing.sqf";
       info :=
         Some {| Docstring.description_short := Some " Does a thing ";
                 Docstring.parameters := []; Docstring.parameter := None;
                 Docstring.returns_type := None |} |} in
  snd result = None
  /\ getFunction "mytag_FNC_dothing" (fst result) = Some (JsObject.Own doThing)
  /\ onDefinition Sample.Uri_file Sample.Uri_file_undefined
       "mytag_FNC_dothing" (fst result)
     = Returns [locationOf "file:///mission/functions/utils/fn_doThing.sqf"]
  /\ exists last,
       lastWith (fun d => JsString.toLowerCase (qualifiedName d))
         "mytag_fnc_dothing" (declarations Posix.join Sample.CfgFunctions) last
       /\ name doThing = qualifiedName last
       /\ loadDocs Sample.existsSync Sample.readFileSync
            Sample.Docstring_parse
            (recordOf Posix.join Posix.dirname Posix.isAbsolute
               Sample.settings "/mission/description.ext" last)
          = Returns doThing.
Proof.
  intros result doThing.
  assert (snd result = None) as Hnone by (vm_compute; reflexivity).
  assert (getFunction "mytag_FNC_dothing" (fst result)
          = Some (JsObject.Own doThing)) as Hown by (vm_compute; reflexivity).
  destruct (declared_functions_are_found Posix.join Posix.dirname
              Posix.isAbsolute Sample.existsSync Sample.readFileSync
              Sample.Uri_file Sample.Uri_file_undefined Sample.Docstring_parse
              Sample.settings Sample.CfgFunctions "/mission/description.ext"
              (initial []) ("MYTAG", "functions/utils", Sample.doThing)
              "mytag_FNC_dothing"
              ltac:(vm_compute; left; reflexivity) eq_refl)
    as ((fnc & Hfound & Hdefinition) & Hlast).
  fold result in Hfound, Hdefinition, Hlast.
  split; [exact Hnone|]. split; [exact Hown|].
  split.
  { rewrite Hdefinition. rewrite Hown in Hfound.
    injection Hfound as <-. reflexivity. }
  destruct Hlast as (last & record & Hpinned & Hget & Hname & _ & _ & Hloaded).
  { intros other table []. }
  rewrite Hown in Hget. injection Hget as <-.
  exists last. split; [exact Hpinned|]. split; [exact Hname|].
  exact (Hloaded Hnone).
Defined.

(** X18 on the sample mission: [MYTAG_FNC_DOTHING] is found whatever its
    case, and hovered only in lower case. *)
Lemma lookup_folds_case_and_hover_does_not_sample :
  let sampleMission :=
    (after Posix.join Posix.dirname Posix.isAbsolute Posix.extname
       Posix.basename Sample.existsSync Sample.readFileSync Sample.Uri_file
       Sample.Docstring_parse Sample.Hpp_parse Sample.glob Sample.settings
       [IndexWorkspace "/mission"; Turn] (initial [])) in
  getFunction "mytag_fnc_dothing" sampleMission
  = getFunction "MYTAG_FNC_DOTHING" sampleMission
  /\ onDefinition Sample.Uri_file Sample.Uri_file_undefined
       "mytag_fnc_dothing" sampleMission
     = onDefinition Sample.Uri_file Sample.Uri_file_undefined
         "MYTAG_FNC_DOTHING" sampleMission
  /\ onHover Posix.extname Posix.basename "file:///mission/init.sqf"
       "MYTAG_FNC_DOTHING" sampleMission = None
  /\ onHover Posix.extname Posix.basename "file:///mission/init.sqf"
       "mytag_fnc_dothing" sampleMission <> None.
Proof.
  intros sampleMission.
  destruct (lookup_folds_case_and_hover_does_not Posix.join Posix.dirname
              Posix.isAbsolute Posix.extname Posix.basename Sample.existsSync
              Sample.readFileSync Sample.Uri_file Sample.Uri_file_undefined
              Sample.Docstring_parse Sample.Hpp_parse Sample.glob
              Sample.settings [] [IndexWorkspace "/mission"; Turn]
              "file:///mission/init.sqf" "MYTAG_FNC_DOTHING" eq_refl
              ltac:(vm_compute; discriminate))
    as (Hfold & _ & _ & Hlower & _).
  destruct (Hfold "mytag_fnc_dothing" eq_refl) as (Hget & Hdefinition).
  split; [exact Hget|]. split; [exact Hdefinition|].
  split; [|vm_compute; discriminate].
  destruct (onHover Posix.extname Posix.basename "file:///mission/init.sqf"
              "MYTAG_FNC_DOTHING" sampleMission) eqn:Hhover; [|reflexivity].
  exfalso.
  assert (JsString.toLowerCase "MYTAG_FNC_DOTHING" = "MYTAG_FNC_DOTHING")
    as Hkey; [|vm_compute in Hkey; discriminate].
  apply (Hlower eq_refl). fold sampleMission. rewrite Hhover. discriminate.
Defined.
